(** * Recording index and range playback of mediamtx: a shallow embedding

    The development follows the Go sources
      - [internal/index/index.go]   (sidecar codec, segment scanner, time index),
      - [internal/playback/log.go]  (range response writer, GET handler),
      - [internal/playback/segment_fmp4_read.go] (box walker).

    Go's [int], [int64] and [time.Duration] are 64-bit two's complement
    integers; they are modelled as [Z] with the wrap-around written out.
    Bytes are [Z] values in [0, 256). *)

From Stdlib Require Import ZArith Lia List Bool Ascii String Sorted.
From stdpp Require Import gmap strings list fin_maps sorting.
Import ListNotations.

Local Open Scope Z_scope.
Set Warnings "-register-all".

(** ** Machine integers *)

(** Conversion to a signed integer type of [bits] bits. *)
Definition sint (bits : Z) (z : Z) : Z :=
  (z + 2 ^ (bits - 1)) mod 2 ^ bits - 2 ^ (bits - 1).

(** Conversion to [byte]. *)
Definition byte_of (z : Z) : Z := Z.land z 255.

Module Int64.

Definition max_int : Z := 2 ^ 63 - 1.
Definition min_int : Z := - 2 ^ 63.

(** Reduction of a mathematical integer to the 64-bit signed range. *)
Definition wrap (z : Z) : Z := sint 64 z.

Definition add (a b : Z) : Z := wrap (a + b).
Definition sub (a b : Z) : Z := wrap (a - b).
Definition mul (a b : Z) : Z := wrap (a * b).

Definition in_range (z : Z) : Prop := min_int <= z <= max_int.

End Int64.

(** ** Errors

    The error values the modelled code creates or tests for. *)

Inductive goerror : Type :=
  | EOF                      (* io.EOF *)
  | ErrUnexpectedEOF         (* io.ErrUnexpectedEOF *)
  | ErrFatal                 (* playback.ErrFatal, "broken content size" *)
  | ErrIndexIsOld            (* playback.ErrIndexIsOld *)
  | ErrNet                   (* a *net.OpError of the client connection *)
  | ErrIO                    (* an error of the file system *)
  | ErrTimeMarshal           (* error of Time.MarshalBinary *)
  | ErrTimeUnmarshal         (* error of Time.UnmarshalBinary *)
  | ErrNotSupported          (* "MPEG-TS format is not supported yet" *)
  | ErrPayload               (* mp4: payload of a box fails to decode *)
  | ErrInvalidTrackID (id : Z)
  | ErrBoxTooLarge           (* "too large box size" *)
  | ErrBoxUnexpectedEOF      (* "unexpected EOF", or mp4.ReadBoxInfo failing *)
  | PanicDivideByZero.       (* run-time panic, not an error value *)

Global Instance goerror_eq_dec : EqDecision goerror.
Proof. solve_decision. Defined.

(** ** Go slices of bytes

    A slice [p] sees [elems p]; the backing array may hold further bytes
    up to the capacity ([spare p]), which [p[:k]] can reach. *)

Record slice : Type := mkSlice {
  elems : list Z;
  spare : list Z
}.

Definition len (p : slice) : Z := Z.of_nat (length (elems p)).
Definition cap (p : slice) : Z := Z.of_nat (length (elems p) + length (spare p)).

Definition bytes (l : list Z) : slice := mkSlice l [].

(** [p[:k]]: panics (here [None]) unless [0 <= k <= cap p]. *)
Definition slice_to (p : slice) (k : Z) : option slice :=
  if (0 <=? k) && (k <=? cap p)
  then let all := elems p ++ spare p in
       Some (mkSlice (take (Z.to_nat k) all) (drop (Z.to_nat k) all))
  else None.

(** [p[k:]]: panics (here [None]) unless [0 <= k <= len p]. *)
Definition slice_from (p : slice) (k : Z) : option slice :=
  if (0 <=? k) && (k <=? len p)
  then Some (mkSlice (drop (Z.to_nat k) (elems p)) (spare p))
  else None.

(** ** Range response writer *)

Module RangeWriter.

Inductive header : Type :=
  | AcceptRangesBytes
  | ContentTypeMp4
  | ContentRange (first last total : Z)
  | ContentLength (n : Z).

(** The part of [gin.Context] the writer touches: the response under
    construction and whether the client connection is still usable. *)
Record ginContext : Type := mkCtx {
  respHeaders : list header;
  respStatus  : option Z;
  respBody    : list Z;
  connBroken  : bool
}.

Definition emptyCtx : ginContext := mkCtx [] None [] false.

Definition ctxHeader (c : ginContext) (h : header) : ginContext :=
  mkCtx (respHeaders c ++ [h]) (respStatus c) (respBody c) (connBroken c).

Definition ctxStatus (c : ginContext) (s : Z) : ginContext :=
  mkCtx (respHeaders c) (Some s) (respBody c) (connBroken c).

(** [ctx.Writer.Write(p)]: the bytes reach the client, or the connection
    is gone and the call fails with a network error. *)
Definition ctxWrite (c : ginContext) (p : slice) : Z * option goerror * ginContext :=
  if connBroken c then (0, Some ErrNet, c)
  else (len p, None,
        mkCtx (respHeaders c) (respStatus c) (respBody c ++ elems p) false).

Record writerWrapper : Type := mkWriter {
  ctx     : ginContext;
  length  : Z;     (* data length, accumulated during first pass *)
  skipped : Z;     (* bytes skipped during second pass *)
  sent    : Z;     (* byte sent *)
  offset  : Z;     (* offset as requested *)
  offset2 : Z;     (* end offset *)
  pass1   : bool;  (* scan pass *)
  written : bool
}.

Definition set_ctx (w : writerWrapper) (c : ginContext) : writerWrapper :=
  mkWriter c (length w) (skipped w) (sent w) (offset w) (offset2 w) (pass1 w) (written w).
Definition set_length (w : writerWrapper) (v : Z) : writerWrapper :=
  mkWriter (ctx w) v (skipped w) (sent w) (offset w) (offset2 w) (pass1 w) (written w).
Definition set_skipped (w : writerWrapper) (v : Z) : writerWrapper :=
  mkWriter (ctx w) (length w) v (sent w) (offset w) (offset2 w) (pass1 w) (written w).
Definition set_sent (w : writerWrapper) (v : Z) : writerWrapper :=
  mkWriter (ctx w) (length w) (skipped w) v (offset w) (offset2 w) (pass1 w) (written w).
Definition set_offset2 (w : writerWrapper) (v : Z) : writerWrapper :=
  mkWriter (ctx w) (length w) (skipped w) (sent w) (offset w) v (pass1 w) (written w).
Definition set_pass1 (w : writerWrapper) (v : bool) : writerWrapper :=
  mkWriter (ctx w) (length w) (skipped w) (sent w) (offset w) (offset2 w) v (written w).
Definition set_written (w : writerWrapper) (v : bool) : writerWrapper :=
  mkWriter (ctx w) (length w) (skipped w) (sent w) (offset w) (offset2 w) (pass1 w) v.

(** What a call leaves behind: the returned pair and the writer, or a
    run-time panic (slice bounds out of range). *)
Inductive result : Type :=
  | Returned (n : Z) (err : option goerror) (w : writerWrapper)
  | Panicked.

Definition writeHeaders (w : writerWrapper) : writerWrapper :=
  let w := set_written w true in
  let w := set_ctx w (ctxHeader (ctx w) AcceptRangesBytes) in
  set_ctx w (ctxHeader (ctx w) ContentTypeMp4).

Definition ensureHeaders (w : writerWrapper) : writerWrapper :=
  if written w then w else writeHeaders w.

Definition Write (w : writerWrapper) (p : slice) : result :=
  let n := len p in
  (* first pass *)
  if pass1 w then Returned n None (set_length w (Int64.add (length w) n))
  (* second pass, write stage *)
  else if skipped w >=? offset w then
    let w := ensureHeaders w in
    let bytesToWrite := len p in
    let clamped :=
      if Int64.add (Int64.add (sent w) bytesToWrite) 1 >? offset2 w
      then slice_to p (Int64.sub (Int64.add (offset2 w) 1) (sent w))
      else Some p in
    match clamped with
    | None => Panicked
    | Some p =>
        match ctxWrite (ctx w) p with
        | (_, Some err, c) => Returned 0 (Some err) (set_ctx w c)
        | (n, None, c) =>
            let w := set_sent (set_ctx w c) (Int64.add (sent w) n) in
            Returned n (if sent w >=? offset2 w then Some EOF else None) w
        end
    end
  (* second pass, skip stage: skip whole buffer *)
  else if Int64.add (skipped w) n <=? offset w then
    Returned n None (set_skipped w (Int64.add (skipped w) n))
  else
    (* skip part of buffer *)
    let bytesToSkip := Int64.sub (offset w) (skipped w) in
    let w := set_skipped w (Int64.add (skipped w) bytesToSkip) in
    if skipped w >? offset w then Returned 0 (Some ErrFatal) w
    else
      let w := ensureHeaders w in
      match slice_from p bytesToSkip with
      | None => Panicked
      | Some tail =>
          match ctxWrite (ctx w) tail with
          | (n, err, c) => Returned n err (set_ctx w c)
          end
      end.

(** What [seekAndMux] leaves behind: the error it returns and the
    writer, or a run-time panic. *)
Inductive muxResult : Type :=
  | Finished (err : option goerror) (w : writerWrapper)
  | MuxPanicked.

(** Modelled from the spec: the muxers ([muxerFMP4], [muxerMP4]), the
    part readers ([segmentFMP4SeekAndMuxParts], [segmentFMP4MuxParts]),
    [segmentFMP4ReadInit] and [segmentFMP4CanBeConcatenated] are
    collaborators outside the sources at hand.  A muxer "serializes
    parsed media into an output byte stream": whatever it does, it hands
    buffers to the writer it holds, one [Write] after the other, and
    gives up at the first error, which comes back through the part
    reader or [flush].  For a fixed path, start and duration the buffers
    are the same in both passes (spec, section 9), and the seek hint
    only shortens the reading.  A segment is given by what these
    collaborators make of it. *)
Record segment : Type := mkSegmentData {
  segOpens : bool;                 (* os.Open succeeds *)
  segInit : option nat;            (* segmentFMP4ReadInit: the init, or failure *)
  segConcat : bool;                (* segmentFMP4CanBeConcatenated with what came before *)
  segParts : list slice;           (* the buffers written while its parts are muxed *)
  segPartsErr : option goerror     (* the part reader's own error, if any *)
}.

(** The [Write] calls for a sequence of buffers. *)
Fixpoint emit (bufs : list slice) (w : writerWrapper) : muxResult :=
  match bufs with
  | [] => Finished None w
  | p :: rest =>
      match Write w p with
      | Panicked => MuxPanicked
      | Returned _ (Some err) w' => Finished (Some err) w'
      | Returned _ None w' => emit rest w'
      end
  end.

(** [segmentFMP4SeekAndMuxParts] and [segmentFMP4MuxParts]. *)
Definition muxParts (seg : segment) (w : writerWrapper) : muxResult :=
  match emit (segParts seg) w with
  | Finished None w => Finished (segPartsErr seg) w
  | r => r
  end.

(** The loop of [seekAndMux] over [segments[1:]], then [m.flush()];
    [flushed] are the buffers [flush] writes. *)
Fixpoint muxRest (segments : list segment) (flushed : list slice) (w : writerWrapper)
  : muxResult :=
  match segments with
  | [] => emit flushed w
  | seg :: rest =>
      if negb (segOpens seg) then Finished (Some ErrIO) w
      else
        match segInit seg with
        | None => Finished (Some ErrPayload) w
        | Some _ =>
            if negb (segConcat seg) then emit flushed w     (* break *)
            else
              match muxParts seg w with
              | Finished None w => muxRest rest flushed w
              | r => r
              end
        end
  end.

Definition seekAndMux (recordFormatFMP4 : bool) (segments : list segment)
           (flushed : list slice) (w : writerWrapper) : muxResult :=
  if recordFormatFMP4 then
    match segments with
    | [] => MuxPanicked                      (* segments[0]: index out of range *)
    | first :: rest =>
        if negb (segOpens first) then Finished (Some ErrIO) w
        else
          match segInit first with
          | None => Finished (Some ErrPayload) w
          | Some _ =>
              (* m.writeInit(firstInit); seek to Index.FindBestOffset(pathName, start) *)
              match muxParts first w with
              | Finished None w => muxRest rest flushed w
              | r => r
              end
          end
    end
  else Finished (Some ErrNotSupported) w.

(** [handleError] as far as the flow of [onGet] goes: [io.EOF] and no
    error let the handler continue, every other error stops it. *)
Definition handleError (err : option goerror) : bool :=
  match err with
  | Some EOF => false
  | Some _ => true
  | None => false
  end.

(** The [Range] header as [onGet] parses it: absent, without [=] before
    [-], or with a start that is no number ([NoRange]); [bytes=a-]
    ([From a]); [bytes=a-b] ([Window a b]); [bytes=a-] followed by
    something that is no number ([FromBadEnd a]). *)
Inductive rangeHeader : Type :=
  | NoRange
  | From (a : Z)
  | Window (a b : Z)
  | FromBadEnd (a : Z).

Definition initialWriter (c : ginContext) (r : rangeHeader) : writerWrapper :=
  match r with
  | NoRange      => mkWriter c 0 0 0 0 Int64.max_int false false
  | From a       => mkWriter c 0 0 0 a Int64.max_int true false
  | Window a b   => mkWriter c 0 0 0 a b true false
  | FromBadEnd a => mkWriter c 0 0 0 a Int64.max_int false false
  end.

(** [onGet] from the point where the writer exists to the end of the
    second pass, for a recording whose segments were found.  The result
    is the writer at the end, whose context holds what the writer and
    the handler put into the response (the error response [handleError]
    writes when it stops the handler is left out). *)
Definition onGet (c : ginContext) (r : rangeHeader) (recordFormatFMP4 : bool)
           (segments : list segment) (flushed : list slice) : muxResult :=
  let ww := initialWriter c r in
  let after1 :=
    if pass1 ww then
      (* pass 1: Find the metadata *)
      match seekAndMux recordFormatFMP4 segments flushed ww with
      | MuxPanicked => MuxPanicked
      | Finished err ww =>
          if handleError err then Finished err ww
          else
            let ww := if offset2 ww =? Int64.max_int
                      then set_offset2 ww (Int64.sub (length ww) 1) else ww in
            let c := ctxHeader (ctx ww) AcceptRangesBytes in
            let c := ctxHeader c ContentTypeMp4 in
            let c := ctxHeader c (ContentRange (offset ww) (offset2 ww) (length ww)) in
            let c := ctxStatus c 206 in
            Finished None (set_written (set_pass1 (set_ctx ww c) false) true)
      end
    else Finished None ww in
  match after1 with
  | MuxPanicked => MuxPanicked
  | Finished (Some err) ww => Finished (Some err) ww
  | Finished None ww =>
      (* pass 2: actual write *)
      seekAndMux recordFormatFMP4 segments flushed ww
  end.

(** The body the client has received when the handler is done. *)
Definition delivered (r : muxResult) : option (list Z) :=
  match r with
  | Finished _ w => Some (respBody (ctx w))
  | MuxPanicked => None
  end.

End RangeWriter.

(** ** Wall-clock times

    [time.Time] of Go's standard library, for values without a monotonic
    clock reading (every time stored in the index went through
    [Truncate(0)], [Add] on such a value, or [UnmarshalBinary]): seconds
    since January 1, year 1 ([int64]), nanoseconds within the second
    ([int32]) and the location.  Of a location only the zone offset in
    force at the instant matters here. *)

Module GoTime.

Inductive location : Type :=
  | UTC
  | Zone (offset : Z).   (* seconds east of UTC *)

Record t : Type := mkTime { sec : Z; nsec : Z; loc : location }.

(** [t.Truncate(0)] strips the monotonic clock reading, which this
    model does not carry. *)
Definition Truncate0 (x : t) : t := x.

Definition After (x u : t) : bool :=
  (sec x >? sec u) || ((sec x =? sec u) && (nsec x >? nsec u)).

Definition Before (x u : t) : bool :=
  (sec x <? sec u) || ((sec x =? sec u) && (nsec x <? nsec u)).

Definition Equal (x u : t) : bool :=
  (sec x =? sec u) && (nsec x =? nsec u).

(** Nanoseconds since the epoch of the representation, unbounded. *)
Definition nanos (x : t) : Z := sec x * 1000000000 + nsec x.

(** [t.Sub(u)]: the duration [t - u]; when the difference exceeds the
    largest (smallest) value a [Duration] can hold, that largest
    (smallest) duration. *)
Definition Sub (x u : t) : Z :=
  let d := nanos x - nanos u in
  if d >? Int64.max_int then Int64.max_int
  else if d <? Int64.min_int then Int64.min_int
  else d.

(** [t.Add(d)], with the saturation of [addSec]. *)
Definition Add (x : t) (d : Z) : t :=
  let dsec := Z.quot d 1000000000 in
  let ns := nsec x + Z.rem d 1000000000 in
  let '(dsec, ns) :=
    if ns >=? 1000000000 then (dsec + 1, ns - 1000000000)
    else if ns <? 0 then (dsec - 1, ns + 1000000000)
    else (dsec, ns) in
  let sum := Int64.add (sec x) dsec in
  let s := if Bool.eqb (sum >? sec x) (dsec >? 0) then sum
           else if dsec >? 0 then Int64.max_int
           else - Int64.max_int in
  mkTime s ns (loc x).

Definition timeBinaryVersionV1 : Z := 1.
Definition timeBinaryVersionV2 : Z := 2.

(** [t.MarshalBinary()]: 15 bytes, or 16 when the zone offset has a
    fraction of a minute. *)
Definition MarshalBinary (x : t) : list Z + goerror :=
  let zone :=
    match loc x with
    | UTC => inl (timeBinaryVersionV1, -1, 0)
    | Zone offset =>
        let '(version, offsetSec) :=
          if negb (Z.rem offset 60 =? 0)
          then (timeBinaryVersionV2, sint 8 (Z.rem offset 60))
          else (timeBinaryVersionV1, 0) in
        let offset := Z.quot offset 60 in
        if (offset <? -32768) || (offset =? -1) || (offset >? 32767)
        then inr ErrTimeMarshal
        else inl (version, sint 16 offset, offsetSec)
    end in
  match zone with
  | inr e => inr e
  | inl (version, offsetMin, offsetSec) =>
      let s := sec x in
      let ns := nsec x in
      let enc :=
        [ version;
          byte_of (Z.shiftr s 56); byte_of (Z.shiftr s 48);
          byte_of (Z.shiftr s 40); byte_of (Z.shiftr s 32);
          byte_of (Z.shiftr s 24); byte_of (Z.shiftr s 16);
          byte_of (Z.shiftr s 8);  byte_of s;
          byte_of (Z.shiftr ns 24); byte_of (Z.shiftr ns 16);
          byte_of (Z.shiftr ns 8);  byte_of ns;
          byte_of (Z.shiftr offsetMin 8); byte_of offsetMin ] in
      inl (if version =? timeBinaryVersionV2
           then enc ++ [byte_of offsetSec] else enc)
  end.

(** [buf[i]] for a slice known to be long enough. *)
Definition at_ (buf : list Z) (i : nat) : Z := nth i buf 0.

(** [t.UnmarshalBinary(data)]. *)
Definition UnmarshalBinary (data : list Z) : t + goerror :=
  match data with
  | [] => inr ErrTimeUnmarshal
  | version :: _ =>
      if negb (version =? timeBinaryVersionV1) && negb (version =? timeBinaryVersionV2)
      then inr ErrTimeUnmarshal
      else
        let wantLen := if version =? timeBinaryVersionV2 then 16%nat else 15%nat in
        if negb (Nat.eqb (length data) wantLen) then inr ErrTimeUnmarshal
        else
          let buf := drop 1 data in
          let s := sint 64 (Z.lor (Z.lor (Z.lor (Z.lor (Z.lor (Z.lor (Z.lor
                     (at_ buf 7)
                     (Z.shiftl (at_ buf 6) 8))
                     (Z.shiftl (at_ buf 5) 16))
                     (Z.shiftl (at_ buf 4) 24))
                     (Z.shiftl (at_ buf 3) 32))
                     (Z.shiftl (at_ buf 2) 40))
                     (Z.shiftl (at_ buf 1) 48))
                     (Z.shiftl (at_ buf 0) 56)) in
          let buf := drop 8 buf in
          let ns := sint 32 (Z.lor (Z.lor (Z.lor
                     (at_ buf 3)
                     (Z.shiftl (at_ buf 2) 8))
                     (Z.shiftl (at_ buf 1) 16))
                     (Z.shiftl (at_ buf 0) 24)) in
          let buf := drop 4 buf in
          let offset := sint 16 (Z.lor (at_ buf 1) (Z.shiftl (at_ buf 0) 8)) * 60 in
          let offset := if version =? timeBinaryVersionV2
                        then offset + at_ buf 2 else offset in
          inl (mkTime s ns (if offset =? -1 * 60 then UTC else Zone offset))
  end.

End GoTime.

(** ** Index entries *)

Record indexEntry : Type := mkEntry { Time : GoTime.t; Offset : Z }.

(** ** Sidecar codec *)

Module Sidecar.

(** The file system as far as the codec sees it: the regular files with
    their contents, the names that cannot be created or renamed onto
    (missing directory, permissions), and how many more bytes the
    device accepts before writes start to fail (full disk, quota). *)
Record disk : Type := mkDisk {
  files  : gmap string (list Z);
  denied : gset string;
  budget : Z
}.

(** [os.Create(name)]: the file exists and is empty afterwards. *)
Definition osCreate (d : disk) (name : string) : disk * option goerror :=
  if decide (name ∈ denied d) then (d, Some ErrIO)
  else (mkDisk (<[name := []]> (files d)) (denied d) (budget d), None).

(** [f.Write(b)] on the handle [os.Create] returned for [name]: the
    bytes the device still accepts are appended. *)
Definition fileWrite (d : disk) (name : string) (b : list Z) : disk * option goerror :=
  let old := default [] (files d !! name) in
  let n := Z.of_nat (length b) in
  if n <=? budget d
  then (mkDisk (<[name := old ++ b]> (files d)) (denied d) (budget d - n), None)
  else (mkDisk (<[name := old ++ take (Z.to_nat (budget d)) b]> (files d))
               (denied d) 0, Some ErrIO).

Definition osRemove (d : disk) (name : string) : disk :=
  mkDisk (delete name (files d)) (denied d) (budget d).

(** [os.Rename(old, new)]: replaces [new] in one step. *)
Definition osRename (d : disk) (old new : string) : disk * option goerror :=
  match files d !! old with
  | None => (d, Some ErrIO)
  | Some content =>
      if decide (new ∈ denied d) then (d, Some ErrIO)
      else (mkDisk (<[new := content]> (delete old (files d))) (denied d) (budget d), None)
  end.

(** [path.Ext]: the suffix from the last dot of the last element of
    the path, scanning from the end. *)
Fixpoint extLen (rev_path : list ascii) (i : nat) : nat :=
  match rev_path with
  | [] => 0%nat
  | c :: rest =>
      if Ascii.eqb c "/"%char then 0%nat
      else if Ascii.eqb c "."%char then S i
      else extLen rest (S i)
  end.

Definition pathExt (p : string) : string :=
  let cs := list_ascii_of_string p in
  string_of_list_ascii (drop (length cs - extLen (rev cs) 0) cs).

Definition indexFileName (filePath : string) : string :=
  let ext := pathExt filePath in
  let cs := list_ascii_of_string filePath in
  (string_of_list_ascii (take (length cs - String.length ext) cs) +:+ ".idx")%string.

Definition header : list Z :=
  [ 83; 73; 68; 88; 1; 0; 0; 0;     (* 'S', 'I', 'D', 'X', 1, 0, 0, 0 *)
    0; 0; 0; 0; 0; 0; 0; 0 ].

(** [binary.Write(f, binary.BigEndian, v)] for an [int64]: the bytes. *)
Definition putInt64 (v : Z) : list Z :=
  [ byte_of (Z.shiftr v 56); byte_of (Z.shiftr v 48);
    byte_of (Z.shiftr v 40); byte_of (Z.shiftr v 32);
    byte_of (Z.shiftr v 24); byte_of (Z.shiftr v 16);
    byte_of (Z.shiftr v 8);  byte_of v ].

(** [binary.BigEndian.Uint64] followed by the conversion to [int64]. *)
Definition getInt64 (b : list Z) : Z :=
  sint 64 (Z.lor (Z.lor (Z.lor (Z.lor (Z.lor (Z.lor (Z.lor
    (GoTime.at_ b 7)
    (Z.shiftl (GoTime.at_ b 6) 8))
    (Z.shiftl (GoTime.at_ b 5) 16))
    (Z.shiftl (GoTime.at_ b 4) 24))
    (Z.shiftl (GoTime.at_ b 3) 32))
    (Z.shiftl (GoTime.at_ b 2) 40))
    (Z.shiftl (GoTime.at_ b 1) 48))
    (Z.shiftl (GoTime.at_ b 0) 56)).

(** The body of the [for _, entry := range idx] loop of [writeIndex].
    Its [err] is declared inside the loop body ([b, err := ...]); the
    value it has when the loop is left is returned here next to the
    disk. *)
Fixpoint writeEntries (d : disk) (tmpFile : string) (idx : list indexEntry)
  : disk * option goerror :=
  match idx with
  | [] => (d, None)
  | entry :: rest =>
      match GoTime.MarshalBinary (Time entry) with
      | inr err => (d, Some err)
      | inl b =>
          let b := if Nat.eqb (length b) 15 then b ++ [0] else b in
          match fileWrite d tmpFile b with
          | (d, Some err) => (d, Some err)
          | (d, None) =>
              match fileWrite d tmpFile (putInt64 (Offset entry)) with
              | (d, Some err) => (d, Some err)
              | (d, None) => writeEntries d tmpFile rest
              end
          end
      end
  end.

Definition writeIndex (d : disk) (segPath : string) (idx : list indexEntry)
  : disk * option goerror :=
  let idxFile := indexFileName segPath in
  let tmpFile := (idxFile +:+ ".tmp")%string in
  match osCreate d tmpFile with
  | (d, Some err) => (d, Some err)
  | (d, None) =>
      (* the function's own [err], nil after a successful [os.Create] *)
      let err : option goerror := None in
      (* the result of writing the header is dropped *)
      let d := fst (fileWrite d tmpFile header) in
      (* the loop assigns to the [err] of its body, not to this one *)
      let d := fst (writeEntries d tmpFile idx) in
      (* index file is broken *)
      match err with
      | Some e => (osRemove d tmpFile, Some e)
      | None =>
          match osRename d tmpFile idxFile with
          | (d, Some e) => (osRemove d tmpFile, Some e)
          | (d, None) => (d, None)
          end
      end
  end.

(** [f.Read(b)] for a 16-byte [b] on a regular file of which [rest]
    is unread: the bytes read, the error, and what stays unread. *)
Definition fileRead (rest : list Z) : list Z * option goerror * list Z :=
  match rest with
  | [] => ([], Some EOF, [])
  | _ => (take 16 rest, None, drop 16 rest)
  end.

(** [binary.Read(f, binary.BigEndian, &entry.Offset)], which reads
    through [io.ReadFull]. *)
Definition binaryReadInt64 (rest : list Z) : (Z + goerror) * list Z :=
  let bs := take 8 rest in
  if Nat.eqb (length bs) 0 then (inr EOF, [])
  else if Nat.ltb (length bs) 8 then (inr ErrUnexpectedEOF, [])
  else (inl (getInt64 bs), drop 8 rest).

(** The record loop of [readIndexFile]: the list collected and the
    value of [err] when the loop is left.  Every round that goes on
    consumes 24 bytes, so [fuel] beyond the length of [rest] is never
    used up. *)
Fixpoint readEntries (fuel : nat) (rest : list Z) (idx : list indexEntry)
  : list indexEntry * option goerror :=
  match fuel with
  | O => (idx, None)
  | S fuel =>
      match fileRead rest with
      | (_, Some err, _) => (idx, Some err)
      | (b, None, rest) =>
          if negb (Nat.eqb (length b) 16) then (idx, None)
          else
            let tm := if GoTime.at_ b 0 =? 1
                      then GoTime.UnmarshalBinary (take 15 b)
                      else GoTime.UnmarshalBinary b in
            match tm with
            | inr err => (idx, Some err)
            | inl tm =>
                match binaryReadInt64 rest with
                | (inr err, _) => (idx, Some err)
                | (inl off, rest) => readEntries fuel rest (idx ++ [mkEntry tm off])
                end
            end
      end
  end.

Definition is_nil_err (err : option goerror) : bool :=
  match err with None => true | Some _ => false end.

Definition err_is (err : option goerror) (e : goerror) : bool :=
  bool_decide (err = Some e).

(** [readIndexFile].  A nil slice and an empty slice are both []. *)
Definition readIndexFile (d : disk) (indexPath : string)
  : list indexEntry * option goerror :=
  match files d !! indexPath with
  | None => ([], Some ErrIO)
  | Some content =>
      (* Load 16 bytes reserved header *)
      match fileRead content with
      | (b, err, rest) =>
          if negb (is_nil_err err) || negb (Nat.eqb (length b) 16)
          then ([], Some ErrIndexIsOld)
          else if negb (GoTime.at_ b 0 =? 83) && negb (GoTime.at_ b 1 =? 73)
                  && negb (GoTime.at_ b 2 =? 68) && negb (GoTime.at_ b 3 =? 88)
          then ([], Some ErrIndexIsOld)
          else
            match readEntries (S (length rest)) rest [] with
            | (idx, err) =>
                if negb (err_is err EOF) && negb (err_is err ErrUnexpectedEOF)
                then ([], err)
                else (idx, None)
            end
      end
  end.

(** [readIndex]; [stat] gives the modification time [os.Stat] reports
    for a file, and nothing for a file that is not there. *)
Definition readIndex (d : disk) (stat : gmap string Z) (segFpath : string)
  : list indexEntry * option goerror :=
  match stat !! segFpath with
  | None => ([], Some ErrIO)
  | Some segModTime =>
      let indexPath := indexFileName segFpath in
      match stat !! indexPath with
      | None => ([], Some ErrIO)
      | Some indexModTime =>
          if indexModTime <? segModTime then ([], Some ErrIndexIsOld)
          else readIndexFile d indexPath
      end
  end.

End Sidecar.

(** ** Time index *)

Module TimeIndex.

(** [type index struct]: the entry lists per path and the set of paths
    a rebuild is running for.  The lock is part of the interleaving
    model further down; the operations here are what one holder of the
    lock does. *)
Record index : Type := mkIndex {
  entries : gmap string (list indexEntry);      (* map<path, []entry> *)
  running : gset string                         (* running jobs *)
}.

Definition Index : index := mkIndex ∅ ∅.

(** [indexCmp]; [int] has 64 bits, so the conversion keeps the value. *)
Definition indexCmp (a b : indexEntry) : Z :=
  Int64.wrap (GoTime.Sub (Time a) (Time b)).

(** [slices.SortStableFunc] of the standard library, given as the
    insertion sort the library runs on short slices: each element in
    turn moves left while it compares less than its left neighbour.
    [sorted_rev] is the sorted part, last element first. *)
Fixpoint insertLeft {A : Type} (cmp : A -> A -> Z) (x : A) (sorted_rev : list A) : list A :=
  match sorted_rev with
  | [] => [x]
  | y :: ys => if cmp x y <? 0 then y :: insertLeft cmp x ys else x :: y :: ys
  end.

Definition SortStableFunc {A : Type} (l : list A) (cmp : A -> A -> Z) : list A :=
  rev (fold_left (fun acc x => insertLeft cmp x acc) l []).

(** The [appendIndex:] block of [IndexPath], run under the lock. *)
Definition appendIndex (i : index) (pathName : string) (lst : list indexEntry) : index :=
  let curList := default [] (entries i !! pathName) in
  let curList := curList ++ lst in
  let curList := SortStableFunc curList indexCmp in
  mkIndex (<[pathName := curList]> (entries i)) (running i).

Definition Update (i : index) (pathName : string) (segmentTime : GoTime.t) (offset : Z)
  : index :=
  let e := match entries i !! pathName with
           | Some e => e
           | None => []
           end in
  let e := e ++ [mkEntry (GoTime.Truncate0 segmentTime) offset] in
  mkIndex (<[pathName := e]> (entries i)) (running i).

(** [entries[n]] for an index known to be in range. *)
Definition at_ (l : list indexEntry) (n : nat) : indexEntry :=
  nth n l (mkEntry (GoTime.mkTime 0 0 GoTime.UTC) 0).

(** The loop of [FindBestOffset] from index [n] on; [rest] is
    [entries[n:]]. *)
Fixpoint findFrom (all : list indexEntry) (start : GoTime.t)
         (n : nat) (rest : list indexEntry) : Z :=
  match rest with
  | [] => 0
  | e :: rest =>
      if GoTime.After (Time e) start then
        if (0 <? n)%nat && negb (Offset e =? 0)
        then Offset (at_ all (n - 1))
        else 0
      else findFrom all start (S n) rest
  end.

Definition FindBestOffset (i : index) (pathName : string) (start : GoTime.t) : Z :=
  match entries i !! pathName with
  | None => 0
  | Some entries =>
      let start := GoTime.Truncate0 start in
      findFrom entries start 0 entries
  end.

(** First loop of [PruneIndex], from [n0] on; [rest] is [idx[n0:]]. *)
Fixpoint pruneN0 (start : GoTime.t) (n0 : nat) (rest : list indexEntry) : nat :=
  match rest with
  | [] => n0
  | e :: rest =>
      if negb (GoTime.Before (Time e) start) then n0
      else pruneN0 start (S n0) rest
  end.

(** Second loop of [PruneIndex], from [n1] on; [rest] is [idx[n1:]]. *)
Fixpoint pruneN1 (n1 : nat) (rest : list indexEntry) : nat :=
  match rest with
  | [] => n1
  | e :: rest => if Offset e =? 0 then n1 else pruneN1 (S n1) rest
  end.

Definition PruneIndex (i : index) (pathName : string) (start : GoTime.t) : index :=
  (* Remove index entries until next restart point *)
  match entries i !! pathName with
  | None => i
  | Some idx =>
      if Nat.eqb (length idx) 0
         || GoTime.Before (Time (at_ idx (length idx - 1))) start
      then i
      else
        let n0 := pruneN0 start 0 idx in
        let n1 := pruneN1 (n0 + 1) (drop (n0 + 1) idx) in
        (* Rebuild list *)
        let idx := take n0 idx ++ drop n1 idx in
        mkIndex (<[pathName := idx]> (entries i)) (running i)
  end.

End TimeIndex.

(** ** Box walker and segment scanner *)

Module Scanner.

(** What decoding the payload of a box yields, as far as the scanner
    reads it: the number of bytes the box's own fields take, and the
    fields of [mp4.Tfhd] and [mp4.Tfdt] it looks at. *)
Record payloadFields : Type := mkPayload {
  fieldBytes : Z;
  TrackID : Z;
  BaseMediaDecodeTimeV1 : Z
}.

(** A box as [mp4.ReadBoxInfo] and [mp4.UnmarshalAny] present it: type,
    offset in the file, size, header size, whether it is an [ftyp]
    listing the QuickTime brand, the decoded payload ([None] when
    decoding fails) and the boxes found in its children region. *)
Inductive box : Type := mkBox {
  btype : string;
  boffset : Z;
  bsize : Z;
  bheaderSize : Z;
  bquicktime : bool;
  bpayload : option payloadFields;
  bchildren : list box
}.

Definition SmallHeaderSize : Z := 8.

Section Walker.

Context {S : Type}.

(** The visitor: it gets the box (for [h.BoxInfo] and
    [h.ReadPayload()]) and [h.Expand], and threads the state its
    closure captures. *)
Variable handler : box -> (S -> S * option goerror) -> S -> S * option goerror.

Section Level.

(** [readBoxStructureFromInternal] for the boxes of this level. *)
Variable fromInternal : box -> bool -> bool -> S -> S * option goerror.

(** [bi.IsQuickTimeCompatible] after [readBoxStructureFromInternal]. *)
Definition quicktimeAfter (b : box) (isRoot qt : bool) : bool :=
  qt || (isRoot && String.eqb (btype b) "ftyp" && bquicktime b).

(** [readBoxStructure]: [bs] are the boxes [mp4.ReadBoxInfo] finds
    one after the other; [len(path) == 0] holds exactly for the
    root call. *)
Fixpoint readBoxStructureLevel (bs : list box) (totalSize : Z) (isRoot qt : bool)
         (s : S) {struct bs} : S * option goerror :=
  if isRoot || (totalSize >=? SmallHeaderSize) then
    match bs with
    | [] => if isRoot then (s, None) else (s, Some ErrBoxUnexpectedEOF)
    | b :: rest =>
        if negb isRoot && (bsize b >? totalSize) then (s, Some ErrBoxTooLarge)
        else
          let totalSize := totalSize - bsize b in
          match fromInternal b isRoot qt s with
          | (s, Some err) => (s, Some err)
          | (s, None) =>
              readBoxStructureLevel rest totalSize isRoot
                                    (quicktimeAfter b isRoot qt) s
          end
    end
  else if negb (totalSize =? 0) && negb qt then (s, Some ErrBoxUnexpectedEOF)
  else (s, None).

End Level.

Fixpoint readBoxStructureFromInternal (b : box) (isRoot qt : bool) (s : S)
         {struct b} : S * option goerror :=
  match b with
  | mkBox ty off size hsize isqt payload children =>
      (* check compatible-brands; the keys box is decoded likewise *)
      if ((isRoot && String.eqb ty "ftyp") || String.eqb ty "keys")
         && negb (bool_decide (is_Some payload))
      then (s, Some ErrPayload)
      else
        let qt := qt || (isRoot && String.eqb ty "ftyp" && isqt) in
        let Expand (s : S) : S * option goerror :=
          match payload with
          | None => (s, Some ErrPayload)
          | Some fields =>
              let childrenOffset := off + hsize + fieldBytes fields in
              let childrenSize := off + size - childrenOffset in
              readBoxStructureLevel readBoxStructureFromInternal
                                    children childrenSize false qt s
          end in
        handler b Expand s
  end.

Definition readBoxStructure (bs : list box) (totalSize : Z) (isRoot qt : bool)
           (s : S) : S * option goerror :=
  readBoxStructureLevel readBoxStructureFromInternal bs totalSize isRoot qt s.

Definition ReadBoxStructure (bs : list box) (s : S) : S * option goerror :=
  readBoxStructure bs 0 true false s.

End Walker.

Record track : Type := mkTrack { ID : Z; TimeScale : Z }.

(** Modelled from the spec: [findInitTrack] is not among the sources at
    hand; the time scale is "looked up by track identifier", and no
    track with the identifier is the failure the scanner tests for. *)
Definition findInitTrack (tracks : list track) (id : Z) : option track :=
  List.find (fun tr => ID tr =? id) tracks.

(** A recording segment: [Fpath] and [Start] of [*Segment], and what
    the file holds: whether it opens, the tracks of its initialization
    ([None] when [segmentFMP4ReadInit] fails) and the boxes that follow. *)
Record Segment : Type := mkSegment {
  Fpath : string;
  Start : GoTime.t;
  opens : bool;
  init : option (list track);
  boxes : list box
}.

(** The variables the visitor of [scanSegment] captures. *)
Record scanState : Type := mkScan {
  moofOffset : Z;
  timeScale : Z;
  index : list indexEntry
}.

Definition Second : Z := 1000000000.

Definition scanHandler (tracks : list track) (start : GoTime.t)
           (b : box) (Expand : scanState -> scanState * option goerror)
           (s : scanState) : scanState * option goerror :=
  if String.eqb (btype b) "moof" then
    Expand (mkScan (sint 64 (boffset b)) (timeScale s) (index s))
  else if String.eqb (btype b) "traf" then
    Expand s
  else if String.eqb (btype b) "tfhd" then
    match bpayload b with
    | None => (s, Some ErrPayload)
    | Some tfhd =>
        match findInitTrack tracks (TrackID tfhd) with
        | None => (s, Some (ErrInvalidTrackID (TrackID tfhd)))
        | Some track => (mkScan (moofOffset s) (TimeScale track) (index s), None)
        end
    end
  else if String.eqb (btype b) "tfdt" then
    match bpayload b with
    | None => (s, Some ErrPayload)
    | Some tfdt =>
        let offset64 := sint 64 (BaseMediaDecodeTimeV1 tfdt) in
        if timeScale s =? 0 then (s, Some PanicDivideByZero)
        else
          let dt := Int64.add
                      (Int64.mul (Z.quot offset64 (timeScale s)) Second)
                      (Z.quot (Int64.mul (Z.rem offset64 (timeScale s)) Second)
                              (timeScale s)) in
          (mkScan (moofOffset s) (timeScale s)
                  (index s ++ [mkEntry (GoTime.Add start dt) (moofOffset s)]), None)
    end
  else (s, None).

Definition scanSegment (seg : Segment) : list indexEntry * option goerror :=
  if negb (opens seg) then ([], Some ErrIO)
  else
    match init seg with
    | None => ([], Some ErrPayload)
    | Some tracks =>
        let start := GoTime.Truncate0 (Start seg) in
        let s := mkScan 0 90000 [mkEntry (GoTime.Truncate0 (Start seg)) 0] in
        match ReadBoxStructure (scanHandler tracks start) (boxes seg) s with
        | (s, err) => (index s, err)
        end
    end.

End Scanner.

(** ** Rebuild of a path: [IndexPath] statement by statement

    Several goroutines run [IndexPath] on the one shared index.  Each
    step below is one statement of the function; a goroutine at
    [i.Lock()] can only step when the lock is free.  What reading the
    sidecar or scanning yields for a segment does not depend on the
    index and is given with the call: [Some lst] for entries to merge,
    [None] for a segment that fails to scan. *)

Module Rebuild.

Import TimeIndex.

Inductive pc : Type :=
  | Entry                                    (* the early returns *)
  | ReadRunning                              (* _, running := i.running[pathName] *)
  | Lock1 (running : bool)                   (* i.Lock() *)
  | TestRunning (running : bool)             (* if running { i.Unlock(); return } *)
  | MarkRunning                              (* i.running[pathName] = struct{}{} *)
  | Placeholder                              (* if _, ok := i.entries[pathName]; !ok {...} *)
  | Unlock1                                  (* i.Unlock() *)
  | Loop (todo : list (option (list indexEntry)))   (* for _, seg := range segments *)
  | Lock2 (lst : list indexEntry) (todo : list (option (list indexEntry)))
  | Merge (lst : list indexEntry) (todo : list (option (list indexEntry)))
  | Unlock2 (todo : list (option (list indexEntry)))
  | DeferLock                                (* deferred: i.Lock() *)
  | DeferDelete                              (* delete(i.running, pathName) *)
  | DeferUnlock                              (* i.Unlock() *)
  | Done.

Record goroutine : Type := mkGo {
  pathName : string;
  formatFMP4 : bool;                                  (* pathConf.RecordFormat *)
  segments : list (option (list indexEntry));         (* FindSegments, with outcomes *)
  at_pc : pc
}.

Definition call (pathName : string) (segments : list (option (list indexEntry)))
  : goroutine := mkGo pathName true segments Entry.

Record state : Type := mkState {
  shared : index;
  mutex : option nat;             (* the goroutine holding the lock *)
  goroutines : list goroutine;
  begun : list nat                (* who passed "index begin", in order *)
}.

Definition goto (st : state) (tid : nat) (g : goroutine) (next : pc) : state :=
  mkState (shared st) (mutex st)
          (<[tid := mkGo (pathName g) (formatFMP4 g) (segments g) next]> (goroutines st))
          (begun st).

Definition with_shared (st : state) (i : index) : state :=
  mkState i (mutex st) (goroutines st) (begun st).

Definition acquire (st : state) (tid : nat) : option state :=
  match mutex st with
  | Some _ => None
  | None => Some (mkState (shared st) (Some tid) (goroutines st) (begun st))
  end.

Definition release (st : state) : state :=
  mkState (shared st) None (goroutines st) (begun st).

Definition log_begin (st : state) (tid : nat) : state :=
  mkState (shared st) (mutex st) (goroutines st) (begun st ++ [tid]).

(** One statement of goroutine [tid]; [None] when it cannot move. *)
Definition step (st : state) (tid : nat) : option state :=
  match goroutines st !! tid with
  | None => None
  | Some g =>
      let i := shared st in
      match at_pc g with
      | Entry =>
          if String.eqb (pathName g) "all_others" || String.eqb (pathName g) "all"
          then Some (goto st tid g Done)
          else if Nat.eqb (length (segments g)) 0 then Some (goto st tid g Done)
          else if negb (formatFMP4 g) then Some (goto st tid g Done)
          else Some (goto st tid g ReadRunning)
      | ReadRunning =>
          Some (goto st tid g (Lock1 (bool_decide (pathName g ∈ running i))))
      | Lock1 r =>
          match acquire st tid with
          | None => None
          | Some st => Some (goto st tid g (TestRunning r))
          end
      | TestRunning r =>
          if r then Some (goto (release st) tid g Done)
          else Some (goto st tid g MarkRunning)
      | MarkRunning =>
          Some (goto (with_shared st (mkIndex (entries i) ({[pathName g]} ∪ running i)))
                     tid g Placeholder)
      | Placeholder =>
          let i := match entries i !! pathName g with
                   | Some _ => i
                   | None => mkIndex (<[pathName g := []]> (entries i)) (running i)
                   end in
          Some (goto (with_shared st i) tid g Unlock1)
      | Unlock1 =>
          Some (goto (log_begin (release st) tid) tid g (Loop (segments g)))
      | Loop [] => Some (goto st tid g DeferLock)
      | Loop (None :: todo) => Some (goto st tid g (Loop todo))
      | Loop (Some lst :: todo) => Some (goto st tid g (Lock2 lst todo))
      | Lock2 lst todo =>
          match acquire st tid with
          | None => None
          | Some st => Some (goto st tid g (Merge lst todo))
          end
      | Merge lst todo =>
          Some (goto (with_shared st (appendIndex i (pathName g) lst)) tid g (Unlock2 todo))
      | Unlock2 todo => Some (goto (release st) tid g (Loop todo))
      | DeferLock =>
          match acquire st tid with
          | None => None
          | Some st => Some (goto st tid g DeferDelete)
          end
      | DeferDelete =>
          Some (goto (with_shared st (mkIndex (entries i) (running i ∖ {[pathName g]})))
                     tid g DeferUnlock)
      | DeferUnlock => Some (goto (release st) tid g Done)
      | Done => None
      end
  end.

(** Run the goroutines in the order the schedule names them. *)
Fixpoint run (st : state) (schedule : list nat) : option state :=
  match schedule with
  | [] => Some st
  | tid :: rest =>
      match step st tid with
      | None => None
      | Some st => run st rest
      end
  end.

Definition start (i : index) (calls : list goroutine) : state :=
  mkState i None calls [].

(** Goroutine [tid] is inside the segment loop of its rebuild. *)
Definition in_pass (st : state) (tid : nat) : bool :=
  match goroutines st !! tid with
  | Some g =>
      match at_pc g with
      | Loop _ | Lock2 _ _ | Merge _ _ | Unlock2 _ => true
      | _ => false
      end
  | None => false
  end.

End Rebuild.

(** ** Rebuild of a path by a single caller *)

Module Indexer.

Import TimeIndex Sidecar Scanner.

(** The body of the segment loop of [IndexPath]. *)
Definition indexSegment (stat : gmap string Z) (pathName : string)
           (st : TimeIndex.index * disk) (seg : Segment) : TimeIndex.index * disk :=
  let '(i, d) := st in
  match readIndex d stat (Fpath seg) with
  | (lst, None) => (appendIndex i pathName lst, d)
  | (_, Some _) =>
      match scanSegment seg with
      | (_, Some _) => (i, d)                       (* failed to scan segment: continue *)
      | (lst, None) =>
          (appendIndex i pathName lst, fst (writeIndex d (Fpath seg) lst))
      end
  end.

(** [IndexPath] when no other goroutine steps in between. *)
Definition IndexPath (stat : gmap string Z) (st : TimeIndex.index * disk) (formatFMP4 : bool)
           (pathName : string) (segments : list Segment) : TimeIndex.index * disk :=
  let '(i, d) := st in
  if String.eqb pathName "all_others" || String.eqb pathName "all" then st
  else if Nat.eqb (length segments) 0 then st
  else if negb formatFMP4 then st
  else if bool_decide (pathName ∈ running i) then st
  else
    let i := mkIndex (entries i) ({[pathName]} ∪ running i) in
    let i := match entries i !! pathName with
             | Some _ => i
             | None => mkIndex (<[pathName := []]> (entries i)) (running i)
             end in
    let '(i, d) := fold_left (indexSegment stat pathName) segments (i, d) in
    (mkIndex (entries i) (running i ∖ {[pathName]}), d).

End Indexer.

(** ** Order of an entry list, and histories of an index *)

Module History.

Import TimeIndex.

(** [a] is not later than [b]. *)
Definition notAfter (a b : indexEntry) : Prop :=
  GoTime.After (Time a) (Time b) = false.

(** No entry is followed, anywhere in the list, by an earlier one. *)
Definition nondecreasing (l : list indexEntry) : Prop :=
  StronglySorted notAfter l.

(** The nanoseconds of a [time.Time] lie within one second. *)
Definition normal (x : GoTime.t) : Prop := 0 <= GoTime.nsec x < 1000000000.

Definition normalE (e : indexEntry) : Prop := normal (Time e).

(** Order by the instant. *)
Definition leN (a b : indexEntry) : Prop :=
  GoTime.nanos (Time a) <= GoTime.nanos (Time b).

(** Every list of the index is sorted by the instant and holds
    normal times only. *)
Definition sorted_index (i : index) : Prop :=
  forall (pathName : string) (l : list indexEntry),
    entries i !! pathName = Some l -> StronglySorted leN l /\ Forall normalE l.

(** The mutations of the index a history is made of: the merge of one
    segment's entries by a rebuild, and the append of one entry by the
    live recorder. *)
Inductive op : Type :=
  | Rebuilt (pathName : string) (lst : list indexEntry)
  | Live (pathName : string) (segmentTime : GoTime.t) (offset : Z).

Definition apply (i : index) (o : op) : index :=
  match o with
  | Rebuilt pathName lst => appendIndex i pathName lst
  | Live pathName segmentTime offset => Update i pathName segmentTime offset
  end.




End History.

(** ** Layout of a sidecar file

    What a sidecar file holds for a list of entries: the header, then
    for each entry the 16-byte slot of its time and the 8 bytes of its
    offset. *)

Module SidecarLayout.

Definition slot (x : GoTime.t) : list Z :=
  match GoTime.MarshalBinary x with
  | inl b => if Nat.eqb (length b) 15 then b ++ [0] else b
  | inr _ => []
  end.

Definition record (e : indexEntry) : list Z :=
  slot (Time e) ++ Sidecar.putInt64 (Offset e).

Definition sidecarBytes (idx : list indexEntry) : list Z :=
  Sidecar.header ++ concat (record <$> idx).

(** The zone offsets [MarshalBinary] accepts. *)
Definition zone_ok (l : GoTime.location) : Prop :=
  match l with
  | GoTime.UTC => True
  | GoTime.Zone offset =>
      -32768 <= Z.quot offset 60 <= 32767 /\ Z.quot offset 60 <> -1
  end.

(** An entry as the Go types and [MarshalBinary] admit it: seconds and
    offset are [int64] values, the nanoseconds lie within a second,
    the zone offset can be encoded. *)
Definition codable (e : indexEntry) : Prop :=
  Int64.in_range (GoTime.sec (Time e))
  /\ History.normal (Time e)
  /\ zone_ok (GoTime.loc (Time e))
  /\ Int64.in_range (Offset e).

(** Equal as [Time.Equal] has it, and the same offset. *)
Definition same_entry (e e' : indexEntry) : Prop :=
  GoTime.Equal (Time e) (Time e') = true /\ Offset e' = Offset e.

End SidecarLayout.

(** ** Segments made of fragments *)

Module Fragments.

Import Scanner.

(** A media fragment as the recorder writes it: a [moof] box holding
    an [mfhd] and one [traf] with a [tfhd] and a [tfdt], followed by
    the [mdat] with the samples. *)
Record fragment : Type := mkFragment {
  fragOffset : Z;          (* where its moof starts in the file *)
  fragTrack : Z;           (* track ID in the tfhd *)
  fragDecodeTime : Z;      (* base media decode time in the tfdt *)
  fragData : Z;            (* size of the mdat *)
  tfhdDecodes : bool;      (* whether the payload of the tfhd decodes *)
  tfdtDecodes : bool       (* whether the payload of the tfdt decodes *)
}.

Definition leaf (ty : string) (off size : Z) (payload : option payloadFields) : box :=
  mkBox ty off size 8 false payload [].

Definition fragmentBoxes (f : fragment) : list box :=
  let o := fragOffset f in
  let tfhd := leaf "tfhd" (o + 32) 16
                   (if tfhdDecodes f then Some (mkPayload 8 (fragTrack f) 0) else None) in
  let tfdt := leaf "tfdt" (o + 48) 20
                   (if tfdtDecodes f then Some (mkPayload 12 0 (fragDecodeTime f)) else None) in
  let traf := mkBox "traf" (o + 24) 44 8 false (Some (mkPayload 0 0 0)) [tfhd; tfdt] in
  let mfhd := leaf "mfhd" (o + 8) 16 (Some (mkPayload 8 0 0)) in
  let moof := mkBox "moof" o 68 8 false (Some (mkPayload 0 0 0)) [mfhd; traf] in
  let mdat := leaf "mdat" (o + 68) (8 + fragData f) (Some (mkPayload 0 0 0)) in
  [moof; mdat].

(** Decode time in units of the time scale, as a duration. *)
Definition elapsed (decodeTime timeScale : Z) : Z :=
  let offset64 := sint 64 decodeTime in
  Int64.add (Int64.mul (Z.quot offset64 timeScale) Second)
            (Z.quot (Int64.mul (Z.rem offset64 timeScale) Second) timeScale).

(** A fragment the scanner gets an entry from: both payloads decode
    and the track is one of the initialization, with a time scale. *)
Definition wellFormed (tracks : list track) (f : fragment) : Prop :=
  tfhdDecodes f = true /\ tfdtDecodes f = true
  /\ exists tr, findInitTrack tracks (fragTrack f) = Some tr /\ TimeScale tr <> 0.

(** A fragment one of whose two payloads fails to decode; when it is
    the [tfdt], the track of the [tfhd] before it resolves. *)
Definition malformed (tracks : list track) (f : fragment) : Prop :=
  tfhdDecodes f = false
  \/ (tfdtDecodes f = false /\ is_Some (findInitTrack tracks (fragTrack f))).

(** The entry of a fragment. *)
Definition fragmentEntry (tracks : list track) (start : GoTime.t) (f : fragment)
  : list indexEntry :=
  match findInitTrack tracks (fragTrack f) with
  | Some tr => [mkEntry (GoTime.Add start (elapsed (fragDecodeTime f) (TimeScale tr)))
                        (sint 64 (fragOffset f))]
  | None => []
  end.

Definition segmentOf (fpath : string) (start : GoTime.t) (tracks : list track)
           (frags : list fragment) (others : list box) : Segment :=
  mkSegment fpath start true (Some tracks) (concat (fragmentBoxes <$> frags) ++ others).

End Fragments.

(** ** Concrete inputs used below *)

Module Inputs.

Import RangeWriter.

(** The bytes [a mod 256, (a+1) mod 256, ...], [n] of them. *)
Definition ramp (a n : nat) : list Z := (fun i => Z.of_nat i mod 256) <$> seq a n.

(** A recording of one segment, for which the muxer writes a buffer of
    100 bytes followed by one of 200 bytes, and nothing more when it is
    flushed. *)
Definition recording : list segment :=
  [mkSegmentData true (Some 0%nat) true [bytes (ramp 0 100); bytes (ramp 100 200)] None].

(** A writer in its second pass, 40 bytes into the part to skip. *)
Definition skipping : writerWrapper := mkWriter emptyCtx 300 40 0 100 199 false true.

Definition t0 : GoTime.t := GoTime.mkTime 63800000000 0 GoTime.UTC.
Definition e0 : indexEntry := mkEntry t0 0.
Definition e1 : indexEntry := mkEntry (GoTime.mkTime 63800000002 0 GoTime.UTC) 4096.
Definition e2 : indexEntry := mkEntry (GoTime.mkTime 63800000004 0 GoTime.UTC) 8192.

(** A sidecar file whose magic is 'S','X','X','X', with one record. *)
Definition forged : list Z :=
  [83; 88; 88; 88; 1; 0; 0; 0; 0; 0; 0; 0; 0; 0; 0; 0] ++ SidecarLayout.record e1.

Definition forgedDisk : Sidecar.disk :=
  Sidecar.mkDisk {[ "/rec/cam/a.idx"%string := forged ]} ∅ 4096.

(** A segment of three fragments of 90 kHz track 1, two seconds
    apart; the [tfhd] of the second one does not decode. *)
Definition tracks1 : list Scanner.track := [Scanner.mkTrack 1 90000].
Definition fragA : Fragments.fragment := Fragments.mkFragment 1024 1 0 4000 true true.
Definition fragB : Fragments.fragment := Fragments.mkFragment 5100 1 180000 4000 false true.
Definition fragC : Fragments.fragment := Fragments.mkFragment 9176 1 360000 4000 true true.

Definition brokenSegment : Scanner.Segment :=
  Fragments.segmentOf "/rec/cam/b.mp4" t0 tracks1 [fragA; fragB; fragC] [].

Definition soundSegment : Scanner.Segment :=
  Fragments.segmentOf "/rec/cam/b.mp4" t0 tracks1 [fragA; fragC] [].

(** An empty disk with room for 4096 bytes. *)
Definition emptyDisk : Sidecar.disk := Sidecar.mkDisk ∅ ∅ 4096.

(** A disk holding the sidecar of [a.mp4] for two entries, on which
    only 20 more bytes can be written. *)
Definition fullDisk : Sidecar.disk :=
  Sidecar.mkDisk {[ "/rec/cam/a.idx"%string := SidecarLayout.sidecarBytes [e0; e1] ]} ∅ 20.

(** A second segment: its sentinel and its first fragment. *)
Definition s1 : indexEntry := mkEntry (GoTime.mkTime 63800000010 0 GoTime.UTC) 0.
Definition f1 : indexEntry := mkEntry (GoTime.mkTime 63800000012 0 GoTime.UTC) 4096.

(** The index of the path [cam] over the two segments. *)
Definition camIndex : TimeIndex.index :=
  TimeIndex.mkIndex {[ "cam"%string := [e0; e1; s1; f1] ]} ∅.

(** Five seconds into the first segment; one second before it. *)
Definition t5 : GoTime.t := GoTime.mkTime 63800000005 0 GoTime.UTC.
Definition tBefore : GoTime.t := GoTime.mkTime 63799999999 0 GoTime.UTC.


(** Two rebuilds of the path [cam], one segment each, called at the
    same time, and an order in which their statements run. *)
Definition twoCalls : list Rebuild.goroutine :=
  [Rebuild.call "cam" [Some [e0; e1]]; Rebuild.call "cam" [Some [e0; e1]]].

Definition schedule : list nat :=
  [0; 0; 1; 1; 0; 0; 0; 0; 0; 1; 1; 1; 1; 1]%nat.

End Inputs.

(** ** Playback requests *)

Module Playback.

Import RangeWriter.

(** [onHead] from the point where the writer exists. *)
Definition onHead (c : ginContext) (recordFormatFMP4 : bool)
           (segments : list segment) (flushed : list slice) : muxResult :=
  let ww := mkWriter c 0 0 0 0 0 true false in
  (* Always act as if pass1 == true *)
  match seekAndMux recordFormatFMP4 segments flushed ww with
  | MuxPanicked => MuxPanicked
  | Finished err ww =>
      if handleError err then Finished err ww
      else
        let c := ctxHeader (ctx ww) AcceptRangesBytes in
        let c := ctxHeader c ContentTypeMp4 in
        let c := ctxHeader c (ContentLength (length ww)) in
        Finished None (set_ctx ww c)
  end.

(** The buffers a run of [seekAndMux] hands to the writer when no
    [Write] fails, and the error the run then ends with: the parts of
    the segments up to the first one that does not open, has no
    initialization, cannot be concatenated or whose part reader fails,
    and after a regular end what [flush] writes. *)
Fixpoint planRest (segments : list segment) (flushed : list slice)
  : list slice * option goerror :=
  match segments with
  | [] => (flushed, None)
  | seg :: rest =>
      if negb (segOpens seg) then ([], Some ErrIO)
      else
        match segInit seg with
        | None => ([], Some ErrPayload)
        | Some _ =>
            if negb (segConcat seg) then (flushed, None)
            else
              match segPartsErr seg with
              | Some err => (segParts seg, Some err)
              | None =>
                  let '(bufs, err) := planRest rest flushed in
                  (segParts seg ++ bufs, err)
              end
        end
  end.

Definition plan (segments : list segment) (flushed : list slice)
  : option (list slice * option goerror) :=
  match segments with
  | [] => None
  | first :: rest =>
      if negb (segOpens first) then Some ([], Some ErrIO)
      else
        match segInit first with
        | None => Some ([], Some ErrPayload)
        | Some _ =>
            match segPartsErr first with
            | Some err => Some (segParts first, Some err)
            | None =>
                let '(bufs, err) := planRest rest flushed in
                Some (segParts first ++ bufs, err)
            end
        end
  end.

(** The bytes of a sequence of buffers, and how many they are. *)
Definition stream (bufs : list slice) : list Z := concat (elems <$> bufs).

Definition streamLen (bufs : list slice) : Z := Z.of_nat (List.length (stream bufs)).






End Playback.

(** ** The [Range] header *)

Module RangeHeader.

Import RangeWriter.

(** [strings.IndexRune(s, c)] for a rune below 128: the index of the
    first byte equal to [c], or -1. *)
Fixpoint indexFrom (cs : list ascii) (c : ascii) (i : Z) : Z :=
  match cs with
  | [] => -1
  | x :: cs => if Ascii.eqb x c then i else indexFrom cs c (i + 1)
  end.

Definition IndexRune (s : string) (c : ascii) : Z :=
  indexFrom (list_ascii_of_string s) c 0.

(** [s[i:j]] and [s[i:]] for indices in range. *)
Definition substr (s : string) (i j : Z) : string :=
  string_of_list_ascii (take (Z.to_nat (j - i)) (drop (Z.to_nat i) (list_ascii_of_string s))).

Definition substrFrom (s : string) (i : Z) : string :=
  string_of_list_ascii (drop (Z.to_nat i) (list_ascii_of_string s)).

(** The value of a decimal digit, if it is one. *)
Definition digit (c : ascii) : option Z :=
  let n := Z.of_nat (nat_of_ascii c) - 48 in
  if (0 <=? n) && (n <=? 9) then Some n else None.

Fixpoint digits (cs : list ascii) (acc : Z) : option Z :=
  match cs with
  | [] => Some acc
  | c :: cs =>
      match digit c with
      | None => None
      | Some d => digits cs (acc * 10 + d)
      end
  end.

(** [strconv.Atoi]: an optional sign and at least one decimal digit,
    with a value that fits [int]; [None] stands for its two errors
    (syntax, range), which [onGet] does not tell apart. *)
Definition Atoi (s : string) : option Z :=
  match list_ascii_of_string s with
  | [] => None
  | c :: rest =>
      let '(neg, body) :=
        if Ascii.eqb c "-" then (true, rest)
        else if Ascii.eqb c "+" then (false, rest)
        else (false, c :: rest) in
      match body with
      | [] => None
      | _ =>
          match digits body 0 with
          | None => None
          | Some n =>
              let v := if neg then - n else n in
              if (Int64.min_int <=? v) && (v <=? Int64.max_int) then Some v else None
          end
      end
  end.

(** The part of [onGet] that reads the [Range] header
    ([Range: bytes=int-[int]]) into the writer's [offset], [offset2]
    and [pass1], given as the case of [rangeHeader] they amount to. *)
Definition parseRange (range_hdr : string) : rangeHeader :=
  let n1 := IndexRune range_hdr "=" in
  let n2 := IndexRune range_hdr "-" in
  if (n1 >=? 0) && (n2 >? n1) then
    match Atoi (substr range_hdr (n1 + 1) n2) with
    | None => NoRange
    | Some a =>
        if 0 <? Z.of_nat (String.length (substrFrom range_hdr (n2 + 1))) then
          match Atoi (substrFrom range_hdr (n2 + 1)) with
          | None => FromBadEnd a
          | Some b => Window a b
          end
        else From a
    end
  else NoRange.

End RangeHeader.

(** ** Name of the sidecar file *)

(** A character of a file name's extension: neither a dot nor a
    slash. *)
Definition plain (c : ascii) : Prop := c <> "."%char /\ c <> "/"%char.

(** ** Writing the sidecar of a recorded segment *)

Module IndexWriter.

Import TimeIndex Sidecar.

(** First loop of [WriteIndex], from [n0] on; [rest] is
    [entries[n0:]].  The result is the value of [n0] after the loop. *)
Fixpoint writeN0 (a : GoTime.t) (n0 : nat) (rest : list indexEntry) : nat :=
  match rest with
  | [] => n0
  | e :: rest =>
      if GoTime.Equal (Time e) a then n0
      else if GoTime.After (Time e) a then
        if Nat.eqb n0 0 || (Offset e =? 0) then n0
        else (n0 - 1)%nat
      else writeN0 a (S n0) rest
  end.

(** Second loop of [WriteIndex], from [n1] on; [rest] is
    [entries[n1:]]. *)
Fixpoint writeN1 (b : GoTime.t) (n1 : nat) (rest : list indexEntry) : nat :=
  match rest with
  | [] => n1
  | e :: rest =>
      if negb (GoTime.Before (Time e) b) then n1
      else writeN1 b (S n1) rest
  end.

(** [WriteIndex]: the disk afterwards.  The error of [writeIndex] is
    logged and dropped.  [entries[n0:n1]] is taken with
    [n0 < n1 <= len(entries)]. *)
Definition WriteIndex (i : index) (d : disk) (pathName segPath : string)
           (a b : GoTime.t) : disk :=
  match entries i !! pathName with
  | None => d
  | Some entries =>
      (* find the index list and pass to index writer *)
      let n0 := writeN0 a 0 entries in
      let n1 := writeN1 b n0 (drop n0 entries) in
      if (length entries <=? n0)%nat || (n1 <=? n0)%nat then d
      else fst (writeIndex d segPath (take (n1 - n0) (drop n0 entries)))
  end.

End IndexWriter.

(** Induction on a box with the children taken as a whole. *)
Fixpoint box_nested (Q : Scanner.box -> Prop)
         (step : forall ty off size hsize isqt payload children,
                   Forall Q children ->
                   Q (Scanner.mkBox ty off size hsize isqt payload children))
         (b : Scanner.box) {struct b} : Q b :=
  match b with
  | Scanner.mkBox ty off size hsize isqt payload children =>
      step ty off size hsize isqt payload children
           ((fix all (l : list Scanner.box) : Forall Q l :=
               match l with
               | [] => @List.Forall_nil _ Q
               | c :: l => @List.Forall_cons _ Q c l (box_nested Q step c) (all l)
               end) children)
  end.

(** What the scan of a segment of well-formed fragments yields: the
    sentinel and the entry of each fragment. *)
Definition scannedEntries (tracks : list Scanner.track) (start : GoTime.t)
           (frags : list Fragments.fragment) : list indexEntry :=
  mkEntry (GoTime.Truncate0 start) 0
    :: concat (Fragments.fragmentEntry tracks (GoTime.Truncate0 start) <$> frags).

(** ** Lock discipline of a rebuild *)

Module Locking.

Import TimeIndex Rebuild.

(** The statements of [IndexPath] that run between an [i.Lock()] and
    the [i.Unlock()] that follows it. *)
Definition holds_lock (p : pc) : bool :=
  match p with
  | TestRunning _ | MarkRunning | Placeholder | Unlock1
  | Merge _ _ | Unlock2 _ | DeferDelete | DeferUnlock => true
  | _ => false
  end.

(** The lock is held by a goroutine exactly when that goroutine is at
    such a statement. *)
Definition lock_consistent (st : state) : Prop :=
  forall (tid : nat) (g : goroutine),
    goroutines st !! tid = Some g ->
    (holds_lock (at_pc g) = true <-> mutex st = Some tid).

(** What a rebuild running alone makes of the index: the placeholder
    for the path, then the merge of each segment that yields entries. *)
Definition merged (i : index) (pathName : string)
           (segments : list (option (list indexEntry))) : index :=
  fold_left (fun i seg => match seg with
                          | Some lst => appendIndex i pathName lst
                          | None => i
                          end)
            segments
            (match entries i !! pathName with
             | Some _ => i
             | None => mkIndex (<[pathName := []]> (entries i)) (running i)
             end).

End Locking.

(** ** Re-index request *)

Module ReIndex.

Import TimeIndex.

(** [onReIndex]: the index afterwards, whether [IndexPath] is started
    for the path, and the status written; [pathConf] is what
    [safeFindPathConf] finds.  The capacity the new slice is made with
    does not show in the list. *)
Definition onReIndex {PathConf : Type} (i : index) (pathName : string)
           (pathConf : option PathConf) : index * bool * option Z :=
  if bool_decide (pathName ∈ running i) then (i, false, None)
  else
    let i := mkIndex (<[pathName := []]> (entries i)) (running i) in
    match pathConf with
    | None => (i, false, None)
    | Some _ => (i, true, Some 202)      (* http.StatusAccepted *)
    end.

End ReIndex.

(** ** Cleaner *)

Module Cleaner.

Record CleanerEntry : Type := mkCleanerEntry {
  Path : string;
  Name : string;
  FormatFMP4 : bool;
  DeleteAfter : Z                  (* time.Duration *)
}.

(** The interval [run] computes before it starts to wait. *)
Definition interval (Entries : list CleanerEntry) : Z :=
  fold_left (fun interval e =>
               if interval >? Z.quot (DeleteAfter e) 2
               then Z.quot (DeleteAfter e) 2
               else interval)
            Entries (30 * 60 * Scanner.Second).

End Cleaner.

(** ** More concrete inputs *)

Module MoreInputs.

Import Inputs.

(** A disk on which the sidecar of [a.mp4] exists and cannot be
    replaced. *)
Definition readOnlyDisk : Sidecar.disk :=
  Sidecar.mkDisk {[ "/rec/cam/a.idx"%string := SidecarLayout.sidecarBytes [e0; e1] ]}
                 {[ "/rec/cam/a.idx"%string ]} 4096.

(** Sidecars of [a.mp4] that end early: three bytes into the time of a
    third record; three bytes into the offset of the second record;
    and one whose second record starts with the byte 9. *)
Definition cutInTime : Sidecar.disk :=
  Sidecar.mkDisk
    {[ "/rec/cam/a.idx"%string := SidecarLayout.sidecarBytes [e0; e1] ++ [1; 0; 0] ]} ∅ 4096.

Definition cutInOffset : Sidecar.disk :=
  Sidecar.mkDisk
    {[ "/rec/cam/a.idx"%string :=
         SidecarLayout.sidecarBytes [e0] ++ SidecarLayout.slot (Time e1) ++ [0; 0; 0] ]}
    ∅ 4096.

Definition unknownVersion : Sidecar.disk :=
  Sidecar.mkDisk
    {[ "/rec/cam/a.idx"%string := SidecarLayout.sidecarBytes [e0] ++ 9 :: repeat 0 23 ]}
    ∅ 4096.

(** Modification times: the sidecar of [a.mp4] is newer than the
    segment. *)
Definition freshStat : gmap string Z :=
  {[ "/rec/cam/a.mp4"%string := 10; "/rec/cam/a.idx"%string := 20 ]}.

Definition segmentA : Scanner.Segment :=
  Scanner.mkSegment "/rec/cam/a.mp4" t0 true (Some tracks1) [].

(** The index of the path [cam] over one segment of three entries, and
    a time between the last two. *)
Definition camIndex3 : TimeIndex.index :=
  TimeIndex.mkIndex {[ "cam"%string := [e0; e1; e2] ]} ∅.

Definition t3 : GoTime.t := GoTime.mkTime 63800000003 0 GoTime.UTC.
Definition t20 : GoTime.t := GoTime.mkTime 63800000020 0 GoTime.UTC.

(** A fragment of track 7, which the initialization does not list. *)
Definition fragU : Fragments.fragment := Fragments.mkFragment 5100 7 180000 4000 true true.

End MoreInputs.

(** * Properties *)

(** ** Machine integers *)

Lemma sint_id (bits z : Z) :
  0 < bits -> - 2 ^ (bits - 1) <= z < 2 ^ (bits - 1) -> sint bits z = z.
Proof.
  intros Hb Hz. unfold sint.
  assert (He : 2 ^ bits = 2 * 2 ^ (bits - 1)).
  { replace bits with (Z.succ (bits - 1)) at 1 by lia. apply Z.pow_succ_r. lia. }
  rewrite He. rewrite Z.mod_small; lia.
Qed.

Lemma wrap_id (z : Z) : Int64.in_range z -> Int64.wrap z = z.
Proof.
  unfold Int64.in_range, Int64.min_int, Int64.max_int, Int64.wrap.
  intros Hz. apply sint_id; [lia|]. change (64 - 1) with 63. lia.
Qed.

(** Subtracting and adding back gives the minuend, overflow or not. *)
Lemma add_sub_cancel (a b : Z) : Int64.add a (Int64.sub b a) = Int64.wrap b.
Proof.
  unfold Int64.add, Int64.sub, Int64.wrap, sint. f_equal.
  replace (a + ((b - a + 2 ^ (64 - 1)) mod 2 ^ 64 - 2 ^ (64 - 1)) + 2 ^ (64 - 1))
    with (a + (b - a + 2 ^ (64 - 1)) mod 2 ^ 64) by lia.
  rewrite Zplus_mod_idemp_r. f_equal. lia.
Qed.

(** ** Range response writer *)

Section RangeWriterFacts.

Import RangeWriter.

Lemma ctxWrite_error (c c' : ginContext) (p : slice) (n : Z) (e : goerror) :
  ctxWrite c p = (n, Some e, c') -> e = ErrNet.
Proof.
  unfold ctxWrite. destruct (connBroken c); intros H; inversion H; reflexivity.
Qed.

Lemma ensureHeaders_fields (w : writerWrapper) :
  skipped (ensureHeaders w) = skipped w /\ offset (ensureHeaders w) = offset w
  /\ sent (ensureHeaders w) = sent w /\ offset2 (ensureHeaders w) = offset2 w.
Proof. unfold ensureHeaders. destruct (written w); repeat split. Qed.

(** C10: [Write] never returns [ErrFatal]: in the branch that skips
    part of a buffer, [skipped] becomes [offset] exactly, so the test
    [skipped > offset] guarding the fatal return is false. *)
Theorem Write_never_ErrFatal (w : writerWrapper) (p : slice) :
  Int64.in_range (offset w) ->
  forall n err w',
    Write w p = Returned n err w' ->
    err <> Some ErrFatal
    /\ (pass1 w = false -> skipped w < offset w ->
        Int64.add (skipped w) (len p) > offset w ->
        skipped w' = offset w).
Proof.
  intros Hoff n err w'. unfold Write.
  destruct (pass1 w) eqn:Hp1.
  { intros H; inversion H; subst. split; [congruence | congruence]. }
  destruct (skipped w >=? offset w) eqn:Hge.
  { apply Z.geb_le in Hge.
    set (w1 := ensureHeaders w).
    destruct (if Int64.add (Int64.add (sent w1) (len p)) 1 >? offset2 w1
              then slice_to p (Int64.sub (Int64.add (offset2 w1) 1) (sent w1))
              else Some p) as [q|]; [|discriminate].
    destruct (ctxWrite (ctx w1) q) as [[m [e|]] c] eqn:Hw.
    - apply ctxWrite_error in Hw. subst e.
      intros H; inversion H; subst. split; [congruence | intros; lia].
    - intros H; inversion H; subst. split.
      + clear H. destruct (_ >=? _); congruence.
      + intros; lia. }
  destruct (Int64.add (skipped w) (len p) <=? offset w) eqn:Hle.
  { apply Z.leb_le in Hle.
    intros H; inversion H; subst. split; [congruence | intros; lia]. }
  cbn [skipped set_skipped offset].
  rewrite add_sub_cancel, (wrap_id _ Hoff).
  destruct (offset w >? offset w) eqn:Hgt; [lia|].
  destruct (slice_from p (Int64.sub (offset w) (skipped w))) as [tail|]; [|discriminate].
  match goal with |- context [ctxWrite ?c tail] =>
    destruct (ctxWrite c tail) as [[m e] c'] eqn:Hw end.
  intros H; inversion H; subst. split.
  - destruct err as [e|]; [|congruence].
    apply ctxWrite_error in Hw. subst e. congruence.
  - intros _ _ _. cbn.
    destruct (ensureHeaders_fields (set_skipped w (offset w))) as (Hs & _).
    rewrite Hs. reflexivity.
Qed.

End RangeWriterFacts.

Section RangeWriterExamples.

Import RangeWriter Inputs.

Lemma Write_never_ErrFatal_witness :
  Int64.in_range (offset skipping)
  /\ forall n err w',
      Write skipping (bytes (ramp 40 100)) = Returned n err w' ->
      err <> Some ErrFatal
      /\ (pass1 skipping = false -> skipping.(skipped) < skipping.(offset) ->
          Int64.add (skipped skipping) (len (bytes (ramp 40 100))) > offset skipping ->
          skipped w' = offset skipping).
Proof.
  split.
  - vm_compute. split; intros X; discriminate X.
  - apply (Write_never_ErrFatal skipping (bytes (ramp 40 100))).
    vm_compute. split; intros X; discriminate X.
Defined.

(** C1 (the code departs from the claim): for the window [100,199] of a
    300-byte recording the handler announces [bytes 100-199/300] and
    then delivers the 200 bytes [100,300) of the unranged body, not
    the 100 bytes [100,200): [sent] counts from the start of the
    window while the bound it is clamped to, [offset2], counts from
    the start of the body. *)
Theorem range_window_delivers_past_offset2 :
  exists full : list Z,
    delivered (onGet emptyCtx NoRange true recording []) = Some full
    /\ full = ramp 0 300
    /\ (exists w, onGet emptyCtx (Window 100 199) true recording [] = Finished (Some EOF) w
                  /\ respHeaders (ctx w)
                     = [AcceptRangesBytes; ContentTypeMp4; ContentRange 100 199 300])
    /\ delivered (onGet emptyCtx (Window 100 199) true recording []) = Some (drop 100 full)
    /\ delivered (onGet emptyCtx (Window 100 199) true recording [])
       <> Some (take 100 (drop 100 full)).
Proof.
  exists (ramp 0 300). split; [vm_compute; reflexivity|]. split; [reflexivity|].
  split; [eexists; split; vm_compute; reflexivity|].
  split; [vm_compute; reflexivity|].
  vm_compute. intros X. discriminate X.
Qed.

End RangeWriterExamples.

(** ** Sidecar codec: two departures of the code *)

Section SidecarExamples.

Import Sidecar Inputs.

(** C2 (the code departs from the claim): a sidecar whose magic is
    'S','X','X','X' is read without error, and its record is returned:
    the test joins the four comparisons with [&&], so one matching
    byte is enough. *)
Theorem readIndexFile_accepts_wrong_magic :
  take 4 forged <> [83; 73; 68; 88]
  /\ readIndexFile forgedDisk "/rec/cam/a.idx" = ([e1], None).
Proof.
  split; [intros X; discriminate X | vm_compute; reflexivity].
Qed.

(** C5 (the code departs from the claim): on a disk that takes 20 more
    bytes, writing three entries fails in the first record; the loop
    sees the error, [writeIndex] does not: it returns no error and has
    renamed the truncated temporary file over the sidecar that was
    there. *)
Theorem writeIndex_replaces_sidecar_after_write_error :
  let idxFile := "/rec/cam/a.idx"%string in
  let tmpFile := "/rec/cam/a.idx.tmp"%string in
  exists d1 d2 d',
    osCreate fullDisk tmpFile = (d1, None)
    /\ fileWrite d1 tmpFile header = (d2, None)
    /\ snd (writeEntries d2 tmpFile [e0; e1; e2]) = Some ErrIO
    /\ writeIndex fullDisk "/rec/cam/a.mp4" [e0; e1; e2] = (d', None)
    /\ files fullDisk !! idxFile = Some (SidecarLayout.sidecarBytes [e0; e1])
    /\ files d' !! idxFile = Some (take 20 (SidecarLayout.sidecarBytes [e0; e1; e2]))
    /\ files d' !! tmpFile = None.
Proof.
  cbv zeta. eexists _, _, _.
  split; [reflexivity|]. split; [reflexivity|].
  split; [vm_compute; reflexivity|].
  split; [reflexivity|].
  split; [vm_compute; reflexivity|].
  split; vm_compute; reflexivity.
Qed.

End SidecarExamples.

(** ** Concurrent rebuilds *)

Section RebuildExamples.

Import TimeIndex Rebuild Inputs.

(** C4 (the code departs from the claim): [IndexPath] reads the running
    mark before it takes the lock.  Two calls for the same path that
    both read the mark before either sets it both go on: both are in
    the segment loop at the same time, and run to the end they have
    merged the segment twice. *)
Theorem two_rebuilds_of_one_path_both_scan :
  (exists st,
      run (start Index twoCalls) schedule = Some st
      /\ begun st = [0; 1]%nat
      /\ in_pass st 0 = true /\ in_pass st 1 = true)
  /\ (exists st,
      run (start Index twoCalls)
          (schedule ++ [0; 0; 0; 0; 1; 1; 1; 1; 0; 0; 0; 0; 1; 1; 1; 1]%nat) = Some st
      /\ at_pc <$> goroutines st = [Done; Done]
      /\ entries (shared st) !! "cam"%string = Some [e0; e0; e1; e1]).
Proof.
  split; eexists; (split; [vm_compute; reflexivity|]);
    repeat split; vm_compute; reflexivity.
Qed.

End RebuildExamples.

(** ** Seek hint and pruning *)

Section LookupFacts.

Import TimeIndex History Inputs.

Lemma at_lookup (l : list indexEntry) (n : nat) :
  Offset (at_ l n) = from_option Offset 0 (l !! n).
Proof.
  unfold at_. rewrite nth_lookup. destruct (l !! n); reflexivity.
Qed.

Lemma findFrom_list_find (all : list indexEntry) (start : GoTime.t)
      (rest : list indexEntry) (n : nat) :
  findFrom all start n rest =
  match list_find (fun e => GoTime.After (Time e) start = true) rest with
  | Some (k, e) =>
      if bool_decide ((0 < n + k)%nat /\ Offset e <> 0)
      then from_option Offset 0 (all !! (n + k - 1)%nat) else 0
  | None => 0
  end.
Proof.
  revert n. induction rest as [|e rest IH]; intros n; [reflexivity|].
  cbn [findFrom list_find]. destruct (GoTime.After (Time e) start) eqn:Ha.
  - rewrite decide_True by reflexivity. cbn [fmap option_fmap option_map].
    rewrite Nat.add_0_r, at_lookup.
    replace ((0 <? n)%nat && negb (Offset e =? 0))
      with (bool_decide ((0 < n)%nat /\ Offset e <> 0)); [reflexivity|].
    destruct (Nat.ltb_spec 0 n), (Z.eqb_spec (Offset e) 0); cbn [andb negb];
      (apply bool_decide_eq_true_2 || apply bool_decide_eq_false_2); try tauto; lia.
  - rewrite decide_False by congruence. rewrite IH.
    destruct (list_find _ rest) as [[k x]|];
      cbn [fmap option_fmap option_map prod_map id fst snd]; [|reflexivity].
    replace (S n + k)%nat with (n + S k)%nat by lia. reflexivity.
Qed.

(** C3, as the code has it: [FindBestOffset] finds the first entry
    strictly after [start]; when there is one, it is not the first
    entry of the list and its own offset is not the sentinel 0, the
    result is the offset of the entry before it (0 when that one is a
    sentinel); in every other case, an unindexed path included, the
    result is 0. *)
Theorem FindBestOffset_spec (i : index) (pathName : string) (start : GoTime.t) :
  FindBestOffset i pathName start =
  let l := default [] (entries i !! pathName) in
  match list_find (fun e => GoTime.After (Time e) start = true) l with
  | Some (n, e) =>
      if bool_decide ((0 < n)%nat /\ Offset e <> 0)
      then from_option Offset 0 (l !! (n - 1)%nat) else 0
  | None => 0
  end.
Proof.
  unfold FindBestOffset, GoTime.Truncate0.
  destruct (entries i !! pathName) as [l|]; cbn; [|reflexivity].
  rewrite (findFrom_list_find l start l 0). reflexivity.
Qed.

(** C3, as stated, fails: the first entry after [t5] is the sentinel of
    the second segment, the entry before it has the offset 4096, and
    the result is 0. *)
Lemma FindBestOffset_ignores_preceding_offset :
  let l := [e0; e1; s1; f1] in
  nondecreasing l
  /\ entries camIndex !! "cam"%string = Some l
  /\ list_find (fun e => GoTime.After (Time e) t5 = true) l = Some (2%nat, s1)
  /\ l !! 1%nat = Some e1 /\ Offset e1 = 4096
  /\ FindBestOffset camIndex "cam" t5 = 0
  /\ FindBestOffset camIndex "cam" t5 <> Offset e1.
Proof.
  cbv zeta. split; [repeat constructor|].
  split; [vm_compute; reflexivity|].
  split; [vm_compute; reflexivity|].
  split; [reflexivity|]. split; [reflexivity|].
  split; [vm_compute; reflexivity|].
  vm_compute. intros X. discriminate X.
Qed.

Lemma pruneN0_list_find (start : GoTime.t) (rest : list indexEntry) (n : nat) :
  pruneN0 start n rest =
  match list_find (fun e => GoTime.Before (Time e) start = false) rest with
  | Some (k, _) => (n + k)%nat
  | None => (n + length rest)%nat
  end.
Proof.
  revert n. induction rest as [|e rest IH]; intros n; cbn [pruneN0 list_find length].
  - lia.
  - destruct (GoTime.Before (Time e) start) eqn:Hb; cbn [negb].
    + rewrite decide_False by congruence. rewrite IH.
      destruct (list_find _ rest) as [[k x]|];
        cbn [fmap option_fmap option_map prod_map id fst snd]; lia.
    + rewrite decide_True by reflexivity. cbn. lia.
Qed.

Lemma pruneN1_list_find (rest : list indexEntry) (n : nat) :
  pruneN1 n rest =
  match list_find (fun e => Offset e = 0) rest with
  | Some (k, _) => (n + k)%nat
  | None => (n + length rest)%nat
  end.
Proof.
  revert n. induction rest as [|e rest IH]; intros n; cbn [pruneN1 list_find length].
  - lia.
  - destruct (Z.eqb_spec (Offset e) 0) as [Hz|Hz].
    + rewrite decide_True by assumption. cbn. lia.
    + rewrite decide_False by assumption. rewrite IH.
      destruct (list_find _ rest) as [[k x]|];
        cbn [fmap option_fmap option_map prod_map id fst snd]; lia.
Qed.

(** C8, as the code has it: [PruneIndex] leaves the index as it is
    exactly when the path is unindexed, its list is empty, or the last
    entry of the list is before the cut.  Otherwise, with [n0] the
    index of the first entry at or after the cut and [n1] the index of
    the first sentinel after [n0] (the length of the list when there
    is none), the new list is the old one without the entries
    [n0, n1), and the index has changed. *)
Theorem PruneIndex_spec (i : index) (pathName : string) (cut : GoTime.t) :
  match entries i !! pathName with
  | None => PruneIndex i pathName cut = i
  | Some l =>
      match last l with
      | None => PruneIndex i pathName cut = i
      | Some z =>
          if GoTime.Before (Time z) cut then PruneIndex i pathName cut = i
          else
            exists (n0 n1 : nat) (x : indexEntry),
              list_find (fun e => GoTime.Before (Time e) cut = false) l = Some (n0, x)
              /\ n1 = match list_find (fun e => Offset e = 0) (drop (S n0) l) with
                      | Some (k, _) => (S n0 + k)%nat
                      | None => length l
                      end
              /\ PruneIndex i pathName cut
                 = mkIndex (<[pathName := take n0 l ++ drop n1 l]> (entries i)) (running i)
              /\ PruneIndex i pathName cut <> i
      end
  end.
Proof.
  unfold PruneIndex. destruct (entries i !! pathName) as [l|] eqn:Hl; [|reflexivity].
  destruct (last l) as [z|] eqn:Hlast.
  2:{ apply last_None in Hlast. subst l. reflexivity. }
  assert (Hne : Nat.eqb (length l) 0 = false).
  { apply Nat.eqb_neq. intros H0. apply nil_length_inv in H0. subst l. discriminate Hlast. }
  assert (Hz : at_ l (length l - 1) = z).
  { unfold at_. rewrite nth_lookup. rewrite last_lookup in Hlast.
    replace (length l - 1)%nat with (Nat.pred (length l)) by lia.
    rewrite Hlast. reflexivity. }
  rewrite Hne, Hz. cbn [orb].
  destruct (GoTime.Before (Time z) cut) eqn:Hb; [reflexivity|].
  assert (Hin : z ∈ l).
  { rewrite last_lookup in Hlast. eapply list_elem_of_lookup_2, Hlast. }
  destruct (list_find_elem_of (fun e => GoTime.Before (Time e) cut = false) l z Hin Hb)
    as [[n0 x] Hfind].
  pose proof Hfind as Hspec. apply list_find_Some in Hspec.
  destruct Hspec as (Hx & _ & _). apply lookup_lt_Some in Hx.
  rewrite pruneN0_list_find, Hfind, pruneN1_list_find. cbn [Nat.add].
  replace (n0 + 1)%nat with (S n0) by lia.
  set (n1 := match list_find (fun e => Offset e = 0) (drop (S n0) l) with
             | Some (k, _) => (S n0 + k)%nat
             | None => (S n0 + length (drop (S n0) l))%nat
             end).
  assert (Hn1 : n1 = match list_find (fun e => Offset e = 0) (drop (S n0) l) with
                     | Some (k, _) => (S n0 + k)%nat
                     | None => length l
                     end).
  { subst n1. destruct (list_find _ (drop (S n0) l)) as [[k y]|]; [reflexivity|].
    rewrite length_drop. lia. }
  assert (Hlt : (n0 < n1)%nat).
  { rewrite Hn1. destruct (list_find _ (drop (S n0) l)) as [[k y]|]; lia. }
  exists n0, n1, x. repeat split; [exact Hn1|].
  intros Heq. apply (f_equal (fun j => entries j !! pathName)) in Heq.
  cbn in Heq. rewrite lookup_insert_eq, Hl in Heq. inversion Heq as [Hlen].
  apply (f_equal length) in Hlen.
  rewrite length_app, length_take, length_drop in Hlen. lia.
Qed.

(** C8, as stated, fails: every entry is at or after the cut, and the
    first segment's entries are removed. *)
Lemma PruneIndex_not_noop_when_all_after_cut :
  Forall (fun e => GoTime.Before (Time e) tBefore = false) [e0; e1; s1; f1]
  /\ entries camIndex !! "cam"%string = Some [e0; e1; s1; f1]
  /\ entries (PruneIndex camIndex "cam" tBefore) !! "cam"%string = Some [s1; f1]
  /\ PruneIndex camIndex "cam" tBefore <> camIndex.
Proof.
  split; [repeat constructor|].
  split; [vm_compute; reflexivity|].
  assert (H : entries (PruneIndex camIndex "cam" tBefore) !! "cam"%string = Some [s1; f1])
    by (vm_compute; reflexivity).
  split; [exact H|].
  intros Heq. rewrite Heq in H. vm_compute in H. discriminate H.
Qed.

End LookupFacts.

(** ** The entry lists stay sorted *)

Section SortedInvariant.

Import TimeIndex History Inputs.

Lemma indexCmp_neg (a b : indexEntry) :
  (indexCmp a b <? 0) = true <-> GoTime.nanos (Time a) < GoTime.nanos (Time b).
Proof.
  unfold indexCmp, GoTime.Sub.
  set (d := GoTime.nanos (Time a) - GoTime.nanos (Time b)).
  assert (Hmax : Int64.in_range Int64.max_int) by (vm_compute; split; discriminate).
  assert (Hmin : Int64.in_range Int64.min_int) by (vm_compute; split; discriminate).
  destruct (d >? Int64.max_int) eqn:H1.
  { rewrite (wrap_id _ Hmax). apply Z.gtb_lt in H1.
    unfold Int64.max_int in *. rewrite Z.ltb_lt. lia. }
  destruct (d <? Int64.min_int) eqn:H2.
  { rewrite (wrap_id _ Hmin). apply Z.ltb_lt in H2.
    unfold Int64.min_int in *. rewrite Z.ltb_lt. lia. }
  rewrite wrap_id.
  - rewrite Z.ltb_lt. lia.
  - unfold Int64.in_range. apply Z.ltb_ge in H2. lia.
Qed.




















End SortedInvariant.

(** ** Bytes and integers *)

Section BigEndian.

Lemma byte_of_shiftr s k : 0 <= k -> byte_of (Z.shiftr s k) = (s / 2 ^ k) mod 2 ^ 8.
Proof.
  intros Hk. unfold byte_of. change 255 with (Z.ones 8).
  rewrite Z.land_ones by lia. rewrite Z.shiftr_div_pow2 by exact Hk. reflexivity.
Qed.

Lemma byte_of_mod s : byte_of s = (s / 2 ^ 0) mod 2 ^ 8.
Proof. rewrite <- byte_of_shiftr by lia. rewrite Z.shiftr_0_r. reflexivity. Qed.

Lemma lor_shiftl_add acc b k :
  0 <= k -> 0 <= acc < 2 ^ k -> 0 <= b -> Z.lor acc (Z.shiftl b k) = acc + b * 2 ^ k.
Proof.
  intros Hk Hacc Hb.
  assert (Hland : Z.land acc (Z.shiftl b k) = 0).
  { apply Z.bits_inj'. intros n Hn. rewrite Z.land_spec, Z.bits_0.
    destruct (Z.lt_ge_cases n k) as [Hlt|Hge].
    - rewrite Z.shiftl_spec_low by exact Hlt. apply andb_false_r.
    - rewrite <- (Z.mod_small acc (2 ^ k)) by exact Hacc.
      rewrite Z.mod_pow2_bits_high by lia. reflexivity. }
  rewrite <- Z.lxor_lor by exact Hland.
  rewrite <- Z.add_nocarry_lxor by exact Hland.
  rewrite Z.shiftl_mul_pow2 by exact Hk. reflexivity.
Qed.

(** one more byte of the low part *)
Lemma mod_pow2_step s k :
  0 <= k -> s mod 2 ^ (k + 8) = s mod 2 ^ k + ((s / 2 ^ k) mod 2 ^ 8) * 2 ^ k.
Proof.
  intros Hk. rewrite Z.pow_add_r by lia.
  rewrite Z.rem_mul_r by lia. lia.
Qed.

Lemma lor_step s acc k :
  0 <= k -> acc = s mod 2 ^ k ->
  Z.lor acc (Z.shiftl ((s / 2 ^ k) mod 2 ^ 8) k) = s mod 2 ^ (k + 8).
Proof.
  intros Hk ->. rewrite lor_shiftl_add.
  - rewrite mod_pow2_step by exact Hk. reflexivity.
  - exact Hk.
  - apply Z.mod_pos_bound. lia.
  - apply Z.mod_pos_bound. lia.
Qed.

Lemma be64 s :
  Z.lor (Z.lor (Z.lor (Z.lor (Z.lor (Z.lor (Z.lor
      (byte_of s)
      (Z.shiftl (byte_of (Z.shiftr s 8)) 8))
      (Z.shiftl (byte_of (Z.shiftr s 16)) 16))
      (Z.shiftl (byte_of (Z.shiftr s 24)) 24))
      (Z.shiftl (byte_of (Z.shiftr s 32)) 32))
      (Z.shiftl (byte_of (Z.shiftr s 40)) 40))
      (Z.shiftl (byte_of (Z.shiftr s 48)) 48))
      (Z.shiftl (byte_of (Z.shiftr s 56)) 56) = s mod 2 ^ 64.
Proof.
  rewrite !byte_of_shiftr by lia. rewrite byte_of_mod.
  assert (H0 : (s / 2 ^ 0) mod 2 ^ 8 = s mod 2 ^ 8).
  { rewrite Z.pow_0_r, Z.div_1_r. reflexivity. }
  rewrite H0.
  rewrite (lor_step s _ 8) by (reflexivity || lia). 
  rewrite (lor_step s _ 16) by (reflexivity || lia).
  rewrite (lor_step s _ 24) by (reflexivity || lia).
  rewrite (lor_step s _ 32) by (reflexivity || lia).
  rewrite (lor_step s _ 40) by (reflexivity || lia).
  rewrite (lor_step s _ 48) by (reflexivity || lia).
  rewrite (lor_step s _ 56) by (reflexivity || lia).
  reflexivity.
Qed.

Lemma sint_mod bits s : 0 < bits -> - 2 ^ (bits - 1) <= s < 2 ^ (bits - 1) -> sint bits (s mod 2 ^ bits) = s.
Proof.
  intros Hb Hs. unfold sint. rewrite Zplus_mod_idemp_l.
  apply (sint_id bits s Hb Hs).
Qed.

Lemma be32 s :
  Z.lor (Z.lor (Z.lor
      (byte_of s)
      (Z.shiftl (byte_of (Z.shiftr s 8)) 8))
      (Z.shiftl (byte_of (Z.shiftr s 16)) 16))
      (Z.shiftl (byte_of (Z.shiftr s 24)) 24) = s mod 2 ^ 32.
Proof.
  rewrite !byte_of_shiftr by lia. rewrite byte_of_mod.
  assert (H0 : (s / 2 ^ 0) mod 2 ^ 8 = s mod 2 ^ 8).
  { rewrite Z.pow_0_r, Z.div_1_r. reflexivity. }
  rewrite H0.
  rewrite (lor_step s _ 8) by (reflexivity || lia).
  rewrite (lor_step s _ 16) by (reflexivity || lia).
  rewrite (lor_step s _ 24) by (reflexivity || lia).
  reflexivity.
Qed.

Lemma sec_roundtrip s : Int64.in_range s ->
  sint 64 (Z.lor (Z.lor (Z.lor (Z.lor (Z.lor (Z.lor (Z.lor
      (byte_of s)
      (Z.shiftl (byte_of (Z.shiftr s 8)) 8))
      (Z.shiftl (byte_of (Z.shiftr s 16)) 16))
      (Z.shiftl (byte_of (Z.shiftr s 24)) 24))
      (Z.shiftl (byte_of (Z.shiftr s 32)) 32))
      (Z.shiftl (byte_of (Z.shiftr s 40)) 40))
      (Z.shiftl (byte_of (Z.shiftr s 48)) 48))
      (Z.shiftl (byte_of (Z.shiftr s 56)) 56)) = s.
Proof.
  intros Hs. rewrite be64. apply sint_mod; [lia|].
  unfold Int64.in_range, Int64.min_int, Int64.max_int in Hs. change (64 - 1) with 63. lia.
Qed.

Lemma nsec_roundtrip s : 0 <= s < 1000000000 ->
  sint 32 (Z.lor (Z.lor (Z.lor
      (byte_of s)
      (Z.shiftl (byte_of (Z.shiftr s 8)) 8))
      (Z.shiftl (byte_of (Z.shiftr s 16)) 16))
      (Z.shiftl (byte_of (Z.shiftr s 24)) 24)) = s.
Proof.
  intros Hs. rewrite be32. apply sint_mod; [lia|]. change (32 - 1) with 31. lia.
Qed.

End BigEndian.

(** ** Sidecar codec: round trip *)

Section SidecarRoundTrip.

Import GoTime History SidecarLayout Sidecar Inputs.

Lemma decode_slot x :
  Int64.in_range (sec x) -> normal x -> zone_ok (loc x) ->
  length (slot x) = 16%nat
  /\ exists x', (if at_ (slot x) 0 =? 1 then UnmarshalBinary (take 15 (slot x))
                 else UnmarshalBinary (slot x)) = inl x'
                /\ sec x' = sec x /\ nsec x' = nsec x.
Proof.
  intros Hsec Hn Hz. unfold slot, MarshalBinary.
  destruct (loc x) as [|off]; cbn [zone_ok] in Hz.
  - cbn -[Z.shiftr Z.shiftl Z.lor Z.land byte_of sint Z.mul Z.add].
    split; [reflexivity|]. eexists. split; [reflexivity|]. cbn [sec nsec].
    split; [apply sec_roundtrip, Hsec | apply nsec_roundtrip, Hn].
  - destruct Hz as [Hr Hne].
    assert (Hchk : (Z.quot off 60 <? -32768) || (Z.quot off 60 =? -1) || (Z.quot off 60 >? 32767) = false).
    { destruct (Z.ltb_spec (Z.quot off 60) (-32768)); [lia|].
      destruct (Z.eqb_spec (Z.quot off 60) (-1)); [lia|].
      destruct (Z.gtb_spec (Z.quot off 60) 32767); [lia|]. reflexivity. }
    destruct (Z.rem off 60 =? 0) eqn:Hrem; cbn [negb]; rewrite Hchk;
      cbn -[Z.shiftr Z.shiftl Z.lor Z.land byte_of sint Z.mul Z.add Z.quot Z.rem];
      (split; [reflexivity|]); eexists; (split; [reflexivity|]); cbn [sec nsec];
      (split; [apply sec_roundtrip, Hsec | apply nsec_roundtrip, Hn]).
Qed.

Lemma int64_roundtrip v : Int64.in_range v -> getInt64 (putInt64 v) = v.
Proof.
  intros Hv. unfold getInt64, putInt64, at_. cbn [nth]. apply sec_roundtrip, Hv.
Qed.

Lemma MarshalBinary_slot x :
  zone_ok (loc x) ->
  exists b, MarshalBinary x = inl b
            /\ (if Nat.eqb (length b) 15 then b ++ [0] else b) = slot x.
Proof.
  intros Hz. unfold slot. destruct (MarshalBinary x) as [b|err] eqn:Hm.
  - exists b. split; reflexivity.
  - exfalso. unfold MarshalBinary in Hm. destruct (loc x) as [|off]; cbn [zone_ok] in Hz.
    + discriminate Hm.
    + destruct Hz as [Hr Hne].
      assert (Hchk : (Z.quot off 60 <? -32768) || (Z.quot off 60 =? -1)
                     || (Z.quot off 60 >? 32767) = false).
      { destruct (Z.ltb_spec (Z.quot off 60) (-32768)); [lia|].
        destruct (Z.eqb_spec (Z.quot off 60) (-1)); [lia|].
        destruct (Z.gtb_spec (Z.quot off 60) 32767); [lia|]. reflexivity. }
      destruct (negb (Z.rem off 60 =? 0)); rewrite Hchk in Hm; discriminate Hm.
Qed.

Lemma fileRead_app (b r : list Z) :
  length b = 16%nat -> fileRead (b ++ r) = (b, None, r).
Proof.
  intros Hb. unfold fileRead.
  destruct (b ++ r) as [|z l] eqn:Hbr.
  - apply app_eq_nil in Hbr. destruct Hbr as [-> _]. discriminate Hb.
  - rewrite <- Hbr. rewrite take_app_length', drop_app_length' by (symmetry; exact Hb).
    reflexivity.
Qed.

Lemma binaryReadInt64_app (v : Z) (r : list Z) :
  binaryReadInt64 (putInt64 v ++ r) = (inl (getInt64 (putInt64 v)), r).
Proof. reflexivity. Qed.

Lemma length_record e : codable e -> length (record e) = 24%nat.
Proof.
  intros (Hs & Hn & Hz & _). unfold record. rewrite length_app.
  destruct (decode_slot (Time e) Hs Hn Hz) as [Hl _]. rewrite Hl. reflexivity.
Qed.

Lemma length_records idx :
  Forall codable idx -> length (concat (record <$> idx)) = (24 * length idx)%nat.
Proof.
  induction 1 as [|e idx He _ IH]; [reflexivity|].
  cbn [fmap list_fmap concat length]. rewrite length_app, (length_record e He).
  change (list_fmap indexEntry (list Z) record idx) with (record <$> idx). rewrite IH. lia.
Qed.

Lemma writeEntries_ok tmpFile idx : forall d old,
  Forall codable idx ->
  files d !! tmpFile = Some old ->
  24 * Z.of_nat (length idx) <= budget d ->
  writeEntries d tmpFile idx =
  (mkDisk (<[tmpFile := old ++ concat (record <$> idx)]> (files d)) (denied d)
          (budget d - 24 * Z.of_nat (length idx)), None).
Proof.
  induction idx as [|e idx IH]; intros d old Hc Hold Hb.
  - cbn [writeEntries fmap list_fmap concat length]. rewrite app_nil_r, insert_id by exact Hold.
    destruct d; cbn. f_equal. f_equal. lia.
  - apply Forall_cons in Hc. destruct Hc as [He Hc].
    pose proof He as (Hs & Hn & Hz & Ho).
    destruct (MarshalBinary_slot (Time e) Hz) as (b & Hm & Hslot).
    destruct (decode_slot (Time e) Hs Hn Hz) as [Hl _].
    cbn [writeEntries]. rewrite Hm, Hslot.
    cbn [length] in Hb.
    unfold fileWrite at 1. rewrite Hold. cbn [default]. rewrite Hl.
    destruct (Z.leb_spec (Z.of_nat 16) (budget d)) as [_|Hlt]; [|exfalso; lia].
    unfold fileWrite at 1. cbn [files budget denied]. rewrite lookup_insert_eq. cbn [default].
    change (Z.of_nat (length (putInt64 (Offset e)))) with 8.
    destruct (Z.leb_spec 8 (budget d - Z.of_nat 16)) as [_|Hlt]; [|exfalso; lia].
    rewrite (IH _ ((old ++ slot (Time e)) ++ putInt64 (Offset e)));
      [|exact Hc|cbn [files]; apply lookup_insert_eq|cbn [budget]; lia].
    cbn [files budget denied]. rewrite !insert_insert_eq.
    cbn [fmap list_fmap concat]. unfold record at 2.
    rewrite <- !app_assoc. cbn [length]. f_equal. f_equal. lia.
Qed.

Lemma writeIndex_ok d segPath idx :
  let idxFile := indexFileName segPath in
  let tmpFile := (idxFile +:+ ".tmp")%string in
  Forall codable idx ->
  tmpFile ∉ denied d -> idxFile ∉ denied d ->
  16 + 24 * Z.of_nat (length idx) <= budget d ->
  exists d', writeIndex d segPath idx = (d', None)
             /\ files d' !! idxFile = Some (sidecarBytes idx).
Proof.
  intros idxFile tmpFile Hc Htmp Hidx Hb. unfold writeIndex.
  fold idxFile. fold tmpFile. unfold osCreate.
  rewrite decide_False by exact Htmp.
  unfold fileWrite at 1. cbn [files budget denied]. rewrite lookup_insert_eq. cbn [default].
  change (Z.of_nat (length header)) with 16.
  destruct (Z.leb_spec 16 (budget d)) as [_|Hlt]; [|exfalso; lia].
  cbn [fst].
  rewrite (writeEntries_ok tmpFile idx _ header Hc);
    [|cbn [files]; rewrite insert_insert_eq; apply lookup_insert_eq|cbn [budget]; lia].
  cbn [fst files budget denied]. unfold osRename. cbn [files denied budget].
  rewrite lookup_insert_eq. rewrite decide_False by exact Hidx.
  eexists. split; [reflexivity|]. cbn [files]. rewrite lookup_insert_eq. reflexivity.
Qed.

Lemma readEntries_ok idx : forall fuel acc,
  Forall codable idx -> (length idx < fuel)%nat ->
  exists idx', readEntries fuel (concat (record <$> idx)) acc = (acc ++ idx', Some EOF)
               /\ Forall2 same_entry idx idx'.
Proof.
  induction idx as [|e idx IH]; intros fuel acc Hc Hf; (destruct fuel as [|fuel]; [cbn in Hf; lia|]).
  - exists []. split; [rewrite app_nil_r; reflexivity | constructor].
  - apply Forall_cons in Hc. destruct Hc as [He Hc].
    pose proof He as (Hs & Hn & Hz & Ho).
    destruct (decode_slot (Time e) Hs Hn Hz) as (Hl & x' & Hdec & Hsec & Hnsec).
    cbn [fmap list_fmap concat readEntries]. unfold record at 1.
    rewrite <- app_assoc. rewrite (fileRead_app _ _ Hl). rewrite Hl. cbn [Nat.eqb negb].
    rewrite Hdec. rewrite binaryReadInt64_app, (int64_roundtrip _ Ho).
    destruct (IH fuel (acc ++ [mkEntry x' (Offset e)]) Hc) as (idx' & Hrd & Hall);
      [cbn [length] in Hf; lia|].
    exists (mkEntry x' (Offset e) :: idx'). split.
    + change (list_fmap indexEntry (list Z) record idx) with (record <$> idx).
      rewrite Hrd, <- app_assoc. reflexivity.
    + constructor; [|exact Hall]. split; [|reflexivity].
      unfold GoTime.Equal. cbn [Time]. rewrite Hsec, Hnsec, !Z.eqb_refl. reflexivity.
Qed.

Lemma readIndexFile_ok d indexPath idx :
  files d !! indexPath = Some (sidecarBytes idx) ->
  Forall codable idx ->
  exists idx', readIndexFile d indexPath = (idx', None) /\ Forall2 same_entry idx idx'.
Proof.
  intros Hf Hc. unfold readIndexFile. rewrite Hf. unfold sidecarBytes.
  rewrite (fileRead_app header _ eq_refl).
  cbn [is_nil_err negb orb]. change (Nat.eqb (length header) 16) with true.
  cbn [negb orb].
  change (negb (at_ header 0 =? 83) && negb (at_ header 1 =? 73)
          && negb (at_ header 2 =? 68) && negb (at_ header 3 =? 88)) with false.
  cbn match.
  destruct (readEntries_ok idx (S (length (concat (record <$> idx)))) [] Hc)
    as (idx' & Hrd & Hall).
  { rewrite (length_records idx Hc). lia. }
  rewrite Hrd. cbn [app]. exists idx'. split; [reflexivity | exact Hall].
Qed.

(** C6: writing a list of entries as a sidecar file and reading that
    file back yields a list of the same length whose entries have, one
    by one, an equal time and the same offset.  The entries are values
    of the Go types that [MarshalBinary] accepts, and the disk takes the
    file. *)
Theorem sidecar_roundtrip d segPath idx :
  Forall codable idx ->
  (indexFileName segPath +:+ ".tmp")%string ∉ denied d ->
  indexFileName segPath ∉ denied d ->
  16 + 24 * Z.of_nat (length idx) <= budget d ->
  exists d' idx',
    writeIndex d segPath idx = (d', None)
    /\ readIndexFile d' (indexFileName segPath) = (idx', None)
    /\ Forall2 same_entry idx idx'.
Proof.
  intros Hc Htmp Hidx Hb.
  destruct (writeIndex_ok d segPath idx Hc Htmp Hidx Hb) as (d' & Hw & Hfile).
  destruct (readIndexFile_ok d' _ idx Hfile Hc) as (idx' & Hr & Hall).
  exists d', idx'. repeat split; assumption.
Qed.

Lemma sidecar_roundtrip_witness :
  Forall codable [e0; e1; e2]
  /\ ((indexFileName "/rec/cam/a.mp4" +:+ ".tmp")%string ∉ denied emptyDisk)
  /\ (indexFileName "/rec/cam/a.mp4" ∉ denied emptyDisk)
  /\ 16 + 24 * Z.of_nat (length [e0; e1; e2]) <= budget emptyDisk
  /\ exists d' idx',
      writeIndex emptyDisk "/rec/cam/a.mp4" [e0; e1; e2] = (d', None)
      /\ readIndexFile d' (indexFileName "/rec/cam/a.mp4") = (idx', None)
      /\ Forall2 same_entry [e0; e1; e2] idx'.
Proof.
  assert (Hc : Forall codable [e0; e1; e2]).
  { repeat (constructor;
              [unfold codable, normal, zone_ok, Int64.in_range, Int64.min_int, Int64.max_int;
               cbn; repeat split; lia|]).
    constructor. }
  assert (Ht : (indexFileName "/rec/cam/a.mp4" +:+ ".tmp")%string ∉ denied emptyDisk)
    by apply not_elem_of_empty.
  assert (Hi : indexFileName "/rec/cam/a.mp4" ∉ denied emptyDisk)
    by apply not_elem_of_empty.
  assert (Hb : 16 + 24 * Z.of_nat (length [e0; e1; e2]) <= budget emptyDisk)
    by (cbn; lia).
  repeat (split; [assumption|]).
  apply (sidecar_roundtrip emptyDisk "/rec/cam/a.mp4" [e0; e1; e2] Hc Ht Hi Hb).
Defined.

End SidecarRoundTrip.

(** ** Segment scanner *)

Ltac fold_sizes :=
  repeat match goal with
    | |- context [Z.sub (Zpos ?a) (Zpos ?b)] =>
        let v := eval vm_compute in (Z.sub (Zpos a) (Zpos b)) in
        change (Z.sub (Zpos a) (Zpos b)) with v
    end.

Ltac walk :=
  cbn -[sint Int64.add Int64.mul Z.quot Z.rem GoTime.Add Scanner.findInitTrack]; fold_sizes;
  cbn -[sint Int64.add Int64.mul Z.quot Z.rem GoTime.Add Scanner.findInitTrack].

Section ScanFacts.

Import Scanner Fragments.
Variable tracks : list track.
Variable start : GoTime.t.

Lemma walk_wellFormed (f : fragment) (rest : list box) (T : Z) (qt : bool) (s : scanState) :
  wellFormed tracks f ->
  exists mo ts T',
    readBoxStructure (scanHandler tracks start) (fragmentBoxes f ++ rest) T true qt s
    = readBoxStructure (scanHandler tracks start) rest T' true qt
        (mkScan mo ts (index s ++ fragmentEntry tracks start f)).
Proof.
  intros (Hh & Hd & tr & Htr & Hts).
  unfold fragmentEntry, elapsed. rewrite Htr.
  eexists _, _, _.
  unfold readBoxStructure, fragmentBoxes. rewrite Hh, Hd.
  walk.
  replace (fragOffset f + 68 - (fragOffset f + 8 + 0)) with 60 by lia.
  walk.
  replace (fragOffset f + 24 + 44 - (fragOffset f + 24 + 8 + 0)) with 36 by lia.
  walk.
  rewrite Htr.
  walk.
  destruct (Z.eqb_spec (TimeScale tr) 0) as [|_]; [contradiction|].
  walk.
  unfold quicktimeAfter, leaf. cbn [btype bquicktime String.eqb Ascii.eqb Bool.eqb andb].
  rewrite !orb_false_r. reflexivity.
Qed.

Lemma walk_malformed (f : fragment) (rest : list box) (T : Z) (qt : bool) (s : scanState) :
  malformed tracks f ->
  exists mo ts,
    readBoxStructure (scanHandler tracks start) (fragmentBoxes f ++ rest) T true qt s
    = (mkScan mo ts (index s), Some ErrPayload).
Proof.
  intros Hbad.
  unfold readBoxStructure, fragmentBoxes.
  destruct (tfhdDecodes f) eqn:Hh.
  - destruct Hbad as [Hbad|[Hd [tr Htr]]]; [congruence|]. rewrite Hd.
    eexists _, _.
    walk.
    replace (fragOffset f + 68 - (fragOffset f + 8 + 0)) with 60 by lia.
    walk.
    replace (fragOffset f + 24 + 44 - (fragOffset f + 24 + 8 + 0)) with 36 by lia.
    walk.
    rewrite Htr.
    walk. reflexivity.
  - eexists _, _.
    walk.
    replace (fragOffset f + 68 - (fragOffset f + 8 + 0)) with 60 by lia.
    walk.
    replace (fragOffset f + 24 + 44 - (fragOffset f + 24 + 8 + 0)) with 36 by lia.
    walk. reflexivity.
Qed.

Lemma walk_fragments (pre : list fragment) :
  forall (rest : list box) (T : Z) (qt : bool) (s : scanState),
    Forall (wellFormed tracks) pre ->
    exists mo ts T',
      readBoxStructure (scanHandler tracks start) (concat (fragmentBoxes <$> pre) ++ rest) T true qt s
      = readBoxStructure (scanHandler tracks start) rest T' true qt
          (mkScan mo ts (index s ++ concat (fragmentEntry tracks start <$> pre))).
Proof.
  induction pre as [|f pre IH]; intros rest T qt s Hpre.
  - exists (moofOffset s), (timeScale s), T. cbn [fmap list_fmap concat app].
    rewrite app_nil_r. destruct s; reflexivity.
  - apply Forall_cons in Hpre. destruct Hpre as [Hf Hpre].
    cbn [fmap list_fmap concat]. rewrite <- app_assoc.
    destruct (walk_wellFormed f (concat (fragmentBoxes <$> pre) ++ rest) T qt s Hf)
      as (mo & ts & T1 & Hw).
    change (list_fmap fragment (list box) fragmentBoxes pre) with (fragmentBoxes <$> pre).
    rewrite Hw.
    destruct (IH rest T1 qt (mkScan mo ts (index s ++ fragmentEntry tracks start f)) Hpre)
      as (mo' & ts' & T2 & Hw').
    rewrite Hw'. cbn [index]. exists mo', ts', T2. rewrite <- app_assoc. reflexivity.
Qed.

End ScanFacts.

Section ScanTheorems.

Import Scanner Fragments Inputs.

Lemma walk_end (tracks : list track) (start : GoTime.t) (T : Z) (qt : bool) (s : scanState) :
readBoxStructure (scanHandler tracks start) [] T true qt s = (s, None).
Proof. reflexivity. Qed.

(** A segment of well-formed fragments scans without error, to its
  sentinel and one entry per fragment. *)
Lemma scanSegment_wellFormed
    (tracks : list track) (fpath : string) (start : GoTime.t) (frags : list fragment) :
Forall (wellFormed tracks) frags ->
scanSegment (segmentOf fpath start tracks frags [])
= (mkEntry (GoTime.Truncate0 start) 0
     :: concat (fragmentEntry tracks (GoTime.Truncate0 start) <$> frags),
   None).
Proof.
intros Hf. unfold scanSegment, segmentOf. cbn [opens init boxes Start negb].
unfold ReadBoxStructure.
destruct (walk_fragments tracks (GoTime.Truncate0 start) frags [] 0 false
            (mkScan 0 90000 [mkEntry (GoTime.Truncate0 start) 0]) Hf)
  as (mo & ts & T1 & Hw).
cbn [index] in Hw. rewrite Hw, walk_end. reflexivity.
Qed.

(** C7, as the code has it: a fragment whose [tfhd] or [tfdt] payload
  fails to decode ends the scan of its segment, as an unresolved
  track id does: [scanSegment] returns the decoding error, with the
  sentinel and the entries of the fragments before the malformed one
  and none for those after it; and the rebuild, when it has to scan
  the segment, merges nothing of it. *)
Theorem scanSegment_stops_at_malformed_fragment
      (tracks : list track) (fpath : string) (start : GoTime.t)
      (pre post : list fragment) (bad : fragment) (others : list box) :
Forall (wellFormed tracks) pre ->
malformed tracks bad ->
let seg := segmentOf fpath start tracks (pre ++ bad :: post) others in
scanSegment seg
= (mkEntry (GoTime.Truncate0 start) 0
     :: concat (fragmentEntry tracks (GoTime.Truncate0 start) <$> pre),
   Some ErrPayload)
/\ forall stat pathName i d,
    snd (Sidecar.readIndex d stat fpath) <> None ->
    Indexer.indexSegment stat pathName (i, d) seg = (i, d).
Proof.
intros Hpre Hbad seg.
assert (Hscan : scanSegment seg
                = (mkEntry (GoTime.Truncate0 start) 0
                     :: concat (fragmentEntry tracks (GoTime.Truncate0 start) <$> pre),
                   Some ErrPayload)).
{ unfold scanSegment, seg, segmentOf. cbn [opens init boxes Start negb].
  unfold ReadBoxStructure. rewrite fmap_app, concat_app, <- app_assoc.
  destruct (walk_fragments tracks (GoTime.Truncate0 start) pre
              (concat (fragmentBoxes <$> bad :: post) ++ others) 0 false
              (mkScan 0 90000 [mkEntry (GoTime.Truncate0 start) 0]) Hpre)
    as (mo & ts & T1 & Hw).
  cbn [index] in Hw. rewrite Hw. cbn [fmap list_fmap concat]. rewrite <- app_assoc.
  destruct (walk_malformed tracks (GoTime.Truncate0 start) bad
              (concat (fragmentBoxes <$> post) ++ others) T1 false
              (mkScan mo ts ([mkEntry (GoTime.Truncate0 start) 0]
                               ++ concat (fragmentEntry tracks (GoTime.Truncate0 start) <$> pre)))
              Hbad) as (mo' & ts' & Hb).
  rewrite Hb. reflexivity. }
split; [exact Hscan|].
intros stat pathName i d Hrd. unfold Indexer.indexSegment.
change (Fpath seg) with fpath.
destruct (Sidecar.readIndex d stat fpath) as [lst [err|]]; [|contradiction].
rewrite Hscan. reflexivity.
Qed.

(** C7, as stated, fails: with the second of three fragments malformed
  the scan returns an error and no entry for the third fragment, which
  it yields when the malformed one is not there. *)
Lemma scanSegment_aborts_on_one_malformed_fragment :
wellFormed tracks1 fragA /\ wellFormed tracks1 fragC /\ tfhdDecodes fragB = false
/\ scanSegment brokenSegment = ([e0; mkEntry t0 1024], Some ErrPayload)
/\ scanSegment soundSegment
   = ([e0; mkEntry t0 1024; mkEntry (GoTime.mkTime 63800000004 0 GoTime.UTC) 9176], None).
Proof.
assert (Hwf : forall f, tfhdDecodes f = true -> tfdtDecodes f = true -> fragTrack f = 1 ->
                        wellFormed tracks1 f).
{ intros f H1 H2 H3. repeat split; [exact H1 | exact H2|].
  exists (mkTrack 1 90000). rewrite H3. split; [reflexivity | discriminate]. }
split; [apply Hwf; reflexivity|]. split; [apply Hwf; reflexivity|].
split; [reflexivity|]. split; vm_compute; reflexivity.
Qed.

Lemma scanSegment_stops_at_malformed_fragment_witness :
Forall (wellFormed tracks1) [fragA]
/\ malformed tracks1 fragB
/\ (scanSegment brokenSegment
    = (mkEntry (GoTime.Truncate0 t0) 0
         :: concat (fragmentEntry tracks1 (GoTime.Truncate0 t0) <$> [fragA]),
       Some ErrPayload)
    /\ forall stat pathName i d,
        snd (Sidecar.readIndex d stat "/rec/cam/b.mp4") <> None ->
        Indexer.indexSegment stat pathName (i, d) brokenSegment = (i, d)).
Proof.
assert (Ha : Forall (wellFormed tracks1) [fragA]).
{ constructor; [|constructor]. repeat split.
  exists (mkTrack 1 90000). split; [reflexivity | discriminate]. }
assert (Hb : malformed tracks1 fragB) by (left; reflexivity).
split; [exact Ha|]. split; [exact Hb|].
apply (scanSegment_stops_at_malformed_fragment
         tracks1 "/rec/cam/b.mp4" t0 [fragA] [fragC] fragB [] Ha Hb).
Defined.

End ScanTheorems.

(** ** Strings *)

Section StringFacts.

Lemma list_of_append (s u : string) :
  list_ascii_of_string (s +:+ u) = list_ascii_of_string s ++ list_ascii_of_string u.
Proof.
  induction s as [|c s IH]; [reflexivity|].
  change (c :: list_ascii_of_string (s +:+ u)
          = c :: (list_ascii_of_string s ++ list_ascii_of_string u)).
  f_equal. exact IH.
Qed.

Lemma string_of_app (a b : list ascii) :
  string_of_list_ascii (a ++ b) = (string_of_list_ascii a +:+ string_of_list_ascii b)%string.
Proof.
  induction a as [|c a IH]; [reflexivity|].
  change (String c (string_of_list_ascii (a ++ b))
          = String c (string_of_list_ascii a +:+ string_of_list_ascii b)).
  f_equal. exact IH.
Qed.

Lemma append_assoc (a b c : string) : ((a +:+ b) +:+ c = a +:+ (b +:+ c))%string.
Proof.
  induction a as [|x a IH]; [reflexivity|].
  change (String x ((a +:+ b) +:+ c) = String x (a +:+ (b +:+ c))). f_equal. exact IH.
Qed.

Lemma length_string_of (a : list ascii) :
  String.length (string_of_list_ascii a) = length a.
Proof. induction a as [|c a IH]; [reflexivity|]. cbn. f_equal. exact IH. Qed.

End StringFacts.

(** ** Playback requests *)

Section PlaybackFacts.

Import RangeWriter Playback Inputs.

Lemma emit_app (a b : list slice) (w : writerWrapper) :
  emit (a ++ b) w =
  match emit a w with
  | Finished None w' => emit b w'
  | r => r
  end.
Proof.
  revert w. induction a as [|p a IH]; intros w; cbn [app emit]; [reflexivity|].
  destruct (Write w p) as [n [e|] w'|]; [reflexivity | apply IH | reflexivity].
Qed.

Lemma muxRest_plan (segments : list segment) (flushed : list slice) (w : writerWrapper) :
  muxRest segments flushed w =
  match emit (fst (planRest segments flushed)) w with
  | Finished None w' => Finished (snd (planRest segments flushed)) w'
  | r => r
  end.
Proof.
  revert w. induction segments as [|seg rest IH]; intros w; cbn [muxRest planRest].
  - cbn [fst snd]. destruct (emit flushed w) as [[e|] w'|]; reflexivity.
  - destruct (segOpens seg); cbn [negb]; [|reflexivity].
    destruct (segInit seg) as [i|]; [|reflexivity].
    destruct (segConcat seg); cbn [negb].
    2:{ cbn [fst snd]. destruct (emit flushed w) as [[e|] w'|]; reflexivity. }
    unfold muxParts. destruct (segPartsErr seg) as [err|] eqn:Herr.
    + cbn [fst snd]. destruct (emit (segParts seg) w) as [[e|] w'|]; reflexivity.
    + destruct (planRest rest flushed) as [bufs err] eqn:Hp. cbn [fst snd] in *.
      rewrite emit_app. destruct (emit (segParts seg) w) as [[e|] w'|]; try reflexivity.
      apply IH.
Qed.

Lemma seekAndMux_plan (segments : list segment) (flushed : list slice) (w : writerWrapper) :
  seekAndMux true segments flushed w =
  match plan segments flushed with
  | None => MuxPanicked
  | Some (bufs, err) =>
      match emit bufs w with
      | Finished None w' => Finished err w'
      | r => r
      end
  end.
Proof.
  unfold seekAndMux, plan. destruct segments as [|first rest]; [reflexivity|].
  destruct (segOpens first); cbn [negb]; [|reflexivity].
  destruct (segInit first) as [i|]; [|reflexivity].
  unfold muxParts. destruct (segPartsErr first) as [err|].
  - destruct (emit (segParts first) w) as [[e|] w'|]; reflexivity.
  - pose proof (muxRest_plan rest flushed) as Hr.
    destruct (planRest rest flushed) as [bufs err]. cbn [fst snd] in Hr.
    rewrite emit_app. destruct (emit (segParts first) w) as [[e|] w'|]; try reflexivity.
    apply Hr.
Qed.

Lemma streamLen_cons (p : slice) (bufs : list slice) :
  streamLen (p :: bufs) = len p + streamLen bufs.
Proof.
  unfold streamLen, stream, len. cbn [fmap list_fmap concat].
  rewrite List.length_app. lia.
Qed.

Lemma streamLen_nonneg (bufs : list slice) : 0 <= streamLen bufs.
Proof. unfold streamLen. lia. Qed.

Lemma len_nonneg (p : slice) : 0 <= len p.
Proof. unfold len. lia. Qed.

Lemma max_int_value : Int64.max_int = 9223372036854775807.
Proof. reflexivity. Qed.

Lemma min_int_value : Int64.min_int = -9223372036854775808.
Proof. reflexivity. Qed.

Lemma add_id (a b : Z) : Int64.in_range (a + b) -> Int64.add a b = a + b.
Proof. apply wrap_id. Qed.

Lemma sub_id (a b : Z) : Int64.in_range (a - b) -> Int64.sub a b = a - b.
Proof. apply wrap_id. Qed.

(** In the first pass nothing reaches the client and the lengths add up. *)
Lemma emit_pass1 (bufs : list slice) : forall w : writerWrapper,
  pass1 w = true -> 0 <= length w -> length w + streamLen bufs <= Int64.max_int ->
  exists w', emit bufs w = Finished None w'
             /\ ctx w' = ctx w /\ length w' = length w + streamLen bufs
             /\ pass1 w' = true /\ offset w' = offset w /\ offset2 w' = offset2 w
             /\ skipped w' = skipped w /\ sent w' = sent w /\ written w' = written w.
Proof.
  induction bufs as [|p bufs IH]; intros w Hp Hl Hb.
  - exists w. cbn [emit]. unfold streamLen, stream. cbn. repeat split; try assumption; lia.
  - rewrite streamLen_cons in Hb. pose proof (len_nonneg p). pose proof (streamLen_nonneg bufs).
    cbn [emit]. unfold Write. rewrite Hp.
    rewrite add_id by (unfold Int64.in_range; rewrite max_int_value, min_int_value in *; lia).
    destruct (IH (set_length w (length w + len p))) as (w' & He & Hc & Hlen & H1 & H2 & H3 & H4 & H5 & H6);
      [exact Hp | cbn; lia | cbn; lia |].
    exists w'. rewrite He. cbn in *. rewrite streamLen_cons. repeat split; try assumption. lia.
Qed.

Lemma ensureHeaders_ctx (w : writerWrapper) :
  respBody (ctx (ensureHeaders w)) = respBody (ctx w)
  /\ connBroken (ctx (ensureHeaders w)) = connBroken (ctx w)
  /\ pass1 (ensureHeaders w) = pass1 w.
Proof. unfold ensureHeaders. destruct (written w); repeat split. Qed.

(** Without a window ([offset2] at its largest) everything is written. *)
Lemma emit_unranged (bufs : list slice) : forall w : writerWrapper,
  pass1 w = false -> offset w <= skipped w -> offset2 w = Int64.max_int ->
  connBroken (ctx w) = false -> 0 <= sent w -> sent w + streamLen bufs < Int64.max_int ->
  exists w', emit bufs w = Finished None w'
             /\ respBody (ctx w') = respBody (ctx w) ++ stream bufs.
Proof.
  induction bufs as [|p bufs IH]; intros w Hp Hs Ho Hc Hsent Hb.
  - exists w. cbn [emit]. unfold stream. cbn. rewrite app_nil_r. split; reflexivity.
  - rewrite streamLen_cons in Hb. pose proof (len_nonneg p). pose proof (streamLen_nonneg bufs).
    rewrite max_int_value in *.
    cbn [emit]. unfold Write. rewrite Hp.
    destruct (Z.geb_spec (skipped w) (offset w)) as [_|Hlt]; [|lia].
    destruct (ensureHeaders_fields w) as (Hf1 & Hf2 & Hf3 & Hf4).
    destruct (ensureHeaders_ctx w) as (Hg1 & Hg2 & Hg3).
    set (w1 := ensureHeaders w) in *.
    rewrite Hf3, Hf4, Ho.
    rewrite (add_id (sent w) (len p))
      by (unfold Int64.in_range; rewrite max_int_value, min_int_value; lia).
    rewrite (add_id (sent w + len p) 1)
      by (unfold Int64.in_range; rewrite max_int_value, min_int_value; lia).
    rewrite ?max_int_value.
    destruct (Z.gtb_spec (sent w + len p + 1) 9223372036854775807) as [Hgt|_]; [lia|].
    unfold ctxWrite. rewrite Hg2, Hc.
    cbn [sent set_sent set_ctx offset2 ctx].
    rewrite ?Hf3, ?Hf4, ?Ho, ?max_int_value.
    rewrite (add_id (sent w) (len p))
      by (unfold Int64.in_range; rewrite max_int_value, min_int_value; lia).
    destruct (Z.geb_spec (sent w + len p) 9223372036854775807) as [Hge|_]; [lia|].
    match goal with |- context [emit bufs ?w2] =>
      destruct (IH w2) as (w' & He & Hbody) end.
    + cbn. exact Hg3 || (rewrite Hg3; exact Hp).
    + cbn. rewrite Hf1, Hf2. exact Hs.
    + cbn. rewrite Hf4. rewrite Ho. reflexivity.
    + reflexivity.
    + cbn. lia.
    + cbn. lia.
    + exists w'. rewrite He. split; [reflexivity|]. rewrite Hbody. cbn.
      rewrite Hg1. unfold stream. cbn [fmap list_fmap concat]. rewrite <- app_assoc. reflexivity.
Qed.






Lemma streamLen_stream (bufs : list slice) :
  streamLen bufs = Z.of_nat (List.length (stream bufs)).
Proof. reflexivity. Qed.




Lemma handleError_false (err : option goerror) (w w1 : writerWrapper) (r : muxResult) :
  (if handleError err then Finished err w else r) = Finished None w1 ->
  handleError err = false.
Proof.
  destruct err as [e|]; [|reflexivity].
  destruct e; cbn; try reflexivity; intros H; discriminate H.
Qed.

Lemma onGet_two_passes (c : ginContext) (r : rangeHeader) (a b : Z) (fmt : bool)
      (segments : list segment) (flushed : list slice) :
  initialWriter c r = mkWriter c 0 0 0 a b true false ->
  onGet c r fmt segments flushed
  = (let ww := mkWriter c 0 0 0 a b true false in
     match seekAndMux fmt segments flushed ww with
     | MuxPanicked => MuxPanicked
     | Finished err ww =>
         if handleError err then Finished err ww
         else
           let ww := if offset2 ww =? Int64.max_int
                     then set_offset2 ww (Int64.sub (length ww) 1) else ww in
           let c := ctxHeader (ctx ww) AcceptRangesBytes in
           let c := ctxHeader c ContentTypeMp4 in
           let c := ctxHeader c (ContentRange (offset ww) (offset2 ww) (length ww)) in
           let c := ctxStatus c 206 in
           seekAndMux fmt segments flushed
                      (set_written (set_pass1 (set_ctx ww c) false) true)
     end).
Proof.
  intros Hinit. unfold onGet. rewrite Hinit. cbn [pass1]. cbv zeta.
  destruct (seekAndMux fmt segments flushed (mkWriter c 0 0 0 a b true false))
    as [err ww|]; [|reflexivity].
  destruct err as [e|]; [destruct e; reflexivity | reflexivity].
Qed.

(** X1: a HEAD request writes no byte of the body and reports as
    [Content-Length] the number of bytes a GET without [Range] for the
    same recording adds to the body: the bytes of all buffers the muxer
    hands to the writer, in their order. *)
Theorem onHead_reports_length_of_unranged_body
        (c : ginContext) (segments : list segment) (flushed bufs : list slice)
        (err : option goerror) :
  connBroken c = false ->
  plan segments flushed = Some (bufs, err) ->
  streamLen bufs < Int64.max_int ->
  (exists w2, onGet c NoRange true segments flushed = Finished err w2
              /\ respBody (ctx w2) = respBody c ++ stream bufs)
  /\ forall w1, onHead c true segments flushed = Finished None w1 ->
       respBody (ctx w1) = respBody c
       /\ respHeaders (ctx w1)
          = respHeaders c ++ [AcceptRangesBytes; ContentTypeMp4; ContentLength (streamLen bufs)].
Proof.
  intros Hc Hplan Hb. pose proof (streamLen_nonneg bufs) as Hn. split.
  - unfold onGet. cbn [initialWriter pass1]. rewrite seekAndMux_plan, Hplan.
    destruct (emit_unranged bufs (mkWriter c 0 0 0 0 Int64.max_int false false))
      as (w2 & He & Hbody);
      [reflexivity | cbn [offset skipped]; lia | reflexivity | exact Hc
       | cbn [sent]; lia | cbn [sent]; lia |].
    rewrite He. exists w2. split; [reflexivity | exact Hbody].
  - intros w1 Hhead. unfold onHead in Hhead. rewrite seekAndMux_plan, Hplan in Hhead.
    destruct (emit_pass1 bufs (mkWriter c 0 0 0 0 0 true false))
      as (w' & He & Hctx & Hlen & _);
      [reflexivity | cbn [length]; lia | cbn [length]; lia |].
    rewrite He in Hhead. pose proof (handleError_false _ _ _ _ Hhead) as Hh.
    rewrite Hh in Hhead. inversion Hhead; subst. cbn in *. rewrite Hctx, Hlen.
    split; [reflexivity|]. rewrite <- !app_assoc. reflexivity.
Qed.


Lemma muxRest_gap (pre post : list segment) (gap : segment) (flushed : list slice)
      (w : writerWrapper) :
  segOpens gap = true -> is_Some (segInit gap) -> segConcat gap = false ->
  muxRest (pre ++ gap :: post) flushed w = muxRest pre flushed w.
Proof.
  intros Ho [i Hi] Hc. revert w. induction pre as [|seg pre IH]; intros w; cbn [app muxRest].
  - rewrite Ho, Hi, Hc. reflexivity.
  - destruct (segOpens seg); cbn [negb]; [|reflexivity].
    destruct (segInit seg); [|reflexivity].
    destruct (segConcat seg); cbn [negb]; [|reflexivity].
    destruct (muxParts seg w) as [[e|] w'|]; [reflexivity | apply IH | reflexivity].
Qed.

Lemma seekAndMux_gap (fmt : bool) (first : segment) (pre post : list segment) (gap : segment)
      (flushed : list slice) (w : writerWrapper) :
  segOpens gap = true -> is_Some (segInit gap) -> segConcat gap = false ->
  seekAndMux fmt (first :: pre ++ gap :: post) flushed w
  = seekAndMux fmt (first :: pre) flushed w.
Proof.
  intros Ho Hi Hc. unfold seekAndMux. destruct fmt; [|reflexivity].
  destruct (segOpens first); cbn [negb]; [|reflexivity].
  destruct (segInit first); [|reflexivity].
  destruct (muxParts first w) as [[e|] w'|]; [reflexivity | | reflexivity].
  apply muxRest_gap; assumption.
Qed.

(** X3: a segment that cannot be concatenated with what was muxed
    before it ends the recording: GET and HEAD answer as if that segment
    and all segments after it were not there. *)
Theorem playback_ends_at_first_gap
        (c : ginContext) (r : rangeHeader) (fmt : bool) (first gap : segment)
        (pre post : list segment) (flushed : list slice) :
  segOpens gap = true -> is_Some (segInit gap) -> segConcat gap = false ->
  onGet c r fmt (first :: pre ++ gap :: post) flushed = onGet c r fmt (first :: pre) flushed
  /\ onHead c fmt (first :: pre ++ gap :: post) flushed = onHead c fmt (first :: pre) flushed.
Proof.
  intros Ho Hi Hc.
  assert (Hs : forall w, seekAndMux fmt (first :: pre ++ gap :: post) flushed w
                         = seekAndMux fmt (first :: pre) flushed w)
    by (intros w; apply seekAndMux_gap; assumption).
  split.
  - unfold onGet. destruct (pass1 (initialWriter c r)).
    + rewrite Hs. destruct (seekAndMux fmt (first :: pre) flushed (initialWriter c r))
        as [err ww|]; [|reflexivity].
      destruct (handleError err); [destruct err as [e|]; [reflexivity | apply Hs] | apply Hs].
    + apply Hs.
  - unfold onHead. rewrite Hs. reflexivity.
Qed.




Lemma recording_plan :
  plan recording [] = Some ([bytes (ramp 0 100); bytes (ramp 100 200)], None).
Proof. reflexivity. Qed.

Lemma recording_bounds :
  Forall (fun p => spare p = []) [bytes (ramp 0 100); bytes (ramp 100 200)]
  /\ streamLen [bytes (ramp 0 100); bytes (ramp 100 200)] = 300.
Proof. split; [repeat constructor | reflexivity]. Qed.

Lemma recording_head :
  exists w1, onHead emptyCtx true recording [] = Finished None w1.
Proof.
  destruct (onHead emptyCtx true recording []) as [[e|] w|] eqn:Hrun;
    [exfalso; vm_compute in Hrun; discriminate Hrun
    | exists w; reflexivity
    | exfalso; vm_compute in Hrun; discriminate Hrun].
Qed.

Lemma recording_get (r : rangeHeader) :
  r = Window 100 199 \/ r = Window 0 149 ->
  exists e w, onGet emptyCtx r true recording [] = Finished e w.
Proof.
  intros [->| ->];
    (match goal with
     | |- exists e w, ?run = _ =>
         destruct run as [e w|] eqn:Hrun;
         [exists e, w; reflexivity | exfalso; vm_compute in Hrun; discriminate Hrun]
     end).
Qed.

Lemma onHead_reports_length_of_unranged_body_witness :
  connBroken emptyCtx = false
  /\ plan recording [] = Some ([bytes (ramp 0 100); bytes (ramp 100 200)], None)
  /\ streamLen [bytes (ramp 0 100); bytes (ramp 100 200)] < Int64.max_int
  /\ ((exists w2, onGet emptyCtx NoRange true recording [] = Finished None w2
                  /\ respBody (ctx w2)
                     = respBody emptyCtx ++ stream [bytes (ramp 0 100); bytes (ramp 100 200)])
      /\ exists w1, onHead emptyCtx true recording [] = Finished None w1
           /\ respBody (ctx w1) = respBody emptyCtx
           /\ respHeaders (ctx w1)
              = respHeaders emptyCtx
                ++ [AcceptRangesBytes; ContentTypeMp4;
                    ContentLength (streamLen [bytes (ramp 0 100); bytes (ramp 100 200)])]).
Proof.
  assert (Hb : streamLen [bytes (ramp 0 100); bytes (ramp 100 200)] < Int64.max_int)
    by (destruct recording_bounds as [_ ->]; reflexivity).
  split; [reflexivity|]. split; [exact recording_plan|]. split; [exact Hb|].
  destruct (onHead_reports_length_of_unranged_body emptyCtx recording [] _ None
              eq_refl recording_plan Hb) as [Hget Hhead].
  split; [exact Hget|].
  destruct recording_head as [w1 Hrun]. exists w1. split; [exact Hrun|].
  apply (Hhead w1 Hrun).
Defined.


Lemma playback_ends_at_first_gap_witness :
  let gap := mkSegmentData true (Some 1%nat) false [bytes (ramp 0 50)] None in
  segOpens gap = true /\ is_Some (segInit gap) /\ segConcat gap = false
  /\ (onGet emptyCtx NoRange true (recording ++ gap :: recording) []
      = onGet emptyCtx NoRange true recording []
      /\ onHead emptyCtx true (recording ++ gap :: recording) []
         = onHead emptyCtx true recording []).
Proof.
  cbv zeta. split; [reflexivity|]. split; [eexists; reflexivity|]. split; [reflexivity|].
  apply (playback_ends_at_first_gap emptyCtx NoRange true
           (mkSegmentData true (Some 0%nat) true [bytes (ramp 0 100); bytes (ramp 100 200)] None)
           (mkSegmentData true (Some 1%nat) false [bytes (ramp 0 50)] None)
           [] recording []); [reflexivity | eexists; reflexivity | reflexivity].
Defined.


End PlaybackFacts.

(** ** Ranged requests: what the response announces *)

Section RangeAnnounced.

Import RangeWriter Playback Inputs.

Lemma Write_keeps_head (w : writerWrapper) (p : slice) (n : Z) (e : option goerror)
      (w' : writerWrapper) :
  written w = true ->
  Write w p = Returned n e w' ->
  respHeaders (ctx w') = respHeaders (ctx w)
  /\ respStatus (ctx w') = respStatus (ctx w)
  /\ written w' = true.
Proof.
  intros Hw. unfold Write, ensureHeaders. cbn [set_skipped written]. rewrite Hw.
  destruct (pass1 w); [intros H; inversion H; subst; cbn; auto|].
  destruct (skipped w >=? offset w).
  - destruct (if _ >? _ then _ else _) as [q|]; [|discriminate].
    unfold ctxWrite. destruct (connBroken (ctx w)); intros H; inversion H; subst; cbn; auto.
  - destruct (_ <=? offset w); [intros H; inversion H; subst; cbn; auto|].
    cbn [skipped set_skipped offset ctx written].
    destruct (_ >? offset w); [intros H; inversion H; subst; cbn; auto|].
    destruct (slice_from p _) as [tail|]; [|discriminate].
    unfold ctxWrite. cbn [ctx].
    destruct (connBroken (ctx w)); intros H; inversion H; subst; cbn; auto.
Qed.

Lemma emit_keeps_head (bufs : list slice) : forall (w : writerWrapper) e w',
  written w = true ->
  emit bufs w = Finished e w' ->
  respHeaders (ctx w') = respHeaders (ctx w)
  /\ respStatus (ctx w') = respStatus (ctx w).
Proof.
  induction bufs as [|p bufs IH]; intros w e w' Hw Hemit; cbn [emit] in Hemit.
  - inversion Hemit; subst. split; reflexivity.
  - destruct (Write w p) as [n err w1|] eqn:HW; [|discriminate].
    destruct (Write_keeps_head w p n err w1 Hw HW) as (Hh & Hs & Hw1).
    destruct err as [err|].
    + inversion Hemit; subst. split; assumption.
    + destruct (IH w1 e w' Hw1 Hemit) as [Hh' Hs']. split; congruence.
Qed.

(** X5: a GET with [Range: bytes=a-b] or [bytes=a-] whose first pass
    meets no error answers with status 206 and, after the two fixed
    headers, a [Content-Range] that names [a], the end [b] (the last
    byte of the stream when none is given) and the total number of
    bytes of the stream, as they were requested: the second pass adds
    no header and leaves the status. *)
Theorem ranged_get_announces_window
        (c : ginContext) (r : rangeHeader) (a b : Z) (segments : list segment)
        (flushed bufs : list slice) (err e : option goerror) (w : writerWrapper) :
  initialWriter c r = mkWriter c 0 0 0 a b true false ->
  plan segments flushed = Some (bufs, err) ->
  handleError err = false ->
  streamLen bufs < Int64.max_int ->
  onGet c r true segments flushed = Finished e w ->
  respStatus (ctx w) = Some 206
  /\ respHeaders (ctx w)
     = respHeaders c
       ++ [AcceptRangesBytes; ContentTypeMp4;
           ContentRange a (if b =? Int64.max_int then streamLen bufs - 1 else b)
                        (streamLen bufs)].
Proof.
  intros Hinit Hplan Herr Hb Hget.
  rewrite (onGet_two_passes c r a b true segments flushed Hinit) in Hget. cbv zeta in Hget.
  rewrite seekAndMux_plan, Hplan in Hget.
  pose proof (streamLen_nonneg bufs) as Hn.
  destruct (emit_pass1 bufs (mkWriter c 0 0 0 a b true false))
    as (w1 & He & Hctx & Hlen & _ & Hoff & Hoff2 & _ & _ & _);
    [reflexivity | cbn [length]; lia | cbn [length]; lia |].
  cbn [ctx length offset offset2] in Hctx, Hlen, Hoff, Hoff2. rewrite Z.add_0_l in Hlen.
  rewrite He, Herr in Hget. rewrite seekAndMux_plan, Hplan in Hget.
  set (w2 := set_written _ true) in Hget.
  assert (Hw2 : written w2 = true) by reflexivity.
  assert (Hhead : respStatus (ctx w2) = Some 206
                  /\ respHeaders (ctx w2)
                     = respHeaders c
                       ++ [AcceptRangesBytes; ContentTypeMp4;
                           ContentRange a (if b =? Int64.max_int then streamLen bufs - 1 else b)
                                        (streamLen bufs)]).
  { subst w2. rewrite Hoff2.
    assert (Hsub : Int64.sub (length w1) 1 = streamLen bufs - 1).
    { rewrite Hlen. apply sub_id. unfold Int64.in_range.
      rewrite max_int_value, min_int_value in *. lia. }
    destruct (b =? Int64.max_int);
      cbn [ctx set_written set_pass1 set_ctx set_offset2 ctxStatus ctxHeader respStatus
           respHeaders offset offset2 length];
      rewrite ?Hsub, ?Hoff2, Hctx, Hoff, Hlen, <- !app_assoc; cbn [app]; split; reflexivity. }
  destruct (emit bufs w2) as [e2 w3|] eqn:He2; [|destruct err; discriminate Hget].
  destruct (emit_keeps_head bufs w2 e2 w3 Hw2 He2) as [Hh Hs].
  assert (Hw : w = w3) by (destruct e2; inversion Hget; reflexivity).
  subst w. rewrite Hh, Hs. destruct Hhead as [H1 H2]. split; assumption.
Qed.

Lemma ranged_get_announces_window_witness :
  initialWriter emptyCtx (Window 100 199) = mkWriter emptyCtx 0 0 0 100 199 true false
  /\ plan recording [] = Some ([bytes (ramp 0 100); bytes (ramp 100 200)], None)
  /\ handleError None = false
  /\ streamLen [bytes (ramp 0 100); bytes (ramp 100 200)] < Int64.max_int
  /\ exists e w, onGet emptyCtx (Window 100 199) true recording [] = Finished e w
       /\ respStatus (ctx w) = Some 206
       /\ respHeaders (ctx w)
          = respHeaders emptyCtx
            ++ [AcceptRangesBytes; ContentTypeMp4;
                ContentRange 100 (if 199 =? Int64.max_int
                                  then streamLen [bytes (ramp 0 100); bytes (ramp 100 200)] - 1
                                  else 199)
                             (streamLen [bytes (ramp 0 100); bytes (ramp 100 200)])].
Proof.
  assert (Hb : streamLen [bytes (ramp 0 100); bytes (ramp 100 200)] < Int64.max_int)
    by (destruct recording_bounds as [_ ->]; reflexivity).
  split; [reflexivity|]. split; [exact recording_plan|]. split; [reflexivity|].
  split; [exact Hb|].
  destruct (recording_get (Window 100 199) (or_introl eq_refl)) as (e & w & Hrun).
  exists e, w. split; [exact Hrun|].
  apply (ranged_get_announces_window emptyCtx (Window 100 199) 100 199 recording []
           _ None e w eq_refl recording_plan eq_refl Hb Hrun).
Defined.

End RangeAnnounced.

(** ** The [Range] header *)

Section RangeHeaderFacts.

Import RangeWriter Playback RangeHeader Inputs.

Lemma indexFrom_first (u : list ascii) (c : ascii) (rest : list ascii) : forall i : Z,
  Forall (fun x => x <> c) u ->
  indexFrom (u ++ c :: rest) c i = i + Z.of_nat (List.length u).
Proof.
  induction u as [|x u IH]; intros i Hu; cbn [app indexFrom List.length].
  - rewrite Ascii.eqb_refl. lia.
  - apply Forall_cons in Hu. destruct Hu as [Hx Hu].
    destruct (Ascii.eqb_spec x c); [contradiction|]. rewrite IH by exact Hu. lia.
Qed.

(** X6: the header is cut at its first [=] and its first [-]: what
    lies between them is the start, what follows the dash the end.  A
    start that is no number, an empty one included (as in
    [bytes=-500]), makes the request an unranged one; an end is read
    with its sign, so that [bytes=0--5] asks for the window from 0 to
    -5. *)
Theorem parseRange_cuts_at_first_equals_and_dash (unit start rest : string) :
  Forall (fun c => c <> "="%char /\ c <> "-"%char) (list_ascii_of_string unit) ->
  Forall (fun c => c <> "-"%char) (list_ascii_of_string start) ->
  parseRange (unit +:+ "=" +:+ start +:+ "-" +:+ rest)
  = match Atoi start with
    | None => NoRange
    | Some a =>
        match rest with
        | EmptyString => From a
        | _ => match Atoi rest with
               | None => FromBadEnd a
               | Some b => Window a b
               end
        end
    end.
Proof.
  intros Hu Hs. unfold parseRange, IndexRune, substr, substrFrom.
  rewrite !list_of_append.
  set (u := list_ascii_of_string unit) in *. set (s := list_ascii_of_string start) in *.
  set (r := list_ascii_of_string rest).
  change (list_ascii_of_string "=") with ["="%char].
  change (list_ascii_of_string "-") with ["-"%char]. cbn [app].
  rewrite (indexFrom_first u "=" (s ++ "-"%char :: r) 0)
    by (eapply Forall_impl; [exact Hu | intros x [H _]; exact H]).
  replace (u ++ "="%char :: s ++ "-"%char :: r) with ((u ++ "="%char :: s) ++ "-"%char :: r)
    by (rewrite <- app_assoc; reflexivity).
  rewrite (indexFrom_first (u ++ "="%char :: s) "-" r 0).
  2:{ apply Forall_app. split; [eapply Forall_impl; [exact Hu | intros x [_ H]; exact H]|].
      constructor; [discriminate | exact Hs]. }
  rewrite length_app. cbn [List.length].
  destruct (Z.geb_spec (0 + Z.of_nat (List.length u)) 0) as [_|]; [|lia].
  destruct (Z.gtb_spec (0 + Z.of_nat (List.length u + S (List.length s)))
                       (0 + Z.of_nat (List.length u))) as [_|]; [|lia].
  cbn [andb].
  replace (Z.to_nat (0 + Z.of_nat (List.length u) + 1)) with (List.length (u ++ ["="%char]))
    by (rewrite length_app; cbn [List.length]; lia).
  replace (Z.to_nat (0 + Z.of_nat (List.length u + S (List.length s))
                     - (0 + Z.of_nat (List.length u) + 1)))
    with (List.length s) by lia.
  replace (Z.to_nat (0 + Z.of_nat (List.length u + S (List.length s)) + 1))
    with (List.length ((u ++ "="%char :: s) ++ ["-"%char]))
    by (rewrite !length_app; cbn [List.length]; lia).
  replace ((u ++ "="%char :: s) ++ "-"%char :: r) with ((u ++ ["="%char]) ++ s ++ "-"%char :: r)
    at 1 by (rewrite <- !app_assoc; reflexivity).
  rewrite drop_app_length, take_app_length.
  replace ((u ++ "="%char :: s) ++ "-"%char :: r) with (((u ++ "="%char :: s) ++ ["-"%char]) ++ r)
    by (rewrite <- !app_assoc; reflexivity).
  rewrite drop_app_length.
  subst s r. rewrite !string_of_list_ascii_of_string.
  destruct (Atoi start) as [a|]; [|reflexivity].
  destruct rest as [|c rest]; [reflexivity|].
  cbn [String.length]. destruct (Z.ltb_spec 0 (Z.of_nat (S (String.length rest)))); [reflexivity | lia].
Qed.

Lemma parseRange_cuts_at_first_equals_and_dash_witness :
  Forall (fun c => c <> "="%char /\ c <> "-"%char) (list_ascii_of_string "bytes")
  /\ Forall (fun c => c <> "-"%char) (list_ascii_of_string "0")
  /\ parseRange ("bytes" +:+ "=" +:+ "0" +:+ "-" +:+ "-5") = Window 0 (-5).
Proof.
  assert (Hu : Forall (fun c => c <> "="%char /\ c <> "-"%char) (list_ascii_of_string "bytes"))
    by (cbn; repeat constructor; intros H; discriminate H).
  assert (Hs : Forall (fun c => c <> "-"%char) (list_ascii_of_string "0"))
    by (cbn; repeat constructor; intros H; discriminate H).
  split; [exact Hu|]. split; [exact Hs|].
  apply (parseRange_cuts_at_first_equals_and_dash "bytes" "0" "-5" Hu Hs).
Defined.

(** X7: a window from 0 whose end is below -1 makes the handler
    panic in its second pass: the first buffer is cut at a negative
    length. *)
Theorem onGet_negative_end_panics
        (c : ginContext) (b : Z) (segments : list segment) (flushed : list slice)
        (p : slice) (bufs : list slice) (err : option goerror) :
  plan segments flushed = Some (p :: bufs, err) ->
  handleError err = false ->
  streamLen (p :: bufs) < Int64.max_int ->
  Int64.in_range b -> b <= -2 ->
  onGet c (Window 0 b) true segments flushed = MuxPanicked.
Proof.
  intros Hplan Herr Hb Hr Hneg.
  rewrite (onGet_two_passes c (Window 0 b) 0 b true segments flushed eq_refl). cbv zeta.
  rewrite seekAndMux_plan, Hplan.
  pose proof (streamLen_nonneg (p :: bufs)) as Hn.
  destruct (emit_pass1 (p :: bufs) (mkWriter c 0 0 0 0 b true false))
    as (w1 & He & Hctx & Hlen & _ & Hoff & Hoff2 & Hsk & Hsent & _);
    [reflexivity | cbn [length]; lia | cbn [length]; lia |].
  cbn [ctx length offset offset2 skipped sent] in Hctx, Hlen, Hoff, Hoff2, Hsk, Hsent.
  rewrite He, Herr. rewrite seekAndMux_plan, Hplan.
  assert (Hmax : (b =? Int64.max_int) = false).
  { apply Z.eqb_neq. rewrite max_int_value. lia. }
  rewrite Hoff2, Hmax.
  cbn [emit]. unfold Write.
  cbn [pass1 set_written set_pass1 set_ctx skipped offset ensureHeaders written sent offset2].
  rewrite Hsk, Hoff, Hsent, Hoff2. cbn [Z.geb Z.compare].
  rewrite streamLen_cons in Hb. pose proof (len_nonneg p) as Hp.
  pose proof (streamLen_nonneg bufs) as Hn'.
  rewrite (add_id 0 (len p))
    by (unfold Int64.in_range; rewrite max_int_value, min_int_value in *; lia).
  rewrite (add_id (0 + len p) 1)
    by (unfold Int64.in_range; rewrite max_int_value, min_int_value in *; lia).
  destruct (Z.gtb_spec (0 + len p + 1) b) as [_|]; [|lia].
  rewrite (add_id b 1)
    by (unfold Int64.in_range in *; rewrite max_int_value, min_int_value in *; lia).
  rewrite (sub_id (b + 1) 0)
    by (unfold Int64.in_range in *; rewrite max_int_value, min_int_value in *; lia).
  unfold slice_to. destruct (Z.leb_spec 0 (b + 1 - 0)) as [|_]; [lia|]. reflexivity.
Qed.

Lemma onGet_negative_end_panics_witness :
  plan recording [] = Some (bytes (ramp 0 100) :: [bytes (ramp 100 200)], None)
  /\ handleError None = false
  /\ streamLen (bytes (ramp 0 100) :: [bytes (ramp 100 200)]) < Int64.max_int
  /\ Int64.in_range (-5) /\ -5 <= -2
  /\ onGet emptyCtx (Window 0 (-5)) true recording [] = MuxPanicked.
Proof.
  assert (Hb : streamLen (bytes (ramp 0 100) :: [bytes (ramp 100 200)]) < Int64.max_int)
    by (destruct recording_bounds as [_ ->]; reflexivity).
  assert (Hr : Int64.in_range (-5))
    by (unfold Int64.in_range; rewrite max_int_value, min_int_value; lia).
  assert (Hn : -5 <= -2) by lia.
  split; [exact recording_plan|]. split; [reflexivity|]. split; [exact Hb|].
  split; [exact Hr|]. split; [exact Hn|].
  apply (onGet_negative_end_panics emptyCtx (-5) recording [] _ _ None
           recording_plan eq_refl Hb Hr Hn).
Defined.

End RangeHeaderFacts.

(** ** Sidecar codec: what a write leaves on the disk *)

Section SidecarDisk.

Import GoTime History SidecarLayout Sidecar Inputs.

Lemma length_append (s u : string) :
  String.length (s +:+ u) = (String.length s + String.length u)%nat.
Proof.
  induction s as [|c s IH]; [reflexivity|].
  change (S (String.length (s +:+ u)) = S (String.length s + String.length u))%nat.
  f_equal. exact IH.
Qed.

Lemma tmp_name_differs (s : string) : (s +:+ ".tmp")%string <> s.
Proof.
  intros Heq. apply (f_equal String.length) in Heq. rewrite length_append in Heq.
  cbn in Heq. lia.
Qed.

Lemma fileWrite_frame (d : disk) (name : string) (b : list Z) (p : string) :
  p <> name ->
  files (fst (fileWrite d name b)) !! p = files d !! p.
Proof.
  intros Hp. unfold fileWrite.
  destruct (Z.of_nat (length b) <=? budget d); cbn [fst files];
    apply lookup_insert_ne; congruence.
Qed.

Lemma fileWrite_denied (d : disk) (name : string) (b : list Z) :
  denied (fst (fileWrite d name b)) = denied d.
Proof. unfold fileWrite. destruct (Z.of_nat (length b) <=? budget d); reflexivity. Qed.

Lemma fileWrite_keeps_file (d : disk) (name : string) (b : list Z) :
  is_Some (files (fst (fileWrite d name b)) !! name).
Proof.
  unfold fileWrite. destruct (Z.of_nat (length b) <=? budget d); cbn [fst files];
    rewrite lookup_insert_eq; eexists; reflexivity.
Qed.

Lemma writeEntries_frame (tmpFile : string) (idx : list indexEntry) (p : string) :
  forall d : disk,
  p <> tmpFile ->
  files (fst (writeEntries d tmpFile idx)) !! p = files d !! p.
Proof.
  induction idx as [|e idx IH]; intros d Hp; cbn [writeEntries]; [reflexivity|].
  destruct (MarshalBinary (Time e)) as [b|err]; [|reflexivity].
  set (b' := if Nat.eqb (length b) 15 then b ++ [0] else b).
  pose proof (fileWrite_frame d tmpFile b' p Hp) as Hf1.
  destruct (fileWrite d tmpFile b') as [d1 [err|]] eqn:H1; cbn [fst] in Hf1;
    [assumption|].
  pose proof (fileWrite_frame d1 tmpFile (putInt64 (Offset e)) p Hp) as Hf2.
  destruct (fileWrite d1 tmpFile (putInt64 (Offset e))) as [d2 [err|]] eqn:H2;
    cbn [fst] in Hf2 |- *; [congruence|].
  rewrite (IH d2 Hp). congruence.
Qed.

Lemma writeEntries_denied (tmpFile : string) (idx : list indexEntry) :
  forall d : disk, denied (fst (writeEntries d tmpFile idx)) = denied d.
Proof.
  induction idx as [|e idx IH]; intros d; cbn [writeEntries]; [reflexivity|].
  destruct (MarshalBinary (Time e)) as [b|err]; [|reflexivity].
  set (b' := if Nat.eqb (length b) 15 then b ++ [0] else b).
  pose proof (fileWrite_denied d tmpFile b') as Hf1.
  destruct (fileWrite d tmpFile b') as [d1 [err|]] eqn:H1; cbn [fst] in Hf1;
    [assumption|].
  pose proof (fileWrite_denied d1 tmpFile (putInt64 (Offset e))) as Hf2.
  destruct (fileWrite d1 tmpFile (putInt64 (Offset e))) as [d2 [err|]] eqn:H2;
    cbn [fst] in Hf2 |- *; [congruence|].
  rewrite (IH d2). congruence.
Qed.

Lemma writeEntries_keeps_file (tmpFile : string) (idx : list indexEntry) :
  forall d : disk,
  is_Some (files d !! tmpFile) ->
  is_Some (files (fst (writeEntries d tmpFile idx)) !! tmpFile).
Proof.
  induction idx as [|e idx IH]; intros d Hd; cbn [writeEntries]; [exact Hd|].
  destruct (MarshalBinary (Time e)) as [b|err]; [|exact Hd].
  set (b' := if Nat.eqb (length b) 15 then b ++ [0] else b).
  pose proof (fileWrite_keeps_file d tmpFile b') as H1.
  destruct (fileWrite d tmpFile b') as [d1 [err|]]; cbn [fst] in H1; [exact H1|].
  pose proof (fileWrite_keeps_file d1 tmpFile (putInt64 (Offset e))) as H2.
  destruct (fileWrite d1 tmpFile (putInt64 (Offset e))) as [d2 [err|]]; cbn [fst] in H2;
    [exact H2|].
  apply IH, H2.
Qed.

(** The disk after the header and the records went to the temporary
    file. *)
Lemma written_frame (d : disk) (tmpFile : string) (idx : list indexEntry) (p : string) :
  let d1 := mkDisk (<[tmpFile := []]> (files d)) (denied d) (budget d) in
  let d3 := fst (writeEntries (fst (fileWrite d1 tmpFile header)) tmpFile idx) in
  (p <> tmpFile -> files d3 !! p = files d !! p)
  /\ denied d3 = denied d
  /\ is_Some (files d3 !! tmpFile).
Proof.
  intros d1 d3. split; [|split].
  - intros Hp. subst d3.
    rewrite (writeEntries_frame tmpFile idx p _ Hp).
    rewrite (fileWrite_frame d1 tmpFile header p Hp).
    subst d1. cbn [files]. apply lookup_insert_ne. congruence.
  - subst d3. rewrite writeEntries_denied, fileWrite_denied. reflexivity.
  - apply writeEntries_keeps_file, fileWrite_keeps_file.
Qed.

(** X8: [writeIndex] changes no file other than the sidecar of the
    segment and its temporary file, whatever it returns; and the
    temporary file never outlives the call: afterwards it does not
    exist, unless it could not be created, in which case the call
    returns that error and the disk is as before. *)
Theorem writeIndex_footprint (d : disk) (segPath : string) (idx : list indexEntry) :
  (forall p : string,
     p <> indexFileName segPath ->
     p <> (indexFileName segPath +:+ ".tmp")%string ->
     files (fst (writeIndex d segPath idx)) !! p = files d !! p)
  /\ (((indexFileName segPath +:+ ".tmp")%string ∈ denied d
       /\ writeIndex d segPath idx = (d, Some ErrIO))
      \/ (((indexFileName segPath +:+ ".tmp")%string ∉ denied d)
          /\ files (fst (writeIndex d segPath idx)) !! (indexFileName segPath +:+ ".tmp")%string
             = None)).
Proof.
  set (tmpFile := (indexFileName segPath +:+ ".tmp")%string).
  unfold writeIndex, osCreate. fold tmpFile.
  destruct (decide (tmpFile ∈ denied d)) as [Hin|Hout].
  { split; [intros; reflexivity | left; split; [exact Hin | reflexivity]]. }
  cbn match.
  pose proof (written_frame d tmpFile idx) as Hframe. cbv zeta in Hframe.
  set (d3 := fst (writeEntries _ _ idx)) in *.
  destruct (Hframe tmpFile) as (_ & _ & [content Hs]).
  unfold osRename. rewrite Hs. split.
  - intros p Hi Ht. destruct (Hframe p) as (Hf & _ & _). specialize (Hf Ht).
    destruct (decide (_ ∈ denied d3)); cbn [fst osRemove files].
    + rewrite lookup_delete_ne by congruence. exact Hf.
    + rewrite lookup_insert_ne by congruence. rewrite lookup_delete_ne by congruence.
      exact Hf.
  - right. split; [exact Hout|].
    destruct (decide (_ ∈ denied d3)); cbn [fst osRemove files].
    + apply lookup_delete_eq.
    + rewrite lookup_insert_ne by (intros H; exact (tmp_name_differs _ (eq_sym H))).
      apply lookup_delete_eq.
Qed.

(** X9: when [writeIndex] returns an error, the sidecar file is as it
    was before the call: absent if it was absent, with its old content
    otherwise. *)
Theorem writeIndex_error_keeps_sidecar
        (d d' : disk) (segPath : string) (idx : list indexEntry) (e : goerror) :
  writeIndex d segPath idx = (d', Some e) ->
  files d' !! indexFileName segPath = files d !! indexFileName segPath.
Proof.
  unfold writeIndex, osCreate.
  destruct (decide (_ ∈ denied d)); [intros H; inversion H; reflexivity|].
  cbn match.
  destruct (written_frame d (indexFileName segPath +:+ ".tmp") idx (indexFileName segPath))
    as (Hf & Hd & Hs).
  cbv zeta in Hf, Hd, Hs.
  specialize (Hf (fun H => tmp_name_differs _ (eq_sym H))).
  set (d3 := fst (writeEntries _ _ idx)) in *.
  unfold osRename. destruct Hs as [content Hs]. rewrite Hs.
  destruct (decide (_ ∈ denied d3)); intros H; inversion H; subst.
  cbn [osRemove files]. rewrite lookup_delete_ne by apply tmp_name_differs. exact Hf.
Qed.

End SidecarDisk.

(** ** Sidecar codec: files that end early *)

Section SidecarTruncated.

Import GoTime History SidecarLayout Sidecar Inputs.

Lemma readEntries_app (idx : list indexEntry) (tail : list Z) : forall fuel acc,
  Forall codable idx -> (length idx <= fuel)%nat ->
  exists idx', readEntries fuel (concat (record <$> idx) ++ tail) acc
               = readEntries (fuel - length idx) tail (acc ++ idx')
               /\ Forall2 same_entry idx idx'.
Proof.
  induction idx as [|e idx IH]; intros fuel acc Hc Hf.
  - exists []. rewrite app_nil_r, Nat.sub_0_r. split; [reflexivity | constructor].
  - destruct fuel as [|fuel]; [cbn in Hf; lia|].
    apply Forall_cons in Hc. destruct Hc as [He Hc].
    pose proof He as (Hs & Hn & Hz & Ho).
    destruct (decode_slot (Time e) Hs Hn Hz) as (Hl & x' & Hdec & Hsec & Hnsec).
    cbn [fmap list_fmap concat readEntries]. unfold record at 1.
    rewrite <- !app_assoc. rewrite (fileRead_app _ _ Hl). rewrite Hl. cbn [Nat.eqb negb].
    rewrite Hdec. rewrite binaryReadInt64_app, (int64_roundtrip _ Ho).
    destruct (IH fuel (acc ++ [mkEntry x' (Offset e)]) Hc) as (idx' & Hrd & Hall);
      [cbn [length] in Hf; lia|].
    exists (mkEntry x' (Offset e) :: idx'). split.
    + change (list_fmap indexEntry (list Z) record idx) with (record <$> idx).
      rewrite Hrd, <- app_assoc. reflexivity.
    + constructor; [|exact Hall]. split; [|reflexivity].
      unfold GoTime.Equal. cbn [Time]. rewrite Hsec, Hnsec, !Z.eqb_refl. reflexivity.
Qed.

(** [readIndexFile] on a file of complete records followed by [tail]. *)
Lemma readIndexFile_app (d : disk) (indexPath : string) (idx : list indexEntry)
      (tail : list Z) :
  files d !! indexPath = Some (sidecarBytes idx ++ tail) ->
  Forall codable idx ->
  exists idx' fuel,
    Forall2 same_entry idx idx'
    /\ readIndexFile d indexPath
       = match readEntries (S fuel) tail idx' with
         | (lst, err) =>
             if negb (err_is err EOF) && negb (err_is err ErrUnexpectedEOF)
             then ([], err) else (lst, None)
         end.
Proof.
  intros Hf Hc. unfold readIndexFile. rewrite Hf. unfold sidecarBytes.
  rewrite <- app_assoc. rewrite (fileRead_app header _ eq_refl).
  cbn [is_nil_err negb orb]. change (Nat.eqb (length header) 16) with true.
  cbn [negb orb].
  change (negb (at_ header 0 =? 83) && negb (at_ header 1 =? 73)
          && negb (at_ header 2 =? 68) && negb (at_ header 3 =? 88)) with false.
  cbn match.
  destruct (readEntries_app idx tail (S (length (concat (record <$> idx) ++ tail))) [] Hc)
    as (idx' & Hrd & Hall).
  { rewrite length_app, (length_records idx Hc). lia. }
  rewrite Hrd. cbn [app]. exists idx'.
  exists (length (concat (record <$> idx) ++ tail) - length idx)%nat.
  split; [exact Hall|].
  replace (S (length (concat (record <$> idx) ++ tail)) - length idx)%nat
    with (S (length (concat (record <$> idx) ++ tail) - length idx)); [reflexivity|].
  rewrite length_app, (length_records idx Hc). lia.
Qed.

(** X10: a sidecar file that ends inside the time field of a record (1
    to 15 bytes after the last complete record) is read as the empty
    list with no error: the complete records before the cut are
    dropped, and the caller is not told. *)
Theorem readIndexFile_cut_in_time_field
        (d : disk) (indexPath : string) (idx : list indexEntry) (tail : list Z) :
  files d !! indexPath = Some (sidecarBytes idx ++ tail) ->
  Forall codable idx ->
  (0 < length tail < 16)%nat ->
  readIndexFile d indexPath = ([], None).
Proof.
  intros Hf Hc Ht.
  destruct (readIndexFile_app d indexPath idx tail Hf Hc) as (idx' & fuel & _ & ->).
  cbn [readEntries]. unfold fileRead.
  destruct tail as [|z tail]; [cbn in Ht; lia|].
  rewrite length_take.
  replace (Nat.eqb (16 `min` length (z :: tail)) 16) with false
    by (symmetry; apply Nat.eqb_neq; lia).
  reflexivity.
Qed.

(** X11: a sidecar file that ends after the time field of a record and
    before the end of its offset (0 to 7 bytes of it) is read as the
    complete records before that one, with no error. *)
Theorem readIndexFile_cut_in_offset_field
        (d : disk) (indexPath : string) (idx : list indexEntry)
        (x : GoTime.t) (part : list Z) :
  files d !! indexPath = Some (sidecarBytes idx ++ slot x ++ part) ->
  Forall codable idx ->
  Int64.in_range (sec x) -> normal x -> zone_ok (loc x) ->
  (length part < 8)%nat ->
  exists idx', readIndexFile d indexPath = (idx', None) /\ Forall2 same_entry idx idx'.
Proof.
  intros Hf Hc Hs Hn Hz Hp.
  destruct (readIndexFile_app d indexPath idx _ Hf Hc) as (idx' & fuel & Hall & ->).
  exists idx'. split; [|exact Hall].
  destruct (decode_slot x Hs Hn Hz) as (Hl & x' & Hdec & _).
  cbn [readEntries]. rewrite (fileRead_app _ _ Hl), Hl. cbn [Nat.eqb negb].
  rewrite Hdec. unfold binaryReadInt64. rewrite take_ge by lia.
  destruct part as [|z part]; [reflexivity|].
  cbn [length Nat.eqb]. replace (S (length part) <? 8)%nat with true; [reflexivity|].
  symmetry. apply Nat.ltb_lt. cbn [length] in Hp. lia.
Qed.

(** X12: a record whose time field does not start with a version byte
    [UnmarshalBinary] knows makes the read fail as a whole: no entry is
    returned, not even from the complete records before it. *)
Theorem readIndexFile_rejects_unknown_time_version
        (d : disk) (indexPath : string) (idx : list indexEntry) (tail : list Z) :
  files d !! indexPath = Some (sidecarBytes idx ++ tail) ->
  Forall codable idx ->
  (16 <= length tail)%nat ->
  at_ tail 0 <> 1 -> at_ tail 0 <> 2 ->
  readIndexFile d indexPath = ([], Some ErrTimeUnmarshal).
Proof.
  intros Hf Hc Ht H1 H2.
  destruct (readIndexFile_app d indexPath idx tail Hf Hc) as (idx' & fuel & _ & ->).
  cbn [readEntries]. unfold fileRead.
  destruct tail as [|z tail]; [cbn in Ht; lia|].
  rewrite length_take. replace (Nat.eqb (16 `min` length (z :: tail)) 16) with true
    by (symmetry; apply Nat.eqb_eq; lia).
  cbn [negb]. unfold at_ in *. cbn [nth take] in *.
  destruct (Z.eqb_spec z 1) as [|_]; [contradiction|].
  unfold UnmarshalBinary. unfold timeBinaryVersionV1, timeBinaryVersionV2.
  destruct (Z.eqb_spec z 1) as [|_]; [contradiction|].
  destruct (Z.eqb_spec z 2) as [|_]; [contradiction|].
  reflexivity.
Qed.

End SidecarTruncated.

(** ** Name of the sidecar file *)

Section SidecarName.

Import Sidecar.

Lemma extLen_dot (l r : list ascii) : forall i : nat,
  Forall plain l -> extLen (l ++ "."%char :: r) i = S (i + length l).
Proof.
  induction l as [|c l IH]; intros i Hl.
  - cbn. f_equal. lia.
  - apply Forall_cons in Hl. destruct Hl as [[Hd Hs] Hl].
    cbn [app extLen length].
    destruct (Ascii.eqb_spec c "/"); [contradiction|].
    destruct (Ascii.eqb_spec c "."); [contradiction|].
    rewrite IH by exact Hl. lia.
Qed.

Lemma extLen_slash (l r : list ascii) : forall i : nat,
  Forall plain l -> extLen (l ++ "/"%char :: r) i = 0%nat.
Proof.
  induction l as [|c l IH]; intros i Hl.
  - reflexivity.
  - apply Forall_cons in Hl. destruct Hl as [[Hd Hs] Hl].
    cbn [app extLen].
    destruct (Ascii.eqb_spec c "/"); [contradiction|].
    destruct (Ascii.eqb_spec c "."); [contradiction|].
    apply IH, Hl.
Qed.

(** X13: the sidecar of a segment file [stem.ext] is [stem.idx]: the
    extension from the last dot on is replaced, dots and slashes in
    the stem stay; and a file name without a dot in its last element
    gets [.idx] appended. *)
Theorem indexFileName_replaces_extension (stem ext : string) :
  Forall plain (list_ascii_of_string ext) ->
  indexFileName (stem +:+ "." +:+ ext) = (stem +:+ ".idx")%string
  /\ indexFileName (stem +:+ "/" +:+ ext) = (stem +:+ "/" +:+ ext +:+ ".idx")%string.
Proof.
  intros Hp. unfold indexFileName, pathExt.
  rewrite !list_of_append. set (s := list_ascii_of_string stem).
  set (x := list_ascii_of_string ext) in *.
  change (list_ascii_of_string ".") with ["."%char].
  change (list_ascii_of_string "/") with ["/"%char].
  rewrite !rev_app_distr. cbn [rev app]. rewrite <- !app_assoc. cbn [app]. split.
  - rewrite extLen_dot by (apply Forall_rev, Hp).
    rewrite length_rev, !length_app. cbn [length Nat.add].
    replace (length s + S (length x) - S (length x))%nat with (length s) by lia.
    rewrite drop_app_length, length_string_of. cbn [length].
    replace (length s + S (length x) - S (length x))%nat with (length s) by lia.
    rewrite take_app_length. subst s. rewrite string_of_list_ascii_of_string. reflexivity.
  - rewrite extLen_slash by (apply Forall_rev, Hp).
    rewrite Nat.sub_0_r, drop_all. cbn [string_of_list_ascii String.length].
    rewrite Nat.sub_0_r, firstn_all.
    rewrite !string_of_app. subst s x. rewrite !string_of_list_ascii_of_string.
    cbn [string_of_list_ascii]. rewrite string_of_list_ascii_of_string.
    apply (append_assoc stem (String "/" ext) ".idx").
Qed.

End SidecarName.

(** ** Seek hint, merge and pruning: what follows from the loops *)

Section IndexFacts.

Import TimeIndex History Inputs.

(** X14: a seek hint other than 0 is the offset of an entry of the
    path that is not after the requested start, and the entry that
    follows it in the list is after the start: the hint never points
    past the requested time. *)
Theorem FindBestOffset_hint_is_not_after_start
        (i : index) (pathName : string) (start : GoTime.t) :
  FindBestOffset i pathName start <> 0 ->
  exists (l : list indexEntry) (n : nat) (e e' : indexEntry),
    entries i !! pathName = Some l
    /\ l !! n = Some e /\ l !! S n = Some e'
    /\ Offset e = FindBestOffset i pathName start
    /\ GoTime.After (Time e) start = false
    /\ GoTime.After (Time e') start = true.
Proof.
  unfold FindBestOffset, GoTime.Truncate0.
  destruct (entries i !! pathName) as [l|] eqn:Hl; [|intros H; contradiction].
  rewrite (findFrom_list_find l start l 0). cbn [Nat.add].
  destruct (list_find _ l) as [[k e']|] eqn:Hfind; [|intros H; contradiction].
  apply list_find_Some in Hfind. destruct Hfind as (Hk & He' & Hmin).
  destruct (bool_decide_reflect ((0 < k)%nat /\ Offset e' <> 0)) as [[Hpos _]|];
    [|intros H; contradiction].
  destruct (l !! (k - 1)%nat) as [e|] eqn:He; cbn [from_option]; [|intros H; contradiction].
  intros _. exists l, (k - 1)%nat, e, e'.
  replace (S (k - 1)) with k by lia.
  repeat split; try assumption; try reflexivity.
  specialize (Hmin (k - 1)%nat e He ltac:(lia)).
  destruct (GoTime.After (Time e) start); [contradiction Hmin; reflexivity | reflexivity].
Qed.

Lemma insertLeft_Permutation {A : Type} (cmp : A -> A -> Z) (x : A) (acc : list A) :
  insertLeft cmp x acc ≡ₚ x :: acc.
Proof.
  induction acc as [|y ys IH]; cbn [insertLeft]; [reflexivity|].
  destruct (cmp x y <? 0); [|reflexivity].
  rewrite IH. apply Permutation_swap.
Qed.

Lemma fold_insertLeft_Permutation {A : Type} (cmp : A -> A -> Z) (l : list A) :
  forall acc : list A,
  fold_left (fun acc x => insertLeft cmp x acc) l acc ≡ₚ l ++ acc.
Proof.
  induction l as [|x l IH]; intros acc; cbn [fold_left app]; [reflexivity|].
  rewrite IH, insertLeft_Permutation. symmetry. apply Permutation_middle.
Qed.

Lemma SortStableFunc_Permutation {A : Type} (cmp : A -> A -> Z) (l : list A) :
  SortStableFunc l cmp ≡ₚ l.
Proof.
  unfold SortStableFunc. rewrite <- Permutation_rev, fold_insertLeft_Permutation.
  rewrite app_nil_r. reflexivity.
Qed.

(** X15: merging the entries of a segment into a path's list loses no
    entry and invents none: the new list is a rearrangement of the old
    list followed by the merged entries, duplicates included. *)
Theorem appendIndex_is_a_rearrangement
        (i : index) (pathName : string) (lst : list indexEntry) :
  exists l' : list indexEntry,
    entries (appendIndex i pathName lst) !! pathName = Some l'
    /\ l' ≡ₚ default [] (entries i !! pathName) ++ lst.
Proof.
  unfold appendIndex. cbn [entries]. rewrite lookup_insert_eq.
  eexists. split; [reflexivity|]. apply SortStableFunc_Permutation.
Qed.

(** Insertion into a sorted part none of whose elements is later. *)
Lemma insertLeft_last (x : indexEntry) (acc : list indexEntry) :
  Forall (fun y => leN y x) acc -> insertLeft indexCmp x acc = x :: acc.
Proof.
  intros Hall. destruct acc as [|y ys]; [reflexivity|]. cbn [insertLeft].
  apply Forall_cons in Hall. destruct Hall as [Hy _].
  destruct (indexCmp x y <? 0) eqn:Hc; [|reflexivity].
  apply indexCmp_neg in Hc. unfold leN in Hy. lia.
Qed.

Lemma fold_insertLeft_sorted (l : list indexEntry) : forall acc : list indexEntry,
  StronglySorted leN l ->
  Forall (fun y => Forall (fun x => leN y x) l) acc ->
  fold_left (fun acc x => insertLeft indexCmp x acc) l acc = rev l ++ acc.
Proof.
  induction l as [|x l IH]; intros acc Hs Hacc; [reflexivity|].
  apply StronglySorted_inv in Hs. destruct Hs as [Hs Hx].
  cbn [fold_left rev]. rewrite insertLeft_last.
  - rewrite IH; [rewrite <- app_assoc; reflexivity | exact Hs |].
    constructor; [exact Hx|].
    eapply Forall_impl; [exact Hacc|]. intros y Hy. apply Forall_cons in Hy. tauto.
  - eapply Forall_impl; [exact Hacc|]. intros y Hy. apply Forall_cons in Hy. tauto.
Qed.

Lemma SortStableFunc_id (l : list indexEntry) :
  StronglySorted leN l -> SortStableFunc l indexCmp = l.
Proof.
  intros Hs. unfold SortStableFunc. rewrite fold_insertLeft_sorted by (constructor || exact Hs).
  rewrite app_nil_r. apply rev_involutive.
Qed.

(** X16: the merge is stable and does nothing to a list in order: when
    the old list followed by the merged entries is already ordered by
    the instant (entries of equal instant included), the new list is
    exactly that concatenation. *)
Theorem appendIndex_in_order_appends
        (i : index) (pathName : string) (lst : list indexEntry) :
  StronglySorted leN (default [] (entries i !! pathName) ++ lst) ->
  entries (appendIndex i pathName lst) !! pathName
  = Some (default [] (entries i !! pathName) ++ lst).
Proof.
  intros Hs. unfold appendIndex. cbn [entries]. rewrite lookup_insert_eq.
  rewrite SortStableFunc_id by exact Hs. reflexivity.
Qed.

End IndexFacts.

(** ** Pruning *)

Section PruneFacts.

Import TimeIndex History Inputs.

(** The two ways [PruneIndex] ends. *)
Lemma PruneIndex_cases (i : index) (pathName : string) (cut : GoTime.t)
      (l : list indexEntry) :
  entries i !! pathName = Some l ->
  PruneIndex i pathName cut = i
  \/ exists (n0 n1 : nat) (x : indexEntry),
       l !! n0 = Some x
       /\ GoTime.Before (Time x) cut = false
       /\ (forall j y, l !! j = Some y -> (j < n0)%nat -> GoTime.Before (Time y) cut = true)
       /\ (n0 < n1)%nat
       /\ (forall s, head (drop n1 l) = Some s -> Offset s = 0)
       /\ PruneIndex i pathName cut
          = mkIndex (<[pathName := take n0 l ++ drop n1 l]> (entries i)) (running i).
Proof.
  intros Hl. unfold PruneIndex. rewrite Hl.
  destruct (Nat.eqb (length l) 0) eqn:Hlen; [left; reflexivity|]. cbn [orb].
  destruct (GoTime.Before (Time (at_ l (length l - 1))) cut) eqn:Hb; [left; reflexivity|].
  right. apply Nat.eqb_neq in Hlen.
  assert (Hz : l !! (length l - 1)%nat = Some (at_ l (length l - 1))).
  { unfold at_. rewrite nth_lookup.
    destruct (lookup_lt_is_Some_2 l (length l - 1)%nat ltac:(lia)) as [z ->]. reflexivity. }
  assert (Hin : at_ l (length l - 1) ∈ l) by (eapply list_elem_of_lookup_2, Hz).
  destruct (list_find_elem_of (fun e => GoTime.Before (Time e) cut = false) l _ Hin Hb)
    as [[n0 x] Hfind].
  rewrite pruneN0_list_find, Hfind, pruneN1_list_find. cbn [Nat.add].
  apply list_find_Some in Hfind. destruct Hfind as (Hx & Hbx & Hmin).
  replace (n0 + 1)%nat with (S n0) by lia.
  destruct (list_find (fun e => Offset e = 0) (drop (S n0) l)) as [[k s]|] eqn:Hs.
  - apply list_find_Some in Hs. destruct Hs as (Hk & Hoff & _).
    rewrite lookup_drop in Hk.
    exists n0, (S n0 + k)%nat, x. repeat split; try assumption; try lia.
    + intros j y Hj Hlt. specialize (Hmin j y Hj Hlt).
      destruct (GoTime.Before (Time y) cut); [reflexivity | contradiction Hmin; reflexivity].
    + intros s' Hs'. rewrite head_lookup, lookup_drop, Nat.add_0_r in Hs'.
      assert (s' = s) by congruence. subst s'. exact Hoff.
  - exists n0, (S n0 + length (drop (S n0) l))%nat, x.
    repeat split; try assumption; try lia.
    + intros j y Hj Hlt. specialize (Hmin j y Hj Hlt).
      destruct (GoTime.Before (Time y) cut); [reflexivity | contradiction Hmin; reflexivity].
    + intros s' Hs'. rewrite head_lookup, lookup_drop, Nat.add_0_r in Hs'.
      apply lookup_lt_Some in Hs'. rewrite length_drop in Hs'.
      apply lookup_lt_Some in Hx. lia.
Qed.

Lemma sublist_Forall {A : Type} (P : A -> Prop) (l k : list A) :
  l `sublist_of` k -> Forall P k -> Forall P l.
Proof.
  intros Hsub Hk. apply Forall_forall. intros x Hx.
  rewrite Forall_forall in Hk. apply Hk. eapply elem_of_sublist; eassumption.
Qed.

Lemma StronglySorted_sublist {A : Type} (R : A -> A -> Prop) (l k : list A) :
  l `sublist_of` k -> StronglySorted R k -> StronglySorted R l.
Proof.
  induction 1 as [|x l k Hsub IH|x l k Hsub IH]; intros Hk.
  - constructor.
  - apply StronglySorted_inv in Hk. destruct Hk as [Hk Hx].
    constructor; [apply IH, Hk|]. eapply sublist_Forall; eassumption.
  - apply StronglySorted_inv in Hk. apply IH, Hk.
Qed.

Lemma pruned_sublist {A : Type} (l : list A) (n0 n1 : nat) :
  (n0 <= n1)%nat -> take n0 l ++ drop n1 l `sublist_of` l.
Proof.
  intros Hn. rewrite <- (take_drop n0 l) at 3.
  apply sublist_app; [reflexivity|].
  replace n1 with (n0 + (n1 - n0))%nat by lia. rewrite <- drop_drop. apply sublist_drop.
Qed.

(** X17: pruning keeps every list of the index ordered by the instant,
    with normal times only. *)
Theorem PruneIndex_keeps_lists_sorted
        (i : index) (pathName : string) (cut : GoTime.t) :
  sorted_index i -> sorted_index (PruneIndex i pathName cut).
Proof.
  intros Hi. destruct (entries i !! pathName) as [l|] eqn:Hl.
  2:{ unfold PruneIndex. rewrite Hl. exact Hi. }
  destruct (PruneIndex_cases i pathName cut l Hl)
    as [->|(n0 & n1 & x & _ & _ & _ & Hlt & _ & ->)]; [exact Hi|].
  intros q k. cbn [entries]. destruct (decide (q = pathName)) as [->|Hq].
  - rewrite lookup_insert_eq. intros Hk. inversion Hk; subst k.
    destruct (Hi pathName l Hl) as [Hs Hn].
    assert (Hsub : take n0 l ++ drop n1 l `sublist_of` l) by (apply pruned_sublist; lia).
    split; [eapply StronglySorted_sublist | eapply sublist_Forall]; eassumption.
  - rewrite lookup_insert_ne by congruence. apply Hi.
Qed.

(** X18: a list that begins with the sentinel of a segment still does
    after pruning, when anything is left of it: pruning removes entries
    up to the next sentinel and never strips a segment's entries of
    the sentinel before them. *)
Theorem PruneIndex_keeps_leading_sentinel
        (i : index) (pathName : string) (cut : GoTime.t) (l l' : list indexEntry) :
  entries i !! pathName = Some l ->
  (forall s, head l = Some s -> Offset s = 0) ->
  entries (PruneIndex i pathName cut) !! pathName = Some l' ->
  forall s, head l' = Some s -> Offset s = 0.
Proof.
  intros Hl Hhead Hl' s Hs.
  destruct (PruneIndex_cases i pathName cut l Hl)
    as [Heq|(n0 & n1 & x & Hx & _ & _ & Hlt & Hnext & Heq)]; rewrite Heq in Hl'.
  - apply Hhead. congruence.
  - cbn [entries] in Hl'. rewrite lookup_insert_eq in Hl'. inversion Hl'; subst l'.
    apply head_app_Some in Hs. destruct Hs as [Hs|[_ Hs]]; [|apply Hnext, Hs].
    apply Hhead. destruct l as [|y l]; [discriminate Hx|].
    destruct n0 as [|n0]; [discriminate Hs | exact Hs].
Qed.

Lemma lex_trans (c x y : GoTime.t) :
  GoTime.Before x c = false -> GoTime.After x y = false -> GoTime.Before y c = false.
Proof.
  unfold GoTime.Before, GoTime.After. intros Hb Ha.
  apply orb_false_iff in Hb, Ha. destruct Hb as [Hb1 Hb2], Ha as [Ha1 Ha2].
  apply Z.ltb_ge in Hb1. rewrite Z.gtb_ltb in Ha1. apply Z.ltb_ge in Ha1.
  apply orb_false_iff. split; [apply Z.ltb_ge; lia|].
  apply andb_false_iff. apply andb_false_iff in Hb2, Ha2.
  destruct (Z.eqb_spec (GoTime.sec y) (GoTime.sec c)) as [Heq|]; [right | left; reflexivity].
  apply Z.ltb_ge.
  destruct Hb2 as [Hb2|Hb2], Ha2 as [Ha2|Ha2];
    try (apply Z.eqb_neq in Hb2); try (apply Z.eqb_neq in Ha2);
    try (apply Z.ltb_ge in Hb2); try (rewrite Z.gtb_ltb in Ha2; apply Z.ltb_ge in Ha2);
    lia.
Qed.

(** X19: in a list in time order, pruning drops no entry that is
    earlier than the cut. *)
Theorem PruneIndex_keeps_entries_before_cut
        (i : index) (pathName : string) (cut : GoTime.t) (l : list indexEntry)
        (e : indexEntry) :
  entries i !! pathName = Some l ->
  nondecreasing l ->
  e ∈ l -> GoTime.Before (Time e) cut = true ->
  exists l', entries (PruneIndex i pathName cut) !! pathName = Some l' /\ e ∈ l'.
Proof.
  intros Hl Hs He Hb.
  destruct (PruneIndex_cases i pathName cut l Hl)
    as [->|(n0 & n1 & x & Hx & Hbx & _ & _ & _ & ->)]; [exists l; split; assumption|].
  cbn [entries]. rewrite lookup_insert_eq. eexists. split; [reflexivity|].
  apply elem_of_app. left.
  rewrite <- (take_drop_middle l n0 x Hx) in He, Hs.
  apply elem_of_app in He. destruct He as [He|He]; [exact He|]. exfalso.
  apply StronglySorted_app_1_r, StronglySorted_inv in Hs. destruct Hs as [_ Hall].
  apply elem_of_cons in He. destruct He as [->|He]; [congruence|].
  rewrite Forall_forall in Hall. specialize (Hall e He).
  pose proof (lex_trans cut (Time x) (Time e) Hbx Hall). congruence.
Qed.

End PruneFacts.

(** ** Writing the sidecar of a recorded segment *)

Section IndexWriterFacts.

Import TimeIndex Sidecar IndexWriter History Inputs.

Lemma writeN1_run (b : GoTime.t) (rest : list indexEntry) : forall n : nat,
  exists k : nat,
    writeN1 b n rest = (n + k)%nat
    /\ (k <= length rest)%nat
    /\ Forall (fun e => GoTime.Before (Time e) b = true) (take k rest)
    /\ forall s, head (drop k rest) = Some s -> GoTime.Before (Time s) b = false.
Proof.
  induction rest as [|e rest IH]; intros n.
  - exists 0%nat. cbn. repeat split; [lia | lia | constructor | discriminate].
  - cbn [writeN1]. destruct (GoTime.Before (Time e) b) eqn:Hb; cbn [negb].
    + destruct (IH (S n)) as (k & Hk & Hle & Hall & Hnext).
      exists (S k). cbn [take drop length]. repeat split; [lia | lia | | exact Hnext].
      constructor; assumption.
    + exists 0%nat. cbn [take drop head length].
      repeat split; [lia | lia | constructor |]. intros s Hs. inversion Hs; subst. exact Hb.
Qed.

(** X20: what [WriteIndex] hands to the sidecar writer is a run of
    consecutive entries of the path, not empty, all of them before
    [b], and ending right before the first entry of the rest that is
    not before [b]; in every other case it writes nothing. *)
Theorem WriteIndex_writes_a_run_before_b
        (i : index) (d : disk) (pathName segPath : string) (a b : GoTime.t) :
  WriteIndex i d pathName segPath a b = d
  \/ exists (pre lst post : list indexEntry),
       entries i !! pathName = Some (pre ++ lst ++ post)
       /\ lst <> []
       /\ Forall (fun e => GoTime.Before (Time e) b = true) lst
       /\ (forall s, head post = Some s -> GoTime.Before (Time s) b = false)
       /\ WriteIndex i d pathName segPath a b = fst (writeIndex d segPath lst).
Proof.
  unfold WriteIndex. destruct (entries i !! pathName) as [l|]; [|left; reflexivity].
  set (n0 := writeN0 a 0 l).
  destruct (writeN1_run b (drop n0 l) n0) as (k & -> & Hle & Hall & Hnext).
  destruct (Nat.leb_spec (length l) n0) as [|Hn0]; [left; reflexivity|].
  destruct (Nat.leb_spec (n0 + k) n0) as [|Hk]; [left; reflexivity|].
  right. cbn [orb]. replace (n0 + k - n0)%nat with k by lia.
  exists (take n0 l), (take k (drop n0 l)), (drop k (drop n0 l)).
  rewrite !take_drop. repeat split; try assumption; try reflexivity.
  intros Hnil. apply (f_equal length) in Hnil. rewrite length_take in Hnil.
  cbn [length] in Hnil. lia.
Qed.

Lemma writeN0_at_start (a : GoTime.t) (pre : list indexEntry) (s : indexEntry)
      (tail : list indexEntry) : forall n : nat,
  Forall (fun e => GoTime.Equal (Time e) a = false /\ GoTime.After (Time e) a = false) pre ->
  GoTime.Equal (Time s) a = true ->
  writeN0 a n (pre ++ s :: tail) = (n + length pre)%nat.
Proof.
  induction pre as [|e pre IH]; intros n Hpre Hs; cbn [app writeN0 length].
  - rewrite Hs. lia.
  - apply Forall_cons in Hpre. destruct Hpre as [[He Ha] Hpre].
    rewrite He, Ha, IH by assumption. lia.
Qed.

Lemma writeN1_at_end (b : GoTime.t) (lst post : list indexEntry) : forall n : nat,
  Forall (fun e => GoTime.Before (Time e) b = true) lst ->
  (forall x, head post = Some x -> GoTime.Before (Time x) b = false) ->
  writeN1 b n (lst ++ post) = (n + length lst)%nat.
Proof.
  induction lst as [|e lst IH]; intros n Hl Hp; cbn [app writeN1 length].
  - destruct post as [|x post]; cbn [writeN1]; [lia|].
    rewrite (Hp x eq_refl). cbn [negb]. lia.
  - apply Forall_cons in Hl. destruct Hl as [He Hl].
    rewrite He. cbn [negb]. rewrite IH by assumption. lia.
Qed.

(** X21: called for a segment that has just been recorded, with the
    time [a] of the segment's sentinel and a time [b] after its last
    entry, [WriteIndex] writes the sidecar of exactly the entries of
    that segment: the earlier entries of the path, all before [a], and
    the entries from [b] on are left out. *)
Theorem WriteIndex_persists_the_finished_segment
        (i : index) (d : disk) (pathName segPath : string) (a b : GoTime.t)
        (pre : list indexEntry) (s : indexEntry) (frags post : list indexEntry) :
  entries i !! pathName = Some (pre ++ (s :: frags) ++ post) ->
  Forall (fun e => GoTime.Equal (Time e) a = false /\ GoTime.After (Time e) a = false) pre ->
  GoTime.Equal (Time s) a = true ->
  Forall (fun e => GoTime.Before (Time e) b = true) (s :: frags) ->
  (forall x, head post = Some x -> GoTime.Before (Time x) b = false) ->
  WriteIndex i d pathName segPath a b = fst (writeIndex d segPath (s :: frags)).
Proof.
  intros Hl Hpre Hs Hseg Hpost. unfold WriteIndex. rewrite Hl.
  change ((s :: frags) ++ post) with (s :: (frags ++ post)).
  rewrite (writeN0_at_start a pre s (frags ++ post) 0 Hpre Hs). cbn [Nat.add].
  rewrite drop_app_length.
  change (s :: (frags ++ post)) with ((s :: frags) ++ post).
  rewrite (writeN1_at_end b (s :: frags) post _ Hseg Hpost).
  replace (length pre + length (s :: frags) - length pre)%nat
    with (length (s :: frags)) by lia.
  rewrite take_app_length.
  destruct (Nat.leb_spec (length (pre ++ (s :: frags) ++ post)) (length pre)) as [Hle|_].
  { rewrite !length_app in Hle. cbn [length] in Hle. lia. }
  destruct (Nat.leb_spec (length pre + length (s :: frags)) (length pre)) as [Hle|_].
  { cbn [length] in Hle. lia. }
  reflexivity.
Qed.

End IndexWriterFacts.

(** ** Box walker: what holds for every tree of boxes *)

Section WalkerInvariant.

Import Scanner.

Context {S : Type}.
Variable handler : box -> (S -> S * option goerror) -> S -> S * option goerror.
Variable P : S -> Prop.

(** The visitor keeps [P] whenever the expansion it is given does. *)
Hypothesis handler_keeps :
  forall (b : box) (Expand : S -> S * option goerror) (s : S),
    (forall s', P s' -> P (fst (Expand s'))) ->
    P s -> P (fst (handler b Expand s)).

Lemma level_keeps (fromInternal : box -> bool -> bool -> S -> S * option goerror)
      (bs : list box) :
  Forall (fun b => forall isRoot qt s, P s -> P (fst (fromInternal b isRoot qt s))) bs ->
  forall (totalSize : Z) (isRoot qt : bool) (s : S),
    P s -> P (fst (readBoxStructureLevel fromInternal bs totalSize isRoot qt s)).
Proof.
  induction 1 as [|b bs Hb _ IH]; intros totalSize isRoot qt s Hs; cbn [readBoxStructureLevel].
  - destruct (isRoot || (totalSize >=? SmallHeaderSize)).
    + destruct isRoot; exact Hs.
    + destruct (negb (totalSize =? 0) && negb qt); exact Hs.
  - destruct (isRoot || (totalSize >=? SmallHeaderSize)).
    + destruct (negb isRoot && (bsize b >? totalSize)); [exact Hs|].
      specialize (Hb isRoot qt s Hs).
      destruct (fromInternal b isRoot qt s) as [s1 [err|]]; cbn [fst] in Hb; [exact Hb|].
      apply IH, Hb.
    + destruct (negb (totalSize =? 0) && negb qt); exact Hs.
Qed.

Lemma fromInternal_keeps (b : box) :
  forall (isRoot qt : bool) (s : S),
    P s -> P (fst (readBoxStructureFromInternal handler b isRoot qt s)).
Proof.
  induction b as [ty off size hsize isqt payload children IH] using box_nested.
  intros isRoot qt s Hs. cbn [readBoxStructureFromInternal].
  destruct (((isRoot && String.eqb ty "ftyp") || String.eqb ty "keys")
            && negb (bool_decide (is_Some payload))); [exact Hs|].
  apply handler_keeps; [|exact Hs].
  intros s' Hs'. destruct payload as [fields|]; [|exact Hs'].
  apply level_keeps; [exact IH | exact Hs'].
Qed.

Lemma ReadBoxStructure_keeps (bs : list box) (s : S) :
  P s -> P (fst (ReadBoxStructure handler bs s)).
Proof.
  intros Hs. unfold ReadBoxStructure, readBoxStructure.
  apply level_keeps; [|exact Hs].
  apply Forall_forall. intros b _. apply fromInternal_keeps.
Qed.

End WalkerInvariant.

Section ScanInvariant.

Import Scanner Fragments Inputs.

(** X22: whatever boxes a segment holds, and whether or not the scan
    fails on the way, the list [scanSegment] returns for a segment
    that opens and has an initialization begins with the sentinel of
    the segment: its start time and the offset 0. *)
Theorem scanSegment_begins_with_sentinel (seg : Segment) (tracks : list track) :
  opens seg = true -> init seg = Some tracks ->
  exists rest : list indexEntry,
    fst (scanSegment seg) = mkEntry (GoTime.Truncate0 (Start seg)) 0 :: rest.
Proof.
  intros Ho Hi. unfold scanSegment. rewrite Ho, Hi. cbn [negb].
  set (sentinel := mkEntry (GoTime.Truncate0 (Start seg)) 0).
  pose proof (ReadBoxStructure_keeps
                (scanHandler tracks (GoTime.Truncate0 (Start seg)))
                (fun s => exists rest, index s = sentinel :: rest)) as Hkeep.
  destruct (ReadBoxStructure _ (boxes seg) _) as [s err] eqn:Hrun.
  cbn [fst]. apply (f_equal fst) in Hrun. cbn [fst] in Hrun. rewrite <- Hrun.
  apply Hkeep; [|exists []; reflexivity].
  clear. intros b Expand s HE [rest Hs]. unfold scanHandler.
  destruct (String.eqb (btype b) "moof"); [apply HE; exists rest; exact Hs|].
  destruct (String.eqb (btype b) "traf"); [apply HE; exists rest; exact Hs|].
  destruct (String.eqb (btype b) "tfhd").
  { destruct (bpayload b) as [tfhd|]; [|exists rest; exact Hs].
    destruct (findInitTrack tracks (TrackID tfhd)); exists rest; exact Hs. }
  destruct (String.eqb (btype b) "tfdt"); [|exists rest; exact Hs].
  destruct (bpayload b) as [tfdt|]; [|exists rest; exact Hs].
  destruct (timeScale s =? 0); [exists rest; exact Hs|].
  cbn [fst index]. rewrite Hs. eexists. reflexivity.
Qed.

End ScanInvariant.

(** ** Segment scanner: unknown tracks, and a rebuild from scratch *)

Section ScanMore.

Import Scanner Fragments Inputs.

Lemma walk_unresolved (tracks : list track) (start : GoTime.t) (f : fragment)
      (rest : list box) (T : Z) (qt : bool) (s : scanState) :
  tfhdDecodes f = true ->
  findInitTrack tracks (fragTrack f) = None ->
  exists mo ts,
    readBoxStructure (scanHandler tracks start) (fragmentBoxes f ++ rest) T true qt s
    = (mkScan mo ts (index s), Some (ErrInvalidTrackID (fragTrack f))).
Proof.
  intros Hh Htr. unfold readBoxStructure, fragmentBoxes. rewrite Hh.
  eexists _, _.
  walk.
  replace (fragOffset f + 68 - (fragOffset f + 8 + 0)) with 60 by lia.
  walk.
  replace (fragOffset f + 24 + 44 - (fragOffset f + 24 + 8 + 0)) with 36 by lia.
  walk.
  rewrite Htr.
  walk. reflexivity.
Qed.

(** X23: a fragment whose track identifier is not one of the
    initialization ends the scan with the error that names the
    identifier; the sentinel and the entries of the fragments before
    it are returned with the error, nothing of what follows is read. *)
Theorem scanSegment_stops_at_unknown_track
        (tracks : list track) (fpath : string) (start : GoTime.t)
        (pre post : list fragment) (bad : fragment) (others : list box) :
  Forall (wellFormed tracks) pre ->
  tfhdDecodes bad = true ->
  findInitTrack tracks (fragTrack bad) = None ->
  scanSegment (segmentOf fpath start tracks (pre ++ bad :: post) others)
  = (mkEntry (GoTime.Truncate0 start) 0
       :: concat (fragmentEntry tracks (GoTime.Truncate0 start) <$> pre),
     Some (ErrInvalidTrackID (fragTrack bad))).
Proof.
  intros Hpre Hh Htr.
  unfold scanSegment, segmentOf. cbn [opens init boxes Start negb].
  unfold ReadBoxStructure. rewrite fmap_app, concat_app, <- app_assoc.
  destruct (walk_fragments tracks (GoTime.Truncate0 start) pre
              (concat (fragmentBoxes <$> bad :: post) ++ others) 0 false
              (mkScan 0 90000 [mkEntry (GoTime.Truncate0 start) 0]) Hpre)
    as (mo & ts & T1 & Hw).
  cbn [index] in Hw. rewrite Hw. cbn [fmap list_fmap concat]. rewrite <- app_assoc.
  destruct (walk_unresolved tracks (GoTime.Truncate0 start) bad
              (concat (fragmentBoxes <$> post) ++ others) T1 false
              (mkScan mo ts ([mkEntry (GoTime.Truncate0 start) 0]
                               ++ concat (fragmentEntry tracks (GoTime.Truncate0 start) <$> pre)))
              Hh Htr) as (mo' & ts' & Hb).
  rewrite Hb. reflexivity.
Qed.

(** X24: the first rebuild of a segment of well-formed fragments that
    has no usable sidecar: the scanned entries are merged into the
    path's list, and the sidecar written for the segment reads back as
    these entries, so that the next rebuild need not scan. *)
Theorem indexSegment_scans_then_persists
        (stat : gmap string Z) (pathName : string) (i : TimeIndex.index) (d : Sidecar.disk)
        (tracks : list track) (fpath : string) (start : GoTime.t) (frags : list fragment) :
  snd (Sidecar.readIndex d stat fpath) <> None ->
  Forall (wellFormed tracks) frags ->
  Forall SidecarLayout.codable (scannedEntries tracks start frags) ->
  (Sidecar.indexFileName fpath +:+ ".tmp")%string ∉ Sidecar.denied d ->
  Sidecar.indexFileName fpath ∉ Sidecar.denied d ->
  16 + 24 * Z.of_nat (length (scannedEntries tracks start frags)) <= Sidecar.budget d ->
  exists (d' : Sidecar.disk) (idx' : list indexEntry),
    Indexer.indexSegment stat pathName (i, d) (segmentOf fpath start tracks frags [])
    = (TimeIndex.appendIndex i pathName (scannedEntries tracks start frags), d')
    /\ Sidecar.readIndexFile d' (Sidecar.indexFileName fpath) = (idx', None)
    /\ Forall2 SidecarLayout.same_entry (scannedEntries tracks start frags) idx'.
Proof.
  set (lst := scannedEntries tracks start frags).
  intros Hrd Hf Hc Htmp Hidx Hb.
  destruct (writeIndex_ok d fpath lst Hc Htmp Hidx Hb) as (d' & Hw & Hfile).
  destruct (readIndexFile_ok d' _ lst Hfile Hc) as (idx' & Hr & Hall).
  exists d', idx'. split; [|split; assumption].
  unfold Indexer.indexSegment.
  change (Fpath (segmentOf fpath start tracks frags [])) with fpath.
  destruct (Sidecar.readIndex d stat fpath) as [l0 [err|]]; [|contradiction].
  rewrite (scanSegment_wellFormed tracks fpath start frags Hf).
  change (mkEntry (GoTime.Truncate0 start) 0
            :: concat (fragmentEntry tracks (GoTime.Truncate0 start) <$> frags)) with lst.
  rewrite Hw. reflexivity.
Qed.

End ScanMore.

(** ** Lock discipline of a rebuild *)

Section LockingFacts.

Import TimeIndex Rebuild Locking.

Lemma step_lock_consistent (st st' : state) (tid : nat) :
  step st tid = Some st' -> lock_consistent st -> lock_consistent st'.
Proof.
  unfold step. destruct (goroutines st !! tid) as [g|] eqn:Hg; [|discriminate].
  intros Hstep HI.
  pose proof (HI tid g Hg) as HIg.
  assert (Hother : forall tid' g', tid' <> tid -> goroutines st !! tid' = Some g' ->
                                   (holds_lock (at_pc g') = true <-> mutex st = Some tid')).
  { intros tid' g' _ H'. apply HI, H'. }
  assert (Hfree : forall tid' g', tid' <> tid -> goroutines st !! tid' = Some g' ->
                                  mutex st = Some tid ->
                                  holds_lock (at_pc g') = false).
  { intros tid' g' Hne H' Hm. destruct (holds_lock (at_pc g')) eqn:Hh; [|reflexivity].
    apply (Hother tid' g' Hne H') in Hh. congruence. }
  assert (Hnone : forall tid' g', goroutines st !! tid' = Some g' ->
                                  mutex st = None -> holds_lock (at_pc g') = false).
  { intros tid' g' H' Hm. destruct (holds_lock (at_pc g')) eqn:Hh; [|reflexivity].
    apply (HI tid' g' H') in Hh. congruence. }
  (* every step ends in a [goto] on a state whose lock is the old one,
     taken by [tid], or released by [tid] *)
  assert (Hkeep : forall next st0,
             goroutines st0 = goroutines st -> mutex st0 = mutex st ->
             holds_lock next = holds_lock (at_pc g) ->
             lock_consistent (goto st0 tid g next)).
  { intros next st0 Hgo Hmu Hh tid' g' Hg'.
    unfold goto in Hg'. cbn [goroutines] in Hg'. rewrite Hgo in Hg'.
    change (mutex (goto st0 tid g next)) with (mutex st0). rewrite Hmu.
    destruct (decide (tid' = tid)) as [->|Hne].
    - rewrite list_lookup_insert_eq in Hg' by (eapply lookup_lt_Some, Hg).
      inversion Hg'; subst. cbn [at_pc]. rewrite Hh. exact HIg.
    - rewrite list_lookup_insert_ne in Hg' by congruence. apply HI, Hg'. }
  assert (Htake : forall next st0,
             acquire st tid = Some st0 -> holds_lock next = true ->
             lock_consistent (goto st0 tid g next)).
  { intros next st0 Hacq Hh tid' g' Hg'. unfold acquire in Hacq.
    destruct (mutex st) eqn:Hm; [discriminate|]. inversion Hacq; subst st0. clear Hacq.
    unfold goto in Hg' |- *. cbn [goroutines mutex] in *.
    destruct (decide (tid' = tid)) as [->|Hne].
    - rewrite list_lookup_insert_eq in Hg' by (eapply lookup_lt_Some, Hg).
      inversion Hg'; subst. cbn [at_pc]. rewrite Hh. tauto.
    - rewrite list_lookup_insert_ne in Hg' by congruence.
      rewrite (Hnone tid' g' Hg' eq_refl). split; [discriminate|]. intros H. congruence. }
  assert (Hdrop : forall next,
             holds_lock (at_pc g) = true -> holds_lock next = false ->
             forall st0, goroutines st0 = goroutines st -> mutex st0 = None ->
             lock_consistent (goto st0 tid g next)).
  { intros next Hh Hn st0 Hgo Hmu tid' g' Hg'.
    unfold goto in Hg' |- *. cbn [goroutines mutex] in *. rewrite Hgo in Hg'. rewrite Hmu.
    destruct (decide (tid' = tid)) as [->|Hne].
    - rewrite list_lookup_insert_eq in Hg' by (eapply lookup_lt_Some, Hg).
      inversion Hg'; subst. cbn [at_pc]. rewrite Hn. split; discriminate.
    - rewrite list_lookup_insert_ne in Hg' by congruence.
      rewrite (Hfree tid' g' Hne Hg' (proj1 HIg Hh)). split; discriminate. }
  destruct (at_pc g) as [| |r|r| | | |todo|lst todo|lst todo|todo| | | |] eqn:Hpc.
  - (* Entry *)
    destruct (_ || _); [|destruct (Nat.eqb _ 0); [|destruct (negb _)]];
      inversion Hstep; subst st'; apply Hkeep; reflexivity.
  - inversion Hstep; subst st'. apply Hkeep; reflexivity.
  - destruct (acquire st tid) as [st0|] eqn:Hacq; [|discriminate].
    inversion Hstep; subst st'. eapply Htake; reflexivity.
  - destruct r; inversion Hstep; subst st'.
    + apply Hdrop; reflexivity.
    + apply Hkeep; reflexivity.
  - inversion Hstep; subst st'. apply Hkeep; reflexivity.
  - inversion Hstep; subst st'. apply Hkeep; reflexivity.
  - inversion Hstep; subst st'. apply Hdrop; reflexivity.
  - destruct todo as [|[lst|] todo]; inversion Hstep; subst st'; apply Hkeep; reflexivity.
  - destruct (acquire st tid) as [st0|] eqn:Hacq; [|discriminate].
    inversion Hstep; subst st'. eapply Htake; reflexivity.
  - inversion Hstep; subst st'. apply Hkeep; reflexivity.
  - inversion Hstep; subst st'. apply Hdrop; reflexivity.
  - destruct (acquire st tid) as [st0|] eqn:Hacq; [|discriminate].
    inversion Hstep; subst st'. eapply Htake; reflexivity.
  - inversion Hstep; subst st'. apply Hkeep; reflexivity.
  - inversion Hstep; subst st'. apply Hdrop; reflexivity.
  - discriminate.
Qed.

Lemma run_lock_consistent (schedule : list nat) : forall st st' : state,
  run st schedule = Some st' -> lock_consistent st -> lock_consistent st'.
Proof.
  induction schedule as [|tid rest IH]; intros st st' Hrun HI; cbn [run] in Hrun.
  - inversion Hrun; subst. exact HI.
  - destruct (step st tid) as [st1|] eqn:Hstep; [|discriminate].
    eapply IH; [exact Hrun|]. eapply step_lock_consistent; eassumption.
Qed.

(** X25: however the statements of any number of concurrent rebuilds
    interleave, the lock is held exactly by a goroutine that is between
    a [Lock] and its [Unlock]; so no two goroutines are there at once,
    and a goroutine that has returned does not hold the lock. *)
Theorem rebuilds_exclude_each_other
        (i : index) (calls : list goroutine) (schedule : list nat) (st : state) :
  Forall (fun g => at_pc g = Entry) calls ->
  run (start i calls) schedule = Some st ->
  lock_consistent st
  /\ (forall t1 t2 g1 g2,
        goroutines st !! t1 = Some g1 -> goroutines st !! t2 = Some g2 ->
        holds_lock (at_pc g1) = true -> holds_lock (at_pc g2) = true -> t1 = t2)
  /\ (forall t g, goroutines st !! t = Some g -> at_pc g = Done -> mutex st <> Some t).
Proof.
  intros Hcalls Hrun.
  assert (HI : lock_consistent st).
  { eapply run_lock_consistent; [exact Hrun|].
    intros tid g Hg. cbn [start goroutines mutex] in *.
    rewrite Forall_forall in Hcalls.
    rewrite (Hcalls g (list_elem_of_lookup_2 _ _ _ Hg)). cbn [holds_lock].
    split; discriminate. }
  split; [exact HI|]. split.
  - intros t1 t2 g1 g2 H1 H2 Hh1 Hh2.
    apply (HI t1 g1 H1) in Hh1. apply (HI t2 g2 H2) in Hh2. congruence.
  - intros t g Hg Hd Hm. apply (HI t g Hg) in Hm. rewrite Hd in Hm. discriminate Hm.
Qed.

End LockingFacts.

(** ** A rebuild that runs alone *)

Section LoneRebuild.

Import TimeIndex Rebuild Locking.

Lemma run_app (a b : list nat) : forall st : state,
  run st (a ++ b) = match run st a with
                    | Some st' => run st' b
                    | None => None
                    end.
Proof.
  induction a as [|t a IH]; intros st; cbn [app run]; [reflexivity|].
  destruct (step st t); [apply IH | reflexivity].
Qed.

Lemma run_loop (p : string) (segs : list (option (list indexEntry)))
      (todo : list (option (list indexEntry))) :
  forall (sh : index) (bg : list nat),
  exists n : nat,
    run (mkState sh None [mkGo p true segs (Loop todo)] bg) (repeat 0%nat n)
    = Some (mkState (fold_left (fun i seg => match seg with
                                             | Some lst => appendIndex i p lst
                                             | None => i
                                             end) todo sh)
                    None [mkGo p true segs DeferLock] bg).
Proof.
  induction todo as [|[lst|] todo IH]; intros sh bg.
  - exists 1%nat. reflexivity.
  - destruct (IH (appendIndex sh p lst) bg) as [n Hn].
    exists (4 + n)%nat. change (repeat 0%nat (4 + n)) with ([0; 0; 0; 0]%nat ++ repeat 0%nat n).
    rewrite run_app. exact Hn.
  - destruct (IH sh bg) as [n Hn].
    exists (1 + n)%nat. change (repeat 0%nat (1 + n)) with ([0]%nat ++ repeat 0%nat n).
    rewrite run_app. exact Hn.
Qed.

(** X26: a rebuild of a path that no other goroutine interferes with
    runs to its end: it returns with the lock free and the mark for the
    path removed from the running set, and the lists of the index are
    those obtained by merging, segment after segment, the entries of
    every segment that yields some. *)
Theorem lone_rebuild_completes
        (i : index) (p : string) (segs : list (option (list indexEntry))) :
  String.eqb p "all_others" || String.eqb p "all" = false ->
  segs <> [] ->
  p ∉ running i ->
  exists (n : nat) (st : state),
    run (start i [call p segs]) (repeat 0%nat n) = Some st
    /\ at_pc <$> goroutines st = [Done]
    /\ mutex st = None
    /\ entries (shared st) = entries (merged i p segs)
    /\ running (shared st) = running i.
Proof.
  intros Hname Hsegs Hrun.
  set (marked := mkIndex (entries i) ({[p]} ∪ running i)).
  set (placed := match entries marked !! p with
                 | Some _ => marked
                 | None => mkIndex (<[p := []]> (entries marked)) (running marked)
                 end).
  destruct (run_loop p segs segs placed [0%nat]) as [n Hn].
  set (final := fold_left (fun i seg => match seg with
                                        | Some lst => appendIndex i p lst
                                        | None => i
                                        end) segs placed) in Hn.
  exists (7 + (n + 3))%nat.
  exists (mkState (mkIndex (entries final) (running final ∖ {[p]})) None
                  [mkGo p true segs Done] [0%nat]).
  split; [|split; [reflexivity|split; [reflexivity|split]]].
  - rewrite repeat_app, run_app.
    assert (H7 : run (start i [call p segs]) (repeat 0%nat 7)
                 = Some (mkState placed None [mkGo p true segs (Loop segs)] [0%nat])).
    { assert (H1 : step (start i [call p segs]) 0
                   = Some (mkState i None [mkGo p true segs ReadRunning] [])).
      { unfold step, start, call. cbn. rewrite Hname.
        destruct segs; [contradiction | reflexivity]. }
      assert (H2 : step (mkState i None [mkGo p true segs ReadRunning] []) 0
                   = Some (mkState i None [mkGo p true segs (Lock1 false)] [])).
      { unfold step. cbn. rewrite bool_decide_eq_false_2 by exact Hrun. reflexivity. }
      change (repeat 0%nat 7) with ([0; 0]%nat ++ repeat 0%nat 5).
      rewrite run_app. cbn [run]. rewrite H1, H2. reflexivity. }
    rewrite H7. rewrite repeat_app, run_app, Hn. reflexivity.
  - cbn [shared entries]. subst final placed marked. unfold merged. cbn [entries running].
    set (f := fun (i : index) (seg : option (list indexEntry)) =>
                match seg with Some lst => appendIndex i p lst | None => i end).
    assert (Hfold : forall (l : list (option (list indexEntry))) (a b : index),
               entries a = entries b -> entries (fold_left f l a) = entries (fold_left f l b)).
    { induction l as [|[lst|] l IH]; intros a b Hab; cbn [fold_left f]; [exact Hab| |apply IH, Hab].
      apply IH. unfold appendIndex. cbn [entries]. rewrite Hab. reflexivity. }
    apply Hfold. destruct (entries i !! p); reflexivity.
  - cbn [shared running]. subst final.
    set (f := fun (i : index) (seg : option (list indexEntry)) =>
                match seg with Some lst => appendIndex i p lst | None => i end).
    assert (Hfold : forall (l : list (option (list indexEntry))) (a : index),
               running (fold_left f l a) = running a).
    { induction l as [|[lst|] l IH]; intros a; cbn [fold_left f]; [reflexivity| |apply IH].
      rewrite IH. reflexivity. }
    rewrite Hfold. subst placed marked. cbn [entries running].
    assert (Hset : ({[p]} ∪ running i) ∖ {[p]} = running i).
    { apply set_eq. intros x. rewrite elem_of_difference, elem_of_union, !elem_of_singleton.
      split.
      - intros [[Hx|Hx] Hne]; [contradiction | exact Hx].
      - intros Hx. split; [right; exact Hx | intros ->; contradiction]. }
    destruct (entries i !! p); cbn [running]; exact Hset.
Qed.

End LoneRebuild.

(** ** Rebuild of a path by a single caller *)

Section IndexerFacts.

Import TimeIndex Sidecar SidecarLayout Scanner Indexer.

(** X27: a sidecar that is not older than its segment and ends inside
    the time field of a record is taken as it reads, as the empty
    list: the rebuild merges nothing for the segment, does not scan it
    and does not write the sidecar anew. *)
Theorem indexSegment_trusts_truncated_sidecar
        (stat : gmap string Z) (pathName : string) (i : TimeIndex.index) (d : disk)
        (seg : Segment) (idx : list indexEntry) (tail : list Z) (tseg tidx : Z) :
  stat !! Fpath seg = Some tseg ->
  stat !! indexFileName (Fpath seg) = Some tidx ->
  tseg <= tidx ->
  files d !! indexFileName (Fpath seg) = Some (sidecarBytes idx ++ tail) ->
  Forall codable idx ->
  (0 < length tail < 16)%nat ->
  indexSegment stat pathName (i, d) seg = (appendIndex i pathName [], d).
Proof.
  intros Hseg Hidx Hle Hf Hc Ht. unfold indexSegment, readIndex.
  rewrite Hseg, Hidx.
  destruct (Z.ltb_spec tidx tseg) as [|_]; [lia|].
  destruct (readIndexFile_app d _ idx tail Hf Hc) as (idx' & fuel & _ & ->).
  cbn [readEntries]. unfold fileRead.
  destruct tail as [|z tail]; [cbn in Ht; lia|].
  rewrite length_take.
  replace (Nat.eqb (16 `min` length (z :: tail)) 16) with false
    by (symmetry; apply Nat.eqb_neq; lia).
  reflexivity.
Qed.

Lemma indexSegment_frame (stat : gmap string Z) (pathName : string)
      (st : TimeIndex.index * disk) (seg : Segment) :
  running (fst (indexSegment stat pathName st seg)) = running (fst st)
  /\ forall q, q <> pathName ->
       entries (fst (indexSegment stat pathName st seg)) !! q = entries (fst st) !! q.
Proof.
  destruct st as [i d]. unfold indexSegment.
  destruct (readIndex d stat (Fpath seg)) as [lst [err|]].
  - destruct (scanSegment seg) as [lst' [err'|]]; cbn [fst appendIndex running entries].
    + split; [reflexivity | intros; reflexivity].
    + split; [reflexivity|]. intros q Hq. apply lookup_insert_ne. congruence.
  - cbn [fst appendIndex running entries].
    split; [reflexivity|]. intros q Hq. apply lookup_insert_ne. congruence.
Qed.

Lemma fold_indexSegment_frame (stat : gmap string Z) (pathName : string)
      (segments : list Segment) : forall st : TimeIndex.index * disk,
  running (fst (fold_left (indexSegment stat pathName) segments st)) = running (fst st)
  /\ forall q, q <> pathName ->
       entries (fst (fold_left (indexSegment stat pathName) segments st)) !! q
       = entries (fst st) !! q.
Proof.
  induction segments as [|seg segments IH]; intros st; cbn [fold_left].
  - split; [reflexivity | intros; reflexivity].
  - destruct (IH (indexSegment stat pathName st seg)) as [Hr He].
    destruct (indexSegment_frame stat pathName st seg) as [Hr' He'].
    split; [congruence|]. intros q Hq. rewrite He, He' by exact Hq. reflexivity.
Qed.

(** X28: a rebuild of one path changes the list of no other path, and
    when it returns the set of running rebuilds is the one it found,
    whatever the segments hold and whether or not their sidecars can be
    written. *)
Theorem IndexPath_touches_only_its_path
        (stat : gmap string Z) (i : TimeIndex.index) (d : disk) (formatFMP4 : bool)
        (pathName : string) (segments : list Segment) :
  running (fst (IndexPath stat (i, d) formatFMP4 pathName segments)) = running i
  /\ forall q, q <> pathName ->
       entries (fst (IndexPath stat (i, d) formatFMP4 pathName segments)) !! q
       = entries i !! q.
Proof.
  unfold IndexPath.
  destruct (_ || _); [split; [reflexivity | intros; reflexivity]|].
  destruct (Nat.eqb _ 0); [split; [reflexivity | intros; reflexivity]|].
  destruct (negb formatFMP4); [split; [reflexivity | intros; reflexivity]|].
  destruct (bool_decide_reflect (pathName ∈ running i)) as [|Hrun];
    [split; [reflexivity | intros; reflexivity]|].
  cbn [entries running].
  set (placed := match entries i !! pathName with
                 | Some _ => _
                 | None => _
                 end).
  destruct (fold_indexSegment_frame stat pathName segments (placed, d)) as [Hr He].
  destruct (fold_left _ segments (placed, d)) as [i' d'].
  cbn [fst running entries] in *. split.
  - rewrite Hr. subst placed.
    assert (Hset : ({[pathName]} ∪ running i) ∖ {[pathName]} = running i).
    { apply set_eq. intros x. rewrite elem_of_difference, elem_of_union, !elem_of_singleton.
      split.
      - intros [[Hx|Hx] Hne]; [contradiction | exact Hx].
      - intros Hx. split; [right; exact Hx | intros ->; contradiction]. }
    destruct (entries i !! pathName); cbn [running]; exact Hset.
  - intros q Hq. rewrite He by exact Hq. subst placed.
    destruct (entries i !! pathName); cbn [entries]; [reflexivity|].
    apply lookup_insert_ne. congruence.
Qed.

End IndexerFacts.

(** ** Re-index request and cleaner *)

Section ReIndexFacts.

Import TimeIndex Locking ReIndex Cleaner.

Lemma merged_depends_on_list (p : string) (segs : list (option (list indexEntry))) :
  forall a b : index,
    entries a !! p = entries b !! p ->
    entries (fold_left (fun i seg => match seg with
                                     | Some lst => appendIndex i p lst
                                     | None => i
                                     end) segs a) !! p
    = entries (fold_left (fun i seg => match seg with
                                       | Some lst => appendIndex i p lst
                                       | None => i
                                       end) segs b) !! p.
Proof.
  induction segs as [|[lst|] segs IH]; intros a b Hab; cbn [fold_left];
    [exact Hab | | apply IH, Hab].
  apply IH. unfold appendIndex. cbn [entries]. rewrite !lookup_insert_eq, Hab. reflexivity.
Qed.

(** X29: a re-index forgets what the index held for the path: after a
    re-index request and the rebuild it starts, run alone, the list of
    the path is the same whatever it was before. *)
Theorem reindex_forgets_the_old_list
        {PathConf : Type} (i1 i2 : index) (p : string) (conf : PathConf)
        (segs : list (option (list indexEntry))) :
  p ∉ running i1 -> p ∉ running i2 ->
  snd (fst (onReIndex i1 p (Some conf))) = true
  /\ snd (fst (onReIndex i2 p (Some conf))) = true
  /\ entries (merged (fst (fst (onReIndex i1 p (Some conf)))) p segs) !! p
     = entries (merged (fst (fst (onReIndex i2 p (Some conf)))) p segs) !! p.
Proof.
  intros H1 H2. unfold onReIndex.
  rewrite !bool_decide_eq_false_2 by assumption. cbn [fst snd].
  split; [reflexivity|]. split; [reflexivity|].
  unfold merged. cbn [entries]. rewrite !lookup_insert_eq.
  apply merged_depends_on_list. cbn [entries]. rewrite !lookup_insert_eq. reflexivity.
Qed.

Lemma interval_fold (Entries : list CleanerEntry) : forall start : Z,
  let r := fold_left (fun interval e =>
                        if interval >? Z.quot (DeleteAfter e) 2
                        then Z.quot (DeleteAfter e) 2
                        else interval) Entries start in
  r <= start
  /\ Forall (fun e => r <= Z.quot (DeleteAfter e) 2) Entries
  /\ (r = start \/ exists e, e ∈ Entries /\ r = Z.quot (DeleteAfter e) 2).
Proof.
  induction Entries as [|e Entries IH]; intros start; cbn [fold_left].
  - cbv zeta. split; [lia|]. split; [constructor | left; reflexivity].
  - cbv zeta.
    set (next := if start >? Z.quot (DeleteAfter e) 2 then Z.quot (DeleteAfter e) 2 else start).
    destruct (IH next) as (Hle & Hall & Hor). cbv zeta in Hle, Hall, Hor.
    assert (Hnext : next <= start /\ next <= Z.quot (DeleteAfter e) 2
                    /\ (next = start \/ next = Z.quot (DeleteAfter e) 2)).
    { subst next. destruct (Z.gtb_spec start (Z.quot (DeleteAfter e) 2)); lia. }
    destruct Hnext as (Hn1 & Hn2 & Hn3).
    split; [lia|]. split; [constructor; [lia | exact Hall]|].
    destruct Hor as [Heq|(e' & Hin & Heq)].
    + destruct Hn3 as [Hn3|Hn3]; [left; congruence|].
      right. exists e. split; [apply elem_of_cons; left; reflexivity | congruence].
    + right. exists e'. split; [apply elem_of_cons; right; exact Hin | exact Heq].
Qed.

(** X30: the cleaner waits between two runs for the smallest of 30
    minutes and half the retention of each of its entries. *)
Theorem cleaner_interval_is_the_minimum (Entries : list CleanerEntry) :
  interval Entries <= 1800 * Scanner.Second
  /\ Forall (fun e => interval Entries <= Z.quot (DeleteAfter e) 2) Entries
  /\ (interval Entries = 1800 * Scanner.Second
      \/ exists e, e ∈ Entries /\ interval Entries = Z.quot (DeleteAfter e) 2).
Proof.
  unfold interval. change (30 * 60 * Scanner.Second) with (1800 * Scanner.Second).
  apply (interval_fold Entries (1800 * Scanner.Second)).
Qed.

End ReIndexFacts.

(** ** The properties above at concrete inputs *)

Section MoreExamples.

Import GoTime TimeIndex History SidecarLayout Sidecar Scanner Fragments Indexer.
Import Rebuild Locking IndexWriter ReIndex Inputs MoreInputs.

Lemma inputs_codable : Forall codable [e0; e1; e2].
Proof.
  repeat (constructor;
            [unfold codable, normal, zone_ok, Int64.in_range, Int64.min_int, Int64.max_int;
             cbn; repeat split; lia|]).
  constructor.
Qed.

Lemma inputs_codable2 : Forall codable [e0; e1].
Proof.
  pose proof inputs_codable as H. apply Forall_cons in H. destruct H as [H0 H].
  apply Forall_cons in H. destruct H as [H1 _].
  constructor; [exact H0|]. constructor; [exact H1|]. constructor.
Qed.

Lemma inputs_codable1 : Forall codable [e0].
Proof.
  pose proof inputs_codable as H. apply Forall_cons in H. destruct H as [H0 _].
  constructor; [exact H0|]. constructor.
Qed.

Lemma codable_e1 : codable e1.
Proof.
  pose proof inputs_codable2 as H. apply Forall_cons in H. destruct H as [_ H].
  apply Forall_cons in H. tauto.
Qed.

Lemma camIndex_list : entries camIndex !! "cam"%string = Some [e0; e1; s1; f1].
Proof. vm_compute. reflexivity. Qed.

Lemma cam_leN : StronglySorted leN [e0; e1; s1; f1; mkEntry t20 8192].
Proof. repeat constructor; unfold leN, nanos; cbn; lia. Qed.

Lemma camIndex_sorted : sorted_index camIndex.
Proof.
  intros q l Hq. unfold camIndex in Hq. cbn [entries] in Hq.
  apply lookup_singleton_Some in Hq. destruct Hq as [_ <-]. split.
  - apply (StronglySorted_app_1_l leN [e0; e1; s1; f1] [mkEntry t20 8192]), cam_leN.
  - repeat constructor; unfold normalE, normal; cbn; lia.
Qed.

Lemma readOnlyDisk_fails :
  writeIndex readOnlyDisk "/rec/cam/a.mp4" [e2]
  = (fst (writeIndex readOnlyDisk "/rec/cam/a.mp4" [e2]), Some ErrIO).
Proof. vm_compute. reflexivity. Qed.

Lemma writeIndex_error_keeps_sidecar_witness :
  writeIndex readOnlyDisk "/rec/cam/a.mp4" [e2]
  = (fst (writeIndex readOnlyDisk "/rec/cam/a.mp4" [e2]), Some ErrIO)
  /\ files (fst (writeIndex readOnlyDisk "/rec/cam/a.mp4" [e2]))
       !! indexFileName "/rec/cam/a.mp4"
     = files readOnlyDisk !! indexFileName "/rec/cam/a.mp4".
Proof.
  split; [exact readOnlyDisk_fails|].
  apply (writeIndex_error_keeps_sidecar readOnlyDisk _ "/rec/cam/a.mp4" [e2] ErrIO
           readOnlyDisk_fails).
Defined.

Lemma cutInTime_file :
  files cutInTime !! "/rec/cam/a.idx"%string = Some (sidecarBytes [e0; e1] ++ [1; 0; 0]).
Proof. apply lookup_singleton_eq. Qed.

Lemma readIndexFile_cut_in_time_field_witness :
  files cutInTime !! "/rec/cam/a.idx"%string = Some (sidecarBytes [e0; e1] ++ [1; 0; 0])
  /\ Forall codable [e0; e1]
  /\ (0 < length [1; 0; 0] < 16)%nat
  /\ readIndexFile cutInTime "/rec/cam/a.idx" = ([], None).
Proof.
  pose proof inputs_codable2 as Hc.
  assert (Ht : (0 < length [1; 0; 0] < 16)%nat) by (cbn [length]; lia).
  split; [exact cutInTime_file|]. split; [exact Hc|]. split; [exact Ht|].
  apply (readIndexFile_cut_in_time_field cutInTime _ [e0; e1] [1; 0; 0]
           cutInTime_file Hc Ht).
Defined.

Lemma cutInOffset_file :
  files cutInOffset !! "/rec/cam/a.idx"%string
  = Some (sidecarBytes [e0] ++ slot (Time e1) ++ [0; 0; 0]).
Proof. apply lookup_singleton_eq. Qed.

Lemma readIndexFile_cut_in_offset_field_witness :
  files cutInOffset !! "/rec/cam/a.idx"%string
  = Some (sidecarBytes [e0] ++ slot (Time e1) ++ [0; 0; 0])
  /\ Forall codable [e0]
  /\ Int64.in_range (sec (Time e1)) /\ normal (Time e1) /\ zone_ok (loc (Time e1))
  /\ (length [0; 0; 0] < 8)%nat
  /\ exists idx', readIndexFile cutInOffset "/rec/cam/a.idx" = (idx', None)
                  /\ Forall2 same_entry [e0] idx'.
Proof.
  pose proof inputs_codable1 as Hc.
  destruct codable_e1 as (Hs & Hn & Hz & _).
  assert (Hp : (length [0; 0; 0] < 8)%nat) by (cbn [length]; lia).
  split; [exact cutInOffset_file|]. split; [exact Hc|]. split; [exact Hs|].
  split; [exact Hn|]. split; [exact Hz|]. split; [exact Hp|].
  apply (readIndexFile_cut_in_offset_field cutInOffset _ [e0] (Time e1) [0; 0; 0]
           cutInOffset_file Hc Hs Hn Hz Hp).
Defined.

Lemma unknownVersion_file :
  files unknownVersion !! "/rec/cam/a.idx"%string
  = Some (sidecarBytes [e0] ++ 9 :: repeat 0 23).
Proof. apply lookup_singleton_eq. Qed.

Lemma readIndexFile_rejects_unknown_time_version_witness :
  files unknownVersion !! "/rec/cam/a.idx"%string
  = Some (sidecarBytes [e0] ++ 9 :: repeat 0 23)
  /\ Forall codable [e0]
  /\ (16 <= length (9 :: repeat 0 23))%nat
  /\ GoTime.at_ (9 :: repeat 0 23) 0 <> 1 /\ GoTime.at_ (9 :: repeat 0 23) 0 <> 2
  /\ readIndexFile unknownVersion "/rec/cam/a.idx" = ([], Some ErrTimeUnmarshal).
Proof.
  pose proof inputs_codable1 as Hc.
  assert (Hl : (16 <= length (9 :: repeat 0 23))%nat) by (cbn [length repeat]; lia).
  assert (H1 : GoTime.at_ (9 :: repeat 0 23) 0 <> 1) by (cbn; lia).
  assert (H2 : GoTime.at_ (9 :: repeat 0 23) 0 <> 2) by (cbn; lia).
  split; [exact unknownVersion_file|]. split; [exact Hc|]. split; [exact Hl|].
  split; [exact H1|]. split; [exact H2|].
  apply (readIndexFile_rejects_unknown_time_version unknownVersion _ [e0] _
           unknownVersion_file Hc Hl H1 H2).
Defined.

Lemma plain_mp4 : Forall plain (list_ascii_of_string "mp4").
Proof. cbn. repeat constructor; intros H; discriminate H. Qed.

Lemma indexFileName_replaces_extension_witness :
  Forall plain (list_ascii_of_string "mp4")
  /\ indexFileName ("/rec/cam.1/a.b" +:+ "." +:+ "mp4") = ("/rec/cam.1/a.b" +:+ ".idx")%string
  /\ indexFileName ("/rec/cam.1/a.b" +:+ "/" +:+ "mp4")
     = ("/rec/cam.1/a.b" +:+ "/" +:+ "mp4" +:+ ".idx")%string.
Proof.
  split; [exact plain_mp4|].
  apply (indexFileName_replaces_extension "/rec/cam.1/a.b" "mp4" plain_mp4).
Defined.

Lemma camIndex3_hint : FindBestOffset camIndex3 "cam" t3 <> 0.
Proof. vm_compute. intros H. discriminate H. Qed.

Lemma FindBestOffset_hint_is_not_after_start_witness :
  FindBestOffset camIndex3 "cam" t3 <> 0
  /\ exists (l : list indexEntry) (n : nat) (e e' : indexEntry),
       entries camIndex3 !! "cam"%string = Some l
       /\ l !! n = Some e /\ l !! S n = Some e'
       /\ Offset e = FindBestOffset camIndex3 "cam" t3
       /\ GoTime.After (Time e) t3 = false
       /\ GoTime.After (Time e') t3 = true.
Proof.
  split; [exact camIndex3_hint|].
  apply (FindBestOffset_hint_is_not_after_start camIndex3 "cam" t3 camIndex3_hint).
Defined.

Lemma cam_appended_sorted :
  StronglySorted leN (default [] (entries camIndex !! "cam"%string) ++ [mkEntry t20 8192]).
Proof. rewrite camIndex_list. exact cam_leN. Qed.

Lemma appendIndex_in_order_appends_witness :
  StronglySorted leN (default [] (entries camIndex !! "cam"%string) ++ [mkEntry t20 8192])
  /\ entries (appendIndex camIndex "cam" [mkEntry t20 8192]) !! "cam"%string
     = Some (default [] (entries camIndex !! "cam"%string) ++ [mkEntry t20 8192]).
Proof.
  split; [exact cam_appended_sorted|].
  apply (appendIndex_in_order_appends camIndex "cam" [mkEntry t20 8192] cam_appended_sorted).
Defined.

Lemma PruneIndex_keeps_lists_sorted_witness :
  sorted_index camIndex /\ sorted_index (PruneIndex camIndex "cam" t5).
Proof.
  split; [exact camIndex_sorted|].
  apply (PruneIndex_keeps_lists_sorted camIndex "cam" t5 camIndex_sorted).
Defined.

Lemma cam_leading_sentinel (s : indexEntry) : head [e0; e1; s1; f1] = Some s -> Offset s = 0.
Proof. intros H. inversion H; subst. reflexivity. Qed.

Lemma cam_pruned :
  entries (PruneIndex camIndex "cam" tBefore) !! "cam"%string = Some [s1; f1].
Proof. vm_compute. reflexivity. Qed.

Lemma PruneIndex_keeps_leading_sentinel_witness :
  entries camIndex !! "cam"%string = Some [e0; e1; s1; f1]
  /\ (forall s, head [e0; e1; s1; f1] = Some s -> Offset s = 0)
  /\ entries (PruneIndex camIndex "cam" tBefore) !! "cam"%string = Some [s1; f1]
  /\ forall s, head [s1; f1] = Some s -> Offset s = 0.
Proof.
  split; [exact camIndex_list|]. split; [exact cam_leading_sentinel|].
  split; [exact cam_pruned|].
  apply (PruneIndex_keeps_leading_sentinel camIndex "cam" tBefore _ _
           camIndex_list cam_leading_sentinel cam_pruned).
Defined.

Lemma cam_nondecreasing : nondecreasing [e0; e1; s1; f1].
Proof. repeat constructor. Qed.

Lemma e1_in_cam : e1 ∈ [e0; e1; s1; f1].
Proof. apply elem_of_cons. right. apply elem_of_cons. left. reflexivity. Qed.

Lemma PruneIndex_keeps_entries_before_cut_witness :
  entries camIndex !! "cam"%string = Some [e0; e1; s1; f1]
  /\ nondecreasing [e0; e1; s1; f1]
  /\ e1 ∈ [e0; e1; s1; f1]
  /\ GoTime.Before (Time e1) t5 = true
  /\ exists l', entries (PruneIndex camIndex "cam" t5) !! "cam"%string = Some l' /\ e1 ∈ l'.
Proof.
  split; [exact camIndex_list|]. split; [exact cam_nondecreasing|].
  split; [exact e1_in_cam|]. split; [reflexivity|].
  apply (PruneIndex_keeps_entries_before_cut camIndex "cam" t5 _ e1
           camIndex_list cam_nondecreasing e1_in_cam eq_refl).
Defined.

Lemma cam_split :
  entries camIndex !! "cam"%string = Some ([e0; e1] ++ (s1 :: [f1]) ++ []).
Proof. exact camIndex_list. Qed.

Lemma cam_earlier :
  Forall (fun e => GoTime.Equal (Time e) (Time s1) = false
                   /\ GoTime.After (Time e) (Time s1) = false) [e0; e1].
Proof. repeat constructor. Qed.

Lemma cam_segment_before : Forall (fun e => GoTime.Before (Time e) t20 = true) (s1 :: [f1]).
Proof. repeat constructor. Qed.

Lemma nothing_follows (x : indexEntry) :
  head (@nil indexEntry) = Some x -> GoTime.Before (Time x) t20 = false.
Proof. intros H. discriminate H. Qed.

Lemma WriteIndex_persists_the_finished_segment_witness :
  entries camIndex !! "cam"%string = Some ([e0; e1] ++ (s1 :: [f1]) ++ [])
  /\ Forall (fun e => GoTime.Equal (Time e) (Time s1) = false
                      /\ GoTime.After (Time e) (Time s1) = false) [e0; e1]
  /\ GoTime.Equal (Time s1) (Time s1) = true
  /\ Forall (fun e => GoTime.Before (Time e) t20 = true) (s1 :: [f1])
  /\ (forall x, head (@nil indexEntry) = Some x -> GoTime.Before (Time x) t20 = false)
  /\ WriteIndex camIndex emptyDisk "cam" "/rec/cam/b.mp4" (Time s1) t20
     = fst (writeIndex emptyDisk "/rec/cam/b.mp4" (s1 :: [f1])).
Proof.
  split; [exact cam_split|]. split; [exact cam_earlier|]. split; [reflexivity|].
  split; [exact cam_segment_before|]. split; [exact nothing_follows|].
  apply (WriteIndex_persists_the_finished_segment camIndex emptyDisk "cam" "/rec/cam/b.mp4"
           (Time s1) t20 [e0; e1] s1 [f1] []
           cam_split cam_earlier eq_refl cam_segment_before nothing_follows).
Defined.

Lemma scanSegment_begins_with_sentinel_witness :
  opens brokenSegment = true /\ init brokenSegment = Some tracks1
  /\ exists rest : list indexEntry,
       fst (scanSegment brokenSegment)
       = mkEntry (GoTime.Truncate0 (Start brokenSegment)) 0 :: rest.
Proof.
  split; [reflexivity|]. split; [reflexivity|].
  apply (scanSegment_begins_with_sentinel brokenSegment tracks1 eq_refl eq_refl).
Defined.

Lemma fragA_wellFormed : Forall (wellFormed tracks1) [fragA].
Proof.
  constructor; [|constructor]. repeat split.
  exists (mkTrack 1 90000). split; [reflexivity | discriminate].
Qed.

Lemma scanSegment_stops_at_unknown_track_witness :
  Forall (wellFormed tracks1) [fragA]
  /\ tfhdDecodes fragU = true
  /\ findInitTrack tracks1 (fragTrack fragU) = None
  /\ scanSegment (segmentOf "/rec/cam/b.mp4" t0 tracks1 ([fragA] ++ fragU :: [fragC]) [])
     = (mkEntry (GoTime.Truncate0 t0) 0
          :: concat (fragmentEntry tracks1 (GoTime.Truncate0 t0) <$> [fragA]),
        Some (ErrInvalidTrackID (fragTrack fragU))).
Proof.
  split; [exact fragA_wellFormed|]. split; [reflexivity|]. split; [reflexivity|].
  apply (scanSegment_stops_at_unknown_track tracks1 "/rec/cam/b.mp4" t0 [fragA] [fragC] fragU []
           fragA_wellFormed eq_refl eq_refl).
Defined.

Lemma sound_wellFormed : Forall (wellFormed tracks1) [fragA; fragC].
Proof.
  repeat (constructor; [repeat split; exists (mkTrack 1 90000);
                        split; [reflexivity | discriminate]|]).
  constructor.
Qed.

Lemma sound_scanned :
  scannedEntries tracks1 t0 [fragA; fragC]
  = [e0; mkEntry t0 1024; mkEntry (GoTime.mkTime 63800000004 0 GoTime.UTC) 9176].
Proof. vm_compute. reflexivity. Qed.

Lemma sound_codable : Forall codable (scannedEntries tracks1 t0 [fragA; fragC]).
Proof.
  rewrite sound_scanned.
  repeat (constructor;
            [unfold codable, normal, zone_ok, Int64.in_range, Int64.min_int, Int64.max_int;
             cbn; repeat split; lia|]).
  constructor.
Qed.

Lemma no_sidecar : snd (readIndex emptyDisk ∅ "/rec/cam/b.mp4") <> None.
Proof. unfold readIndex. rewrite lookup_empty. discriminate. Qed.

Lemma sound_budget :
  16 + 24 * Z.of_nat (length (scannedEntries tracks1 t0 [fragA; fragC])) <= budget emptyDisk.
Proof. rewrite sound_scanned. cbn. lia. Qed.

Lemma indexSegment_scans_then_persists_witness :
  snd (readIndex emptyDisk ∅ "/rec/cam/b.mp4") <> None
  /\ Forall (wellFormed tracks1) [fragA; fragC]
  /\ Forall codable (scannedEntries tracks1 t0 [fragA; fragC])
  /\ ((indexFileName "/rec/cam/b.mp4" +:+ ".tmp")%string ∉ denied emptyDisk)
  /\ (indexFileName "/rec/cam/b.mp4" ∉ denied emptyDisk)
  /\ 16 + 24 * Z.of_nat (length (scannedEntries tracks1 t0 [fragA; fragC])) <= budget emptyDisk
  /\ exists (d' : disk) (idx' : list indexEntry),
       indexSegment ∅ "cam" (Index, emptyDisk)
                    (segmentOf "/rec/cam/b.mp4" t0 tracks1 [fragA; fragC] [])
       = (appendIndex Index "cam" (scannedEntries tracks1 t0 [fragA; fragC]), d')
       /\ readIndexFile d' (indexFileName "/rec/cam/b.mp4") = (idx', None)
       /\ Forall2 same_entry (scannedEntries tracks1 t0 [fragA; fragC]) idx'.
Proof.
  assert (Ht : (indexFileName "/rec/cam/b.mp4" +:+ ".tmp")%string ∉ denied emptyDisk)
    by apply not_elem_of_empty.
  assert (Hi : indexFileName "/rec/cam/b.mp4" ∉ denied emptyDisk)
    by apply not_elem_of_empty.
  split; [exact no_sidecar|]. split; [exact sound_wellFormed|]. split; [exact sound_codable|].
  split; [exact Ht|]. split; [exact Hi|]. split; [exact sound_budget|].
  apply (indexSegment_scans_then_persists ∅ "cam" Index emptyDisk tracks1 "/rec/cam/b.mp4" t0
           [fragA; fragC] no_sidecar sound_wellFormed sound_codable Ht Hi sound_budget).
Defined.

Lemma fresh_segment : freshStat !! Fpath segmentA = Some 10.
Proof. vm_compute. reflexivity. Qed.

Lemma fresh_sidecar : freshStat !! indexFileName (Fpath segmentA) = Some 20.
Proof. vm_compute. reflexivity. Qed.

Lemma cutInTime_sidecar :
  files cutInTime !! indexFileName (Fpath segmentA)
  = Some (sidecarBytes [e0; e1] ++ [1; 0; 0]).
Proof. exact cutInTime_file. Qed.

Lemma indexSegment_trusts_truncated_sidecar_witness :
  freshStat !! Fpath segmentA = Some 10
  /\ freshStat !! indexFileName (Fpath segmentA) = Some 20
  /\ 10 <= 20
  /\ files cutInTime !! indexFileName (Fpath segmentA)
     = Some (sidecarBytes [e0; e1] ++ [1; 0; 0])
  /\ Forall codable [e0; e1]
  /\ (0 < length [1; 0; 0] < 16)%nat
  /\ indexSegment freshStat "cam" (Index, cutInTime) segmentA
     = (appendIndex Index "cam" [], cutInTime).
Proof.
  pose proof inputs_codable2 as Hc.
  assert (Hle : 10 <= 20) by lia.
  assert (Ht : (0 < length [1; 0; 0] < 16)%nat) by (cbn [length]; lia).
  split; [exact fresh_segment|]. split; [exact fresh_sidecar|]. split; [exact Hle|].
  split; [exact cutInTime_sidecar|]. split; [exact Hc|]. split; [exact Ht|].
  apply (indexSegment_trusts_truncated_sidecar freshStat "cam" Index cutInTime segmentA
           [e0; e1] [1; 0; 0] 10 20 fresh_segment fresh_sidecar Hle cutInTime_sidecar Hc Ht).
Defined.

Lemma twoCalls_enter : Forall (fun g => at_pc g = Entry) twoCalls.
Proof. repeat constructor. Qed.

Lemma rebuilds_exclude_each_other_witness :
  Forall (fun g => at_pc g = Entry) twoCalls
  /\ exists st, run (start Index twoCalls) schedule = Some st
       /\ lock_consistent st
       /\ (forall t1 t2 g1 g2,
             goroutines st !! t1 = Some g1 -> goroutines st !! t2 = Some g2 ->
             holds_lock (at_pc g1) = true -> holds_lock (at_pc g2) = true -> t1 = t2)
       /\ (forall t g, goroutines st !! t = Some g -> at_pc g = Done -> mutex st <> Some t).
Proof.
  split; [exact twoCalls_enter|].
  destruct (run (start Index twoCalls) schedule) as [st|] eqn:Hrun.
  - exists st. split; [reflexivity|].
    apply (rebuilds_exclude_each_other Index twoCalls schedule st twoCalls_enter Hrun).
  - exfalso. vm_compute in Hrun. discriminate Hrun.
Defined.

Lemma cam_not_running : "cam"%string ∉ running Index.
Proof. apply not_elem_of_empty. Qed.

Lemma one_segment : [Some [e0; e1]] <> @nil (option (list indexEntry)).
Proof. discriminate. Qed.

Lemma lone_rebuild_completes_witness :
  String.eqb "cam" "all_others" || String.eqb "cam" "all" = false
  /\ [Some [e0; e1]] <> @nil (option (list indexEntry))
  /\ ("cam"%string ∉ running Index)
  /\ exists (n : nat) (st : state),
       run (start Index [call "cam" [Some [e0; e1]]]) (repeat 0%nat n) = Some st
       /\ at_pc <$> goroutines st = [Done]
       /\ mutex st = None
       /\ entries (shared st) = entries (merged Index "cam" [Some [e0; e1]])
       /\ running (shared st) = running Index.
Proof.
  split; [reflexivity|]. split; [exact one_segment|]. split; [exact cam_not_running|].
  apply (lone_rebuild_completes Index "cam" [Some [e0; e1]] eq_refl one_segment
           cam_not_running).
Defined.

Lemma cam_idle : "cam"%string ∉ running camIndex.
Proof. apply not_elem_of_empty. Qed.

Lemma reindex_forgets_the_old_list_witness :
  ("cam"%string ∉ running camIndex) /\ ("cam"%string ∉ running Index)
  /\ snd (fst (onReIndex camIndex "cam" (Some tt))) = true
  /\ snd (fst (onReIndex Index "cam" (Some tt))) = true
  /\ entries (merged (fst (fst (onReIndex camIndex "cam" (Some tt)))) "cam" [Some [e0; e1]])
       !! "cam"%string
     = entries (merged (fst (fst (onReIndex Index "cam" (Some tt)))) "cam" [Some [e0; e1]])
         !! "cam"%string.
Proof.
  split; [exact cam_idle|]. split; [exact cam_not_running|].
  apply (reindex_forgets_the_old_list camIndex Index "cam" tt [Some [e0; e1]]
           cam_idle cam_not_running).
Defined.

End MoreExamples.
